(** * kick-js: protocol decoder and connection lifecycle of the chat client

    A shallow embedding of [src/core/messageHandling.ts] (the decoder
    [parseMessage]) and of [src/client/client.ts] (the closure built by
    [createClient]: listener registry, heartbeat, reconnection scheduler
    and the socket handlers installed by [connect]), followed by the
    properties of the specification that concern them. *)

From Stdlib Require Import ZArith Ascii String Lia.
From stdpp Require Import base option list strings gmap.

Set Warnings "-register-all".

Local Open Scope string_scope.
Local Open Scope list_scope.

(** ** JSON values *)

(** A parsed JSON text.  Numbers keep their decimal lexeme: the client never
    computes with a number of a payload.  The members of an object are kept
    in the order of the text. *)
Inductive json : Type :=
| JNull
| JBool (b : bool)
| JNum (lexeme : string)
| JStr (s : string)
| JArr (items : list json)
| JObj (fields : list (string * json)).

(** A JavaScript value as far as the decoder meets one: [None] reads
    [undefined]. *)
Definition jsval : Type := option json.

(** What a JavaScript [throw] carries. *)
Inductive exn : Type :=
| SyntaxError
| TypeError
| ListenerRaised (lid : nat)
| UnhandledErrorEvent
| FetchFailed
| TransportError.

(** How an expression or a call completes. *)
Inductive completion (A : Type) : Type :=
| Normal (a : A)
| Throw (e : exn).
Arguments Normal {A} a.
Arguments Throw {A} e.

(** [o[k]] for an own property [k] of a parsed object: [JSON.parse] keeps the
    last of several members with one key. *)
Fixpoint lookup_last (k : string) (fields : list (string * json)) : jsval :=
  match fields with
  | [] => None
  | (k', v) :: rest =>
      match lookup_last k rest with
      | Some w => Some w
      | None => if String.eqb k' k then Some v else None
      end
  end.

(** [v.k] where [k] is one of [event], [data], [content]: only [null] throws
    (parsed values are never [undefined]); strings, numbers, booleans and
    arrays have no such property. *)
Definition get_prop (v : json) (k : string) : completion jsval :=
  match v with
  | JNull => Throw TypeError
  | JObj fields => Normal (lookup_last k fields)
  | _ => Normal None
  end.

(** [o.k = v] on an object that has the property [k]. *)
Definition set_prop (k : string) (v : json) (fields : list (string * json))
  : list (string * json) :=
  map (fun kv => if String.eqb (fst kv) k then (fst kv, v) else kv) fields.

(** ** Scanning text *)

Definition is_digit (c : ascii) : bool :=
  let n := nat_of_ascii c in (48 <=? n)%nat && (n <=? 57)%nat.

(** The class [\w] of a regular expression: letters, digits and [_]. *)
Definition is_word (c : ascii) : bool :=
  let n := nat_of_ascii c in
  is_digit c || ((65 <=? n)%nat && (n <=? 90)%nat)
  || ((97 <=? n)%nat && (n <=? 122)%nat) || (n =? 95)%nat.

(** [s] without its prefix [p], when it starts with it. *)
Fixpoint strip_prefix (p s : string) : option string :=
  match p, s with
  | EmptyString, _ => Some s
  | String a p', String b s' =>
      if Ascii.eqb a b then strip_prefix p' s' else None
  | String _ _, EmptyString => None
  end.

(** The longest prefix of characters in the class [p], and what follows. *)
Fixpoint take_while (p : ascii -> bool) (s : string) : string * string :=
  match s with
  | String c rest =>
      if p c
      then let '(cs, tl) := take_while p rest in (String c cs, tl)
      else (EmptyString, s)
  | EmptyString => (EmptyString, s)
  end.

(** ** A reference [JSON.parse]

    [utils/utils.ts] is not among the sources, so the decoder below takes
    [parseJSON] as a parameter.  To run the embedding on concrete frames this
    section gives an instance: a recursive-descent parser of the JSON grammar
    over byte strings. *)
Module RefJSON.

Definition dq : ascii := "034"%char.
Definition backslash : ascii := "092"%char.

Definition is_ws (c : ascii) : bool :=
  let n := nat_of_ascii c in
  (n =? 32)%nat || (n =? 9)%nat || (n =? 10)%nat || (n =? 13)%nat.

Fixpoint skip_ws (s : string) : string :=
  match s with
  | String c rest => if is_ws c then skip_ws rest else s
  | EmptyString => s
  end.

Definition hex_digit (c : ascii) : option nat :=
  let n := nat_of_ascii c in
  if is_digit c then Some (n - 48)
  else if (97 <=? n)%nat && (n <=? 102)%nat then Some (n - 87)
  else if (65 <=? n)%nat && (n <=? 70)%nat then Some (n - 55)
  else None.

(** The UTF-8 bytes of a code unit below 65536. *)
Definition utf8 (u : nat) : string :=
  let byte n := String (ascii_of_nat n) EmptyString in
  if (u <? 128)%nat then byte u
  else if (u <? 2048)%nat then byte (192 + u / 64) +:+ byte (128 + u mod 64)
  else byte (224 + u / 4096) +:+ byte (128 + (u / 64) mod 64)
         +:+ byte (128 + u mod 64).

Definition unescape (e : ascii) : option string :=
  let one n := Some (String (ascii_of_nat n) EmptyString) in
  match nat_of_ascii e with
  | 34 => one 34 | 92 => one 92 | 47 => one 47
  | 98 => one 8 | 102 => one 12 | 110 => one 10
  | 114 => one 13 | 116 => one 9
  | _ => None
  end.

(** The characters of a string literal after its opening quote, and the
    text after its closing quote. *)
Fixpoint parse_chars (s : string) : option (string * string) :=
  match s with
  | EmptyString => None
  | String c rest =>
      if Ascii.eqb c dq then Some (EmptyString, rest)
      else if Ascii.eqb c backslash then
        match rest with
        | String "u" (String h1 (String h2 (String h3 (String h4 rest')))) =>
            match hex_digit h1, hex_digit h2, hex_digit h3, hex_digit h4 with
            | Some a, Some b, Some c', Some d =>
                match parse_chars rest' with
                | Some (str, tl) =>
                    Some (utf8 (((a * 16 + b) * 16 + c') * 16 + d) +:+ str, tl)
                | None => None
                end
            | _, _, _, _ => None
            end
        | String e rest' =>
            match unescape e, parse_chars rest' with
            | Some ch, Some (str, tl) => Some (ch +:+ str, tl)
            | _, _ => None
            end
        | EmptyString => None
        end
      else if (nat_of_ascii c <? 32)%nat then None
      else match parse_chars rest with
           | Some (str, tl) => Some (String c str, tl)
           | None => None
           end
  end.

Definition take_digits : string -> string * string := take_while is_digit.

(** An optional sign, [0] or digits without a leading zero, an optional
    fraction and an optional exponent; the lexeme and the remaining text. *)
Definition parse_number (s : string) : option (string * string) :=
  let '(sign, s1) :=
    match s with
    | String "-" r => ("-", r)
    | _ => (EmptyString, s)
    end in
  let '(int, s2) := take_digits s1 in
  match int with
  | EmptyString => None
  | String "0" (String _ _) => None
  | _ =>
      let frac :=
        match s2 with
        | String "." r =>
            let '(ds, tl) := take_digits r in
            match ds with
            | EmptyString => None
            | _ => Some ("." +:+ ds, tl)
            end
        | _ => Some (EmptyString, s2)
        end in
      match frac with
      | None => None
      | Some (fr, s3) =>
          let expo :=
            match s3 with
            | String e r =>
                if Ascii.eqb e "e" || Ascii.eqb e "E" then
                  let '(sg, r') :=
                    match r with
                    | String "+" r' => ("+", r')
                    | String "-" r' => ("-", r')
                    | _ => (EmptyString, r)
                    end in
                  let '(ds, tl) := take_digits r' in
                  match ds with
                  | EmptyString => None
                  | _ => Some (String e sg +:+ ds, tl)
                  end
                else Some (EmptyString, s3)
            | EmptyString => Some (EmptyString, s3)
            end in
          match expo with
          | None => None
          | Some (ex, s4) => Some (sign +:+ int +:+ fr +:+ ex, s4)
          end
      end
  end.

(** A value, then the members of an array and of an object after the
    opening bracket; [fuel] bounds the nesting and the number of members. *)
Fixpoint parse_value (fuel : nat) (s : string) : option (json * string) :=
  match fuel with
  | O => None
  | S fuel =>
      match skip_ws s with
      | EmptyString => None
      | String c rest as s0 =>
          if Ascii.eqb c dq then
            match parse_chars rest with
            | Some (str, tl) => Some (JStr str, tl)
            | None => None
            end
          else if Ascii.eqb c "[" then
            match skip_ws rest with
            | String "]" tl => Some (JArr [], tl)
            | _ =>
                match parse_items fuel rest with
                | Some (items, tl) => Some (JArr items, tl)
                | None => None
                end
            end
          else if Ascii.eqb c "{" then
            match skip_ws rest with
            | String "}" tl => Some (JObj [], tl)
            | _ =>
                match parse_members fuel rest with
                | Some (fields, tl) => Some (JObj fields, tl)
                | None => None
                end
            end
          else
            match strip_prefix "null" s0, strip_prefix "true" s0,
                  strip_prefix "false" s0 with
            | Some tl, _, _ => Some (JNull, tl)
            | _, Some tl, _ => Some (JBool true, tl)
            | _, _, Some tl => Some (JBool false, tl)
            | None, None, None =>
                match parse_number s0 with
                | Some (lex, tl) => Some (JNum lex, tl)
                | None => None
                end
            end
      end
  end
with parse_items (fuel : nat) (s : string) : option (list json * string) :=
  match fuel with
  | O => None
  | S fuel =>
      match parse_value fuel s with
      | None => None
      | Some (v, tl) =>
          match skip_ws tl with
          | String "]" tl' => Some ([v], tl')
          | String "," tl' =>
              match parse_items fuel tl' with
              | Some (vs, tl'') => Some (v :: vs, tl'')
              | None => None
              end
          | _ => None
          end
      end
  end
with parse_members (fuel : nat) (s : string)
  : option (list (string * json) * string) :=
  match fuel with
  | O => None
  | S fuel =>
      match skip_ws s with
      | String c rest =>
          if Ascii.eqb c dq then
            match parse_chars rest with
            | None => None
            | Some (key, tl) =>
                match skip_ws tl with
                | String ":" tl1 =>
                    match parse_value fuel tl1 with
                    | None => None
                    | Some (v, tl2) =>
                        match skip_ws tl2 with
                        | String "}" tl3 => Some ([(key, v)], tl3)
                        | String "," tl3 =>
                            match parse_members fuel tl3 with
                            | Some (kvs, tl4) => Some ((key, v) :: kvs, tl4)
                            | None => None
                            end
                        | _ => None
                        end
                    end
                | _ => None
                end
            end
          else None
      | EmptyString => None
      end
  end.

(** The whole text is one value between optional white space. *)
Definition parse (text : string) : completion json :=
  match parse_value (2 * String.length text + 2) text with
  | Some (v, tl) =>
      match skip_ws tl with
      | EmptyString => Normal v
      | String _ _ => Throw SyntaxError
      end
  | None => Throw SyntaxError
  end.

(** [String(v)], which [JSON.parse] applies to its argument first; a number
    is printed as its lexeme. *)
Fixpoint to_string (v : json) : string :=
  match v with
  | JNull => "null"
  | JBool true => "true"
  | JBool false => "false"
  | JNum lexeme => lexeme
  | JStr s => s
  | JArr items =>
      String.concat ","
        (map (fun x => match x with JNull => EmptyString | _ => to_string x end)
             items)
  | JObj _ => "[object Object]"
  end.

Definition parseJSON (v : jsval) : completion json :=
  match v with
  | None => parse "undefined"
  | Some j => parse (to_string j)
  end.

(** Building frames: a quoted string literal without escapes, and a string
    literal whose content is itself a JSON text (quotes and backslashes
    escaped). *)
Definition quoted (s : string) : string :=
  String dq s +:+ String dq EmptyString.

Fixpoint escape (s : string) : string :=
  match s with
  | EmptyString => EmptyString
  | String c rest =>
      if Ascii.eqb c dq || Ascii.eqb c backslash
      then String backslash (String c (escape rest))
      else String c (escape rest)
  end.

(** The frame [{"event":<tag>,"data":<text>}] as the service sends it. *)
Definition frame (tag text : string) : string :=
  "{" +:+ quoted "event" +:+ ":" +:+ quoted (escape tag) +:+ ","
      +:+ quoted "data" +:+ ":" +:+ quoted (escape text) +:+ "}".

End RefJSON.


(** ** Emote markup

    [content.replace(/\[emote:(\d+):(\w+)\]/g, (_, __, emoteName) => emoteName)]
    of the chat-message arm. *)

(** A match of the pattern at the head of [s]: the emote name and the text
    after the closing bracket.  Both repetitions are greedy and are followed
    by a character outside their class, so the match is the only one. *)
Definition match_emote (s : string) : option (string * string) :=
  match strip_prefix "[emote:" s with
  | None => None
  | Some r1 =>
      let '(digits, r2) := take_while is_digit r1 in
      match digits, r2 with
      | String _ _, String ":" r3 =>
          let '(emoteName, r4) := take_while is_word r3 in
          match emoteName, r4 with
          | String _ _, String "]" r5 => Some (emoteName, r5)
          | _, _ => None
          end
      | _, _ => None
      end
  end.

Fixpoint replace_emotes_from (fuel : nat) (s : string) : string :=
  match fuel, s with
  | S fuel, String c rest =>
      match match_emote s with
      | Some (emoteName, tl) => emoteName +:+ replace_emotes_from fuel tl
      | None => String c (replace_emotes_from fuel rest)
      end
  | _, _ => s
  end.

Definition replace_emotes (content : string) : string :=
  replace_emotes_from (String.length content) content.

(** [messageData.content = messageData.content.replace(...)] on a decoded
    payload: reading [content] of [null] throws, and so does calling
    [replace] on anything but a string. *)
Definition plainEmote_rewrite (messageData : json) : completion json :=
  match messageData with
  | JObj fields =>
      match lookup_last "content" fields with
      | Some (JStr content) =>
          Normal (JObj (set_prop "content" (JStr (replace_emotes content)) fields))
      | _ => Throw TypeError
      end
  | _ => Throw TypeError
  end.

(** ** The decoder: [core/messageHandling.ts] *)

Inductive LogLevel : Type := LDebug | LInfo | LWarn | LError.

(** A call of a logger method: the method and its message. *)
Definition LogEntry : Type := LogLevel * string.

Module ParsedMessage.
Record t : Type := { type : string; data : json }.
End ParsedMessage.

(** The mapping table of the decoder: event tag of the envelope, kind of the
    decoded event. *)
Definition event_table : list (string * string) :=
  [ ("App\Events\ChatMessageEvent", "ChatMessage");
    ("App\Events\SubscriptionEvent", "Subscription");
    ("App\Events\GiftedSubscriptionsEvent", "GiftedSubscriptions");
    ("App\Events\StreamHostEvent", "StreamHost");
    ("App\Events\MessageDeletedEvent", "MessageDeleted");
    ("App\Events\UserBannedEvent", "UserBanned");
    ("App\Events\UserUnbannedEvent", "UserUnbanned");
    ("App\Events\PinnedMessageCreatedEvent", "PinnedMessageCreated");
    ("App\Events\PinnedMessageDeletedEvent", "PinnedMessageDeleted");
    ("App\Events\PollUpdateEvent", "PollUpdate");
    ("App\Events\PollDeleteEvent", "PollDelete");
    ("pusher:connection_established", "PusherConnectionEstablished");
    ("pusher_internal:subscription_succeeded", "PusherSubscriptionSucceeded");
    ("pusher:pong", "PusherPong");
    ("pusher:ping", "PusherPing");
    ("pusher:error", "PusherError") ].

Section Decoder.

(** [parseJSON] of [utils/utils.ts], which is not among the sources: any
    function of the value it is applied to that returns a parsed value or
    throws. *)
Variable parseJSON : jsval -> completion json.

(** [case "...":] of the switch: strict equality with a string. *)
Definition is_case (v : jsval) (tag : string) : bool :=
  match v with
  | Some (JStr s) => String.eqb s tag
  | _ => false
  end.

(** [return { type, data: parseJSON(messageEventJSON.data) }] *)
Definition decoded (type : string) (messageEventJSON : json)
  : completion (option ParsedMessage.t) :=
  match get_prop messageEventJSON "data" with
  | Throw e => Throw e
  | Normal d =>
      match parseJSON d with
      | Throw e => Throw e
      | Normal data =>
          Normal (Some {| ParsedMessage.type := type; ParsedMessage.data := data |})
      end
  end.

(** The body of the [try] block: the logger calls made, and the value
    returned or the exception thrown. *)
Definition parseMessage_try (message : string)
  : list LogEntry * completion (option ParsedMessage.t) :=
  match parseJSON (Some (JStr message)) with
  | Throw e => ([], Throw e)
  | Normal messageEventJSON =>
      match get_prop messageEventJSON "event" with
      | Throw e => ([], Throw e)
      | Normal event =>
          if is_case event "App\Events\ChatMessageEvent" then
            ([], decoded "ChatMessage" messageEventJSON)
          else if is_case event "App\Events\SubscriptionEvent" then
            ([], decoded "Subscription" messageEventJSON)
          else if is_case event "App\Events\GiftedSubscriptionsEvent" then
            ([], decoded "GiftedSubscriptions" messageEventJSON)
          else if is_case event "App\Events\StreamHostEvent" then
            ([], decoded "StreamHost" messageEventJSON)
          else if is_case event "App\Events\MessageDeletedEvent" then
            ([], decoded "MessageDeleted" messageEventJSON)
          else if is_case event "App\Events\UserBannedEvent" then
            ([], decoded "UserBanned" messageEventJSON)
          else if is_case event "App\Events\UserUnbannedEvent" then
            ([], decoded "UserUnbanned" messageEventJSON)
          else if is_case event "App\Events\PinnedMessageCreatedEvent" then
            ([], decoded "PinnedMessageCreated" messageEventJSON)
          else if is_case event "App\Events\PinnedMessageDeletedEvent" then
            ([], decoded "PinnedMessageDeleted" messageEventJSON)
          else if is_case event "App\Events\PollUpdateEvent" then
            ([], decoded "PollUpdate" messageEventJSON)
          else if is_case event "App\Events\PollDeleteEvent" then
            ([], decoded "PollDelete" messageEventJSON)
          else if is_case event "pusher:connection_established" then
            ([(LDebug, "Pusher connection established")],
             decoded "PusherConnectionEstablished" messageEventJSON)
          else if is_case event "pusher_internal:subscription_succeeded" then
            ([(LDebug, "Pusher subscription succeeded")],
             decoded "PusherSubscriptionSucceeded" messageEventJSON)
          else if is_case event "pusher:pong" then
            ([(LDebug, "Pusher pong received")],
             decoded "PusherPong" messageEventJSON)
          else if is_case event "pusher:ping" then
            ([(LDebug, "Pusher ping received")],
             decoded "PusherPing" messageEventJSON)
          else if is_case event "pusher:error" then
            ([(LWarn, "Pusher error:")],
             decoded "PusherError" messageEventJSON)
          else
            ([(LDebug, "Unknown event type:")], Normal None)
      end
  end.

(** [parseMessage]: the [catch] clause logs and returns [null]. *)
Definition parseMessage (message : string)
  : list LogEntry * completion (option ParsedMessage.t) :=
  match parseMessage_try message with
  | (logs, Normal parsed) => (logs, Normal parsed)
  | (logs, Throw _) => (logs ++ [(LError, "Error parsing message:")], Normal None)
  end.

End Decoder.

(** ** The client: [client/client.ts] and [types/client.ts] *)

Module ConnectionState.
Inductive t : Type := DISCONNECTED | CONNECTING | CONNECTED | RECONNECTING | ERROR.
#[global] Instance eq_dec : EqDecision t.
Proof. solve_decision. Defined.
End ConnectionState.

Module ErrorType.
Inductive t : Type := CONNECTION | WEBSOCKET | VALIDATION.
End ErrorType.

Module KickError.
(** [code] is never given by the client; [context] is
    [{ channelName, connectionState }] at the time [createError] runs. *)
Record t : Type := {
  type : ErrorType.t;
  message : string;
  originalError : exn;
  context : string * ConnectionState.t
}.
End KickError.

(** The transport: a [ws] socket as the client sees it.  [ownListeners] is
    false once [removeAllListeners()] was called on the socket; [call] is the
    call of [connect] whose [resolve] and [reject] the handlers close over. *)
Module WebSocket.
Inductive ReadyState : Type := CONNECTING | OPEN | CLOSING | CLOSED.
#[global] Instance eq_dec : EqDecision ReadyState.
Proof. solve_decision. Defined.
Record t : Type := {
  readyState : ReadyState;
  ownListeners : bool;
  call : nat;
  chatroomId : Z
}.
End WebSocket.

(** An optional property of an options object: the key may be missing, and a
    key that is there may hold [undefined] ([Present None]). *)
Inductive prop (T : Type) : Type :=
| Missing
| Present (v : option T).
Arguments Missing {T}.
Arguments Present {T} v.

Module ConnectionOptions.
Record t : Type := {
  autoReconnect : prop bool;
  maxReconnectAttempts : prop Z;
  reconnectInterval : prop Z;
  maxReconnectInterval : prop Z;
  heartbeatInterval : prop Z
}.
End ConnectionOptions.

(** ** The socket factory: [core/websocket.ts]

    [createWebSocket] up to the base URL of the socket, the URL before the
    query string: the defaults of the configuration, the app key and
    [baseUrl].  The constructor of the socket, which the factory calls on
    that URL, is a parameter of the client below. *)

Module WebSocketConfig.
Record t : Type := {
  pusherUrl : option string;
  pusherAppKey : option string
}.
End WebSocketConfig.

Definition DEFAULT_BASE_URL : string :=
  "wss://ws-us2.pusher.com/app/32cbd69e4b950bf97679".
Definition DEFAULT_PUSHER_APP_KEY : string := "32cbd69e4b950bf97679".

(** [s.includes(p)] *)
Fixpoint includes (p s : string) : bool :=
  match strip_prefix p s with
  | Some _ => true
  | None =>
      match s with
      | String _ rest => includes p rest
      | EmptyString => false
      end
  end.

Definition not_question (c : ascii) : bool := negb (Ascii.eqb c "?").

(** [urlMatch[1]] of [pusherUrl.match(/\/app\/([^?]+)/)]: the characters up
    to the next question mark after the first [/app/] that is followed by
    one. *)
Fixpoint match_app_key (s : string) : option string :=
  let here :=
    match strip_prefix "/app/" s with
    | Some r =>
        match take_while not_question r with
        | (String c key, _) => Some (String c key)
        | (EmptyString, _) => None
        end
    | None => None
    end in
  match here with
  | Some key => Some key
  | None =>
      match s with
      | String _ rest => match_app_key rest
      | EmptyString => None
      end
  end.

(** [s.replace(/\/$/, '')] *)
Fixpoint strip_trailing_slash (s : string) : string :=
  match s with
  | EmptyString => EmptyString
  | String c EmptyString => if Ascii.eqb c "/" then EmptyString else s
  | String c rest => String c (strip_trailing_slash rest)
  end.

Definition baseUrl (config : WebSocketConfig.t) : string :=
  let pusherUrl := default DEFAULT_BASE_URL (WebSocketConfig.pusherUrl config) in
  let appKey :=
    match WebSocketConfig.pusherAppKey config with
    | Some (String c key) => String c key
    | _ =>
        match match_app_key pusherUrl with
        | Some key => key
        | None => DEFAULT_PUSHER_APP_KEY
        end
    end in
  if includes "/app/" pusherUrl then pusherUrl
  else strip_trailing_slash pusherUrl +:+ "/app/" +:+ appKey.

(** The options the lifecycle reads.  [onError] and
    [onConnectionStateChange] say whether the callback was given: a call of
    it is recorded in the trace.  These callbacks and the logger are
    observers: they return normally and do not call the client from inside
    a handler.  A property of a handler that a callback which throws or
    calls [disconnect] from inside it would break is stated for the runs
    in which the handler calls no such callback: with no
    [onConnectionStateChange], or from the state the handler sets. *)
Record ClientOptions : Type := {
  plainEmote : bool;
  readOnly : bool;
  connection : option ConnectionOptions.t;
  websocket : option WebSocketConfig.t;
  onError : bool;
  onConnectionStateChange : bool
}.

(** A callback given to [on] or [once]: its identity, and whether a call of
    it throws.  The calls a callback makes to the client are events of their
    own, handled after the handler that invoked it. *)
Record Listener : Type := { lid : nat; raises : bool }.

(** What [emitter.emit] passes on. *)
Inductive Payload : Type :=
| ReadyArg (channelInfo : option (Z * string))
| NoArg
| ErrorArg (kickError : KickError.t)
| DataArg (data : json).

(** An entry of the listener array of the emitter, in the order of
    registration. *)
Record Registration : Type := {
  reg_event : string;
  reg_listener : Listener;
  reg_once : bool
}.

(** Who called [connect]: the application, or the callback of the
    reconnection timer. *)
Inductive Caller : Type := ByUser | ByReconnectTimer.

Inductive Settlement : Type :=
| Resolved
| Rejected (kickError : KickError.t).

(** The promise of one call of [connect]: whether its channel lookup is in
    flight, how it settled, and whether the [catch] clause of the
    reconnection timer has run for it. *)
Record ConnectCall : Type := {
  caller : Caller;
  fetching : bool;
  settled : option Settlement;
  caught : bool
}.

(** What the client does to the world, in order.  A logger call keeps the
    text of its message, without the values interpolated into it. *)
Inductive Effect : Type :=
| Logged (level : LogLevel) (msg : string)
| StateChangeCallback (newState : ConnectionState.t)
| ErrorCallback (error : KickError.t)
| Invoked (listener : nat) (event : string) (arg : Payload)
| ConnectCalled (call : nat) (by_ : Caller)
| Fetch (call : nat)
| NewWebSocket (sock : nat) (chatroomId : Z)
| Send (sock : nat)
| Ping (sock : nat)
| Close (sock : nat)
| SetTimeout (timer : nat) (delay : Z)
| ClearTimeout (timer : nat)
| SetInterval (timer : nat) (ms : Z)
| ClearInterval (timer : nat)
| Resolve (call : nat)
| Reject (call : nat) (kickError : KickError.t)
| Uncaught (e : exn).

Record Client : Type := {
  (* the variables of the closure of createClient *)
  socket : option nat;
  channelInfo : option (Z * string);
  connectionState : ConnectionState.t;
  reconnectAttempts : nat;
  reconnectTimer : option nat;
  heartbeatTimer : option nat;
  isDisconnected : bool;
  listeners : gmap string (gset nat);
  onceListeners : gmap string (gset nat);
  emitter : list Registration;
  (* the runtime around it: every WebSocket created so far, by handle; the
     delay of every timeout set so far, while it is pending; which of the
     intervals set so far are active; the promise of every call of connect;
     and what the client did, in order *)
  sockets : list WebSocket.t;
  timeouts : list (option Z);
  intervals : list bool;
  promises : list ConnectCall;
  trace : list Effect
}.

(** Assignments to one variable. *)
Definition set_socket (v : option nat) (st : Client) : Client :=
  {| socket := v; channelInfo := channelInfo st;
     connectionState := connectionState st;
     reconnectAttempts := reconnectAttempts st;
     reconnectTimer := reconnectTimer st;
     heartbeatTimer := heartbeatTimer st;
     isDisconnected := isDisconnected st; listeners := listeners st;
     onceListeners := onceListeners st; emitter := emitter st;
     sockets := sockets st; timeouts := timeouts st;
     intervals := intervals st; promises := promises st; trace := trace st
     |}.

Definition set_channelInfo (v : option (Z * string)) (st : Client) : Client :=
  {| socket := socket st; channelInfo := v;
     connectionState := connectionState st;
     reconnectAttempts := reconnectAttempts st;
     reconnectTimer := reconnectTimer st;
     heartbeatTimer := heartbeatTimer st;
     isDisconnected := isDisconnected st; listeners := listeners st;
     onceListeners := onceListeners st; emitter := emitter st;
     sockets := sockets st; timeouts := timeouts st;
     intervals := intervals st; promises := promises st; trace := trace st
     |}.

Definition set_connectionState (v : ConnectionState.t) (st : Client) : Client :=
  {| socket := socket st; channelInfo := channelInfo st;
     connectionState := v; reconnectAttempts := reconnectAttempts st;
     reconnectTimer := reconnectTimer st;
     heartbeatTimer := heartbeatTimer st;
     isDisconnected := isDisconnected st; listeners := listeners st;
     onceListeners := onceListeners st; emitter := emitter st;
     sockets := sockets st; timeouts := timeouts st;
     intervals := intervals st; promises := promises st; trace := trace st
     |}.

Definition set_reconnectAttempts (v : nat) (st : Client) : Client :=
  {| socket := socket st; channelInfo := channelInfo st;
     connectionState := connectionState st; reconnectAttempts := v;
     reconnectTimer := reconnectTimer st;
     heartbeatTimer := heartbeatTimer st;
     isDisconnected := isDisconnected st; listeners := listeners st;
     onceListeners := onceListeners st; emitter := emitter st;
     sockets := sockets st; timeouts := timeouts st;
     intervals := intervals st; promises := promises st; trace := trace st
     |}.

Definition set_reconnectTimer (v : option nat) (st : Client) : Client :=
  {| socket := socket st; channelInfo := channelInfo st;
     connectionState := connectionState st;
     reconnectAttempts := reconnectAttempts st; reconnectTimer := v;
     heartbeatTimer := heartbeatTimer st;
     isDisconnected := isDisconnected st; listeners := listeners st;
     onceListeners := onceListeners st; emitter := emitter st;
     sockets := sockets st; timeouts := timeouts st;
     intervals := intervals st; promises := promises st; trace := trace st
     |}.

Definition set_heartbeatTimer (v : option nat) (st : Client) : Client :=
  {| socket := socket st; channelInfo := channelInfo st;
     connectionState := connectionState st;
     reconnectAttempts := reconnectAttempts st;
     reconnectTimer := reconnectTimer st; heartbeatTimer := v;
     isDisconnected := isDisconnected st; listeners := listeners st;
     onceListeners := onceListeners st; emitter := emitter st;
     sockets := sockets st; timeouts := timeouts st;
     intervals := intervals st; promises := promises st; trace := trace st
     |}.

Definition set_isDisconnected (v : bool) (st : Client) : Client :=
  {| socket := socket st; channelInfo := channelInfo st;
     connectionState := connectionState st;
     reconnectAttempts := reconnectAttempts st;
     reconnectTimer := reconnectTimer st;
     heartbeatTimer := heartbeatTimer st; isDisconnected := v;
     listeners := listeners st; onceListeners := onceListeners st;
     emitter := emitter st; sockets := sockets st; timeouts := timeouts st;
     intervals := intervals st; promises := promises st; trace := trace st
     |}.

Definition set_listeners (v : gmap string (gset nat)) (st : Client) : Client :=
  {| socket := socket st; channelInfo := channelInfo st;
     connectionState := connectionState st;
     reconnectAttempts := reconnectAttempts st;
     reconnectTimer := reconnectTimer st;
     heartbeatTimer := heartbeatTimer st;
     isDisconnected := isDisconnected st; listeners := v;
     onceListeners := onceListeners st; emitter := emitter st;
     sockets := sockets st; timeouts := timeouts st;
     intervals := intervals st; promises := promises st; trace := trace st
     |}.

Definition set_onceListeners (v : gmap string (gset nat)) (st : Client) : Client :=
  {| socket := socket st; channelInfo := channelInfo st;
     connectionState := connectionState st;
     reconnectAttempts := reconnectAttempts st;
     reconnectTimer := reconnectTimer st;
     heartbeatTimer := heartbeatTimer st;
     isDisconnected := isDisconnected st; listeners := listeners st;
     onceListeners := v; emitter := emitter st; sockets := sockets st;
     timeouts := timeouts st; intervals := intervals st;
     promises := promises st; trace := trace st |}.

Definition set_emitter (v : list Registration) (st : Client) : Client :=
  {| socket := socket st; channelInfo := channelInfo st;
     connectionState := connectionState st;
     reconnectAttempts := reconnectAttempts st;
     reconnectTimer := reconnectTimer st;
     heartbeatTimer := heartbeatTimer st;
     isDisconnected := isDisconnected st; listeners := listeners st;
     onceListeners := onceListeners st; emitter := v; sockets := sockets st;
     timeouts := timeouts st; intervals := intervals st;
     promises := promises st; trace := trace st |}.

Definition set_sockets (v : list WebSocket.t) (st : Client) : Client :=
  {| socket := socket st; channelInfo := channelInfo st;
     connectionState := connectionState st;
     reconnectAttempts := reconnectAttempts st;
     reconnectTimer := reconnectTimer st;
     heartbeatTimer := heartbeatTimer st;
     isDisconnected := isDisconnected st; listeners := listeners st;
     onceListeners := onceListeners st; emitter := emitter st; sockets := v;
     timeouts := timeouts st; intervals := intervals st;
     promises := promises st; trace := trace st |}.

Definition set_timeouts (v : list (option Z)) (st : Client) : Client :=
  {| socket := socket st; channelInfo := channelInfo st;
     connectionState := connectionState st;
     reconnectAttempts := reconnectAttempts st;
     reconnectTimer := reconnectTimer st;
     heartbeatTimer := heartbeatTimer st;
     isDisconnected := isDisconnected st; listeners := listeners st;
     onceListeners := onceListeners st; emitter := emitter st;
     sockets := sockets st; timeouts := v; intervals := intervals st;
     promises := promises st; trace := trace st |}.

Definition set_intervals (v : list bool) (st : Client) : Client :=
  {| socket := socket st; channelInfo := channelInfo st;
     connectionState := connectionState st;
     reconnectAttempts := reconnectAttempts st;
     reconnectTimer := reconnectTimer st;
     heartbeatTimer := heartbeatTimer st;
     isDisconnected := isDisconnected st; listeners := listeners st;
     onceListeners := onceListeners st; emitter := emitter st;
     sockets := sockets st; timeouts := timeouts st; intervals := v;
     promises := promises st; trace := trace st |}.

Definition set_promises (v : list ConnectCall) (st : Client) : Client :=
  {| socket := socket st; channelInfo := channelInfo st;
     connectionState := connectionState st;
     reconnectAttempts := reconnectAttempts st;
     reconnectTimer := reconnectTimer st;
     heartbeatTimer := heartbeatTimer st;
     isDisconnected := isDisconnected st; listeners := listeners st;
     onceListeners := onceListeners st; emitter := emitter st;
     sockets := sockets st; timeouts := timeouts st;
     intervals := intervals st; promises := v; trace := trace st |}.

Definition set_trace (v : list Effect) (st : Client) : Client :=
  {| socket := socket st; channelInfo := channelInfo st;
     connectionState := connectionState st;
     reconnectAttempts := reconnectAttempts st;
     reconnectTimer := reconnectTimer st;
     heartbeatTimer := heartbeatTimer st;
     isDisconnected := isDisconnected st; listeners := listeners st;
     onceListeners := onceListeners st; emitter := emitter st;
     sockets := sockets st; timeouts := timeouts st;
     intervals := intervals st; promises := promises st; trace := v |}.

(** ** Statements of the closure: state and exceptions

    A statement runs on the state of the client and completes normally or
    by a [throw]; what it changed before the [throw] stays changed. *)

Definition M (A : Type) : Type := Client -> completion A * Client.

#[global] Instance M_ret : MRet M := fun A a st => (Normal a, st).

#[global] Instance M_bind : MBind M := fun A B f m st =>
  match m st with
  | (Normal a, st') => f a st'
  | (Throw e, st') => (Throw e, st')
  end.

Definition get_state : M Client := fun st => (Normal st, st).

Definition modify (f : Client -> Client) : M unit := fun st => (Normal tt, f st).

Definition throw {A : Type} (e : exn) : M A := fun st => (Throw e, st).

Definition lift {A : Type} (c : completion A) : M A := fun st => (c, st).

(** [try { m } catch (error) { h error }] *)
Definition try_catch {A : Type} (m : M A) (h : exn -> M A) : M A := fun st =>
  match m st with
  | (Normal a, st') => (Normal a, st')
  | (Throw e, st') => h e st'
  end.

Definition effect (e : Effect) : M unit :=
  modify (fun st => set_trace (trace st ++ [e]) st).

Definition logger (level : LogLevel) (msg : string) : M unit :=
  effect (Logged level msg).

Fixpoint log_all (entries : list LogEntry) : M unit :=
  match entries with
  | [] => mret tt
  | (level, msg) :: rest => logger level msg;; log_all rest
  end.

(** ** Timers and promises of the runtime *)

Definition setTimeout (delay : Z) : M nat :=
  st ← get_state;
  let timer := length (timeouts st) in
  modify (set_timeouts (timeouts st ++ [Some delay]));;
  effect (SetTimeout timer delay);;
  mret timer.

Definition clearTimeout (timer : nat) : M unit :=
  modify (fun st => set_timeouts (<[timer := None]> (timeouts st)) st);;
  effect (ClearTimeout timer).

Definition setInterval (ms : Z) : M nat :=
  st ← get_state;
  let timer := length (intervals st) in
  modify (set_intervals (intervals st ++ [true]));;
  effect (SetInterval timer ms);;
  mret timer.

Definition clearInterval (timer : nat) : M unit :=
  modify (fun st => set_intervals (<[timer := false]> (intervals st)) st);;
  effect (ClearInterval timer).

(** [resolve()] and [reject(kickError)] of the promise of a call of
    [connect]: a settled promise stays as it is. *)
Definition settle (call : nat) (s : Settlement) : M unit :=
  st ← get_state;
  match promises st !! call with
  | Some p =>
      match settled p with
      | None =>
          modify (set_promises
                    (<[call := {| caller := caller p; fetching := fetching p;
                                  settled := Some s; caught := caught p |}]>
                       (promises st)));;
          effect (match s with
                  | Resolved => Resolve call
                  | Rejected kickError => Reject call kickError
                  end)
      | Some _ => mret tt
      end
  | None => mret tt
  end.

(** ** Truthiness of option values *)

Definition truthy (v : option Z) : bool :=
  match v with
  | Some n => negb (n =? 0)%Z
  | None => false
  end.

(** [v || d] *)
Definition or_else (v : option Z) (d : Z) : Z :=
  if truthy v then default d v else d.

(** ** The listener array of the emitter *)

Definition same_listener (a b : Listener) : bool := (lid a =? lid b)%nat.

Fixpoint remove_first (p : Registration -> bool) (regs : list Registration)
  : list Registration :=
  match regs with
  | [] => []
  | r :: rest => if p r then rest else r :: remove_first p rest
  end.

(** [emitter.removeListener(event, listener)] removes the most recent
    registration of [listener] itself.  A registration made by [once] holds a
    wrapper and is not found. *)
Definition emitter_removeListener (event : string) (listener : Listener)
  (regs : list Registration) : list Registration :=
  rev (remove_first
         (fun r => String.eqb (reg_event r) event
                   && negb (reg_once r)
                   && same_listener (reg_listener r) listener)
         (rev regs)).

(** The wrapper of a one-shot registration takes itself off the array. *)
Definition emitter_removeOnce (event : string) (listener : Listener)
  (regs : list Registration) : list Registration :=
  remove_first
    (fun r => String.eqb (reg_event r) event
              && reg_once r
              && same_listener (reg_listener r) listener)
    regs.

Definition registrations_of (event : string) (regs : list Registration)
  : list Registration :=
  filter (fun r => reg_event r = event) regs.

(** ** Configurations, listeners and frames of the examples *)

(** [createClient(channelName, { onError, onConnectionStateChange })] *)
Definition plain_options : ClientOptions :=
  {| plainEmote := false; readOnly := false; connection := None;
     websocket := None; onError := true; onConnectionStateChange := true |}.


(** [{ connection: { maxReconnectAttempts: 0 } }] *)
Definition no_retries : ClientOptions :=
  {| plainEmote := false; readOnly := false;
     connection :=
       Some {| ConnectionOptions.autoReconnect := Missing;
               ConnectionOptions.maxReconnectAttempts := Present (Some 0%Z);
               ConnectionOptions.reconnectInterval := Missing;
               ConnectionOptions.maxReconnectInterval := Missing;
               ConnectionOptions.heartbeatInterval := Missing |};
     websocket := None; onError := true; onConnectionStateChange := true |}.

(** [createClient(channelName, {})]: no callback is given. *)
Definition no_callbacks : ClientOptions :=
  {| plainEmote := false; readOnly := false; connection := None;
     websocket := None; onError := false; onConnectionStateChange := false |}.

(** [{ websocket: { pusherUrl: "example.com/app/key" } }]: a URL without a
    protocol. *)
Definition no_protocol : ClientOptions :=
  {| plainEmote := false; readOnly := false; connection := None;
     websocket :=
       Some {| WebSocketConfig.pusherUrl := Some "example.com/app/key";
               WebSocketConfig.pusherAppKey := None |};
     onError := false; onConnectionStateChange := false |}.

(** The type of the constructor of a socket, [new WebSocket(url, ...)]: on
    a URL it returns a socket or throws. *)
Definition WebSocketConstructor : Type := string -> completion unit.

(** A constructor of the examples: it takes the URLs of the two WebSocket
    protocols and throws on any other. *)
Definition ws_constructor : WebSocketConstructor := fun url =>
  match strip_prefix "wss://" url, strip_prefix "ws://" url with
  | None, None => Throw SyntaxError
  | _, _ => Normal tt
  end.

Definition raising_listener : Listener := {| lid := 1; raises := true |}.
Definition quiet_listener : Listener := {| lid := 2; raises := false |}.
Definition error_listener : Listener := {| lid := 3; raises := false |}.

(** The text [{"content":"hi"}], the chat-message frame that carries it, a
    frame with a tag of the future, and a frame that is not JSON. *)
Definition chat_text : string :=
  "{" +:+ RefJSON.quoted "content" +:+ ":" +:+ RefJSON.quoted "hi" +:+ "}".
Definition chat_payload : json := JObj [("content", JStr "hi")].
Definition chat_frame : string :=
  RefJSON.frame "App\Events\ChatMessageEvent" chat_text.
Definition future_frame : string := RefJSON.frame "App\Events\FutureEvent" "{}".
Definition garbage_frame : string := "not json".

(** The kinds of the Pusher protocol: the handler of [message] in
    [client/client.ts] logs them and dispatches every other kind. *)
Definition is_pusher_kind (kind : string) : bool :=
  String.eqb kind "PusherConnectionEstablished"
  || String.eqb kind "PusherSubscriptionSucceeded"
  || String.eqb kind "PusherPong"
  || String.eqb kind "PusherPing"
  || String.eqb kind "PusherError".

(** The calls of callbacks of [on] and [once] among the effects. *)
Definition invocations (effects : list Effect) : list Effect :=
  List.filter (fun e => match e with Invoked _ _ _ => true | _ => false end)
    effects.

(** Every character of [s] is in the class [p]. *)
Fixpoint string_forall (p : ascii -> bool) (s : string) : bool :=
  match s with
  | EmptyString => true
  | String c rest => p c && string_forall p rest
  end.

(** A character other than the opening bracket of the emote markup. *)
Definition not_bracket (c : ascii) : bool := negb (Ascii.eqb "[" c).

(** The states passed to [onConnectionStateChange], in order. *)
Definition state_changes (effects : list Effect) : list ConnectionState.t :=
  omap (fun e => match e with
                 | StateChangeCallback newState => Some newState
                 | _ => None
                 end) effects.

(** ** Further configurations and frames of the examples *)

(** [createClient(channelName, { plainEmote: true, onError,
    onConnectionStateChange })] *)
Definition emote_options : ClientOptions :=
  {| plainEmote := true; readOnly := false; connection := None;
     websocket := None; onError := true; onConnectionStateChange := true |}.

(** The text [{"content":"hi [emote:37226:KEKW]!"}] and the chat-message
    frame that carries it; chat-message frames with the payloads [{}] and
    [not json]; a Pusher pong. *)
Definition emote_text : string :=
  "{" +:+ RefJSON.quoted "content" +:+ ":"
  +:+ RefJSON.quoted "hi [emote:37226:KEKW]!" +:+ "}".
Definition emote_frame : string :=
  RefJSON.frame "App\Events\ChatMessageEvent" emote_text.
Definition empty_chat_frame : string :=
  RefJSON.frame "App\Events\ChatMessageEvent" "{}".
Definition broken_chat_frame : string :=
  RefJSON.frame "App\Events\ChatMessageEvent" "not json".
Definition pong_frame : string := RefJSON.frame "pusher:pong" "{}".

(** The registrations [on] makes for the listeners of the examples. *)
Definition registered (event : string) (listener : Listener) : Registration :=
  {| reg_event := event; reg_listener := listener; reg_once := false |}.

(** ** [createClient (channelName, options)] *)

Section Client.

Variable parseJSON : jsval -> completion json.
Variable channelName : string.
Variable options : ClientOptions.

(** [new WebSocket(url, socketOptions)] of the [ws] library, which is not
    among the sources: on the URL that [createWebSocket] builds on a base
    URL, the constructor returns a socket or throws (an address that is not
    a URL, a protocol that is not a WebSocket protocol, a fragment). *)
Variable new_WebSocket : WebSocketConstructor.

(** [mergedOptions.connection = { ...defaultConnectionOptions,
    ...options.connection }]: a key of [options.connection] wins over the
    default, also when it holds [undefined]. *)
Definition merged {T : Type} (own : ConnectionOptions.t -> prop T) (dflt : T)
  : option T :=
  match connection options with
  | None => Some dflt
  | Some c =>
      match own c with
      | Missing => Some dflt
      | Present v => v
      end
  end.

Definition autoReconnect : option bool :=
  merged ConnectionOptions.autoReconnect true.
Definition maxReconnectAttempts : option Z :=
  merged ConnectionOptions.maxReconnectAttempts 10%Z.
Definition reconnectInterval : option Z :=
  merged ConnectionOptions.reconnectInterval 1000%Z.
Definition maxReconnectInterval : option Z :=
  merged ConnectionOptions.maxReconnectInterval 30000%Z.
Definition heartbeatInterval : option Z :=
  merged ConnectionOptions.heartbeatInterval 30000%Z.

Definition createError (type : ErrorType.t) (message : string)
  (originalError : exn) : M KickError.t :=
  st ← get_state;
  mret {| KickError.type := type;
          KickError.message := message;
          KickError.originalError := originalError;
          KickError.context := (channelName, connectionState st) |}.

Definition handleError (error : KickError.t) : M unit :=
  logger LError "KickClient Error";;
  if onError options then effect (ErrorCallback error) else mret tt.

Definition setConnectionState (newState : ConnectionState.t) : M unit :=
  st ← get_state;
  if bool_decide (connectionState st = newState) then mret tt
  else
    modify (set_connectionState newState);;
    logger LInfo "Connection state changed to:";;
    if onConnectionStateChange options
    then effect (StateChangeCallback newState)
    else mret tt.

(** *** Listener registry *)

Definition addListener (event : string) (listener : Listener) (once : bool)
  : M unit :=
  modify (fun st =>
    let add m :=
      <[event := default ∅ (m !! event) ∪ {[lid listener]}]> m in
    if once
    then set_onceListeners (add (onceListeners st)) st
    else set_listeners (add (listeners st)) st);;
  modify (fun st =>
    set_emitter
      (emitter st ++ [{| reg_event := event; reg_listener := listener;
                         reg_once := once |}]) st).

Definition removeListener (event : string) (listener : Listener) : M unit :=
  modify (fun st =>
    set_listeners (alter (fun s => s ∖ {[lid listener]}) event (listeners st)) st);;
  modify (fun st =>
    set_onceListeners
      (alter (fun s => s ∖ {[lid listener]}) event (onceListeners st)) st);;
  modify (fun st =>
    set_emitter (emitter_removeListener event listener (emitter st)) st).

(** [if (event)]: the empty string is falsy, like a missing argument. *)
Definition removeAllListeners (event : option string) : M unit :=
  match event with
  | Some (String c s as event) =>
      modify (fun st => set_listeners (alter (fun _ => ∅) event (listeners st)) st);;
      modify (fun st =>
        set_onceListeners (alter (fun _ => ∅) event (onceListeners st)) st);;
      modify (fun st =>
        set_emitter (filter (fun r => reg_event r ≠ event) (emitter st)) st)
  | _ =>
      modify (set_listeners ∅);;
      modify (set_onceListeners ∅);;
      modify (set_emitter [])
  end.

(** One listener of the array copied by [emit]: a one-shot wrapper first
    takes itself off the emitter and calls [removeListener]; then the
    callback runs, and may throw. *)
Definition invoke (event : string) (arg : Payload) (r : Registration) : M unit :=
  (if reg_once r then
     modify (fun st =>
       set_emitter (emitter_removeOnce event (reg_listener r) (emitter st)) st);;
     removeListener event (reg_listener r)
   else mret tt);;
  effect (Invoked (lid (reg_listener r)) event arg);;
  if raises (reg_listener r)
  then throw (ListenerRaised (lid (reg_listener r)))
  else mret tt.

Fixpoint invoke_all (event : string) (arg : Payload) (regs : list Registration)
  : M unit :=
  match regs with
  | [] => mret tt
  | r :: rest => invoke event arg r;; invoke_all event arg rest
  end.

(** [emitter.emit(event, arg)]: the listeners registered at the time of the
    call run in order of registration, and an exception of one of them leaves
    [emit].  An [error] event without a listener throws. *)
Definition emit (event : string) (arg : Payload) : M bool :=
  st ← get_state;
  match registrations_of event (emitter st) with
  | [] =>
      if String.eqb event "error" then throw UnhandledErrorEvent
      else mret false
  | regs => invoke_all event arg regs;; mret true
  end.

(** *** Heartbeat *)

(** [socket && socket.readyState === WebSocket.OPEN] *)
Definition isConnected (st : Client) : bool :=
  match socket st with
  | Some sock =>
      match sockets st !! sock with
      | Some ws => bool_decide (WebSocket.readyState ws = WebSocket.OPEN)
      | None => false
      end
  | None => false
  end.

Definition startHeartbeat : M unit :=
  st ← get_state;
  if negb (truthy heartbeatInterval) || bool_decide (is_Some (heartbeatTimer st))
  then mret tt
  else
    timer ← setInterval (default 0%Z heartbeatInterval);
    modify (set_heartbeatTimer (Some timer)).

(** The callback of the heartbeat interval. *)
Definition heartbeat : M unit :=
  st ← get_state;
  match socket st with
  | Some sock =>
      if isConnected st then
        logger LDebug "Sending heartbeat ping";;
        effect (Ping sock)
      else mret tt
  | None => mret tt
  end.

Definition stopHeartbeat : M unit :=
  st ← get_state;
  match heartbeatTimer st with
  | Some timer => clearInterval timer;; modify (set_heartbeatTimer None)
  | None => mret tt
  end.

(** *** Reconnection scheduler *)

(** [Math.min(baseInterval * Math.pow(2, reconnectAttempts), maxInterval)],
    on integer intervals. *)
Definition exponentialDelay (reconnectAttempts : nat) : Z :=
  let baseInterval := or_else reconnectInterval 1000 in
  let maxInterval := or_else maxReconnectInterval 30000 in
  Z.min (baseInterval * 2 ^ Z.of_nat reconnectAttempts) maxInterval.

Definition scheduleReconnect : M unit :=
  st ← get_state;
  if negb (default false autoReconnect)
     || (or_else maxReconnectAttempts 10 <=? Z.of_nat (reconnectAttempts st))%Z
     || isDisconnected st
  then logger LWarn "Reconnection disabled or max attempts reached"
  else
    logger LInfo "Scheduling reconnection attempt";;
    timer ← setTimeout (exponentialDelay (reconnectAttempts st));
    modify (set_reconnectTimer (Some timer)).

(** *** [connect]

    The executor of the promise runs up to [await fetch(...)]; the rest of
    it, [connect_resume], runs when the lookup has completed.  Between
    [await fetch(...)] and [await channelData.json()] the executor touches
    no variable of the client, so the two are one completion here;
    a socket that [createWebSocket] returns is in the ready state
    [CONNECTING]. *)
Definition connect (by_ : Caller) : M unit :=
  st ← get_state;
  let call := length (promises st) in
  effect (ConnectCalled call by_);;
  modify (set_promises
            (promises st ++ [{| caller := by_; fetching := false;
                                settled := None; caught := false |}]));;
  if isConnected st then
    logger LDebug "Already connected to WebSocket";;
    settle call Resolved
  else
    logger LInfo "Connecting to channel:";;
    setConnectionState ConnectionState.CONNECTING;;
    modify (fun st =>
      set_promises
        (<[call := {| caller := by_; fetching := true;
                      settled := None; caught := false |}]> (promises st)) st);;
    effect (Fetch call).

(** [createWebSocket({ chatroomId, config: mergedOptions.websocket })] up to
    the constructor: whether the socket is made, or the constructor
    throws. *)
Definition createWebSocket : completion unit :=
  new_WebSocket
    (baseUrl (default {| WebSocketConfig.pusherUrl := None;
                         WebSocketConfig.pusherAppKey := None |}
                (websocket options))).

(** [chatroomId] is [channelJson.chatroom?.id] of a response that is [ok],
    and [None] when the request failed, the response is not [ok] or its body
    is not JSON.  A falsy id is refused.  The channel identity is assigned
    before the socket is made, inside the [try]. *)
Definition connect_resume (call : nat) (chatroomId : option Z) : M unit :=
  try_catch
    (match chatroomId with
     | None => throw FetchFailed
     | Some id =>
         if (id =? 0)%Z then throw FetchFailed
         else
           logger LInfo "Found chatroom ID";;
           modify (set_channelInfo (Some (id, channelName)));;
           lift createWebSocket;;
           st ← get_state;
           let sock := length (sockets st) in
           modify (set_sockets
                     (sockets st ++
                        [{| WebSocket.readyState := WebSocket.CONNECTING;
                            WebSocket.ownListeners := true;
                            WebSocket.call := call;
                            WebSocket.chatroomId := id |}]));;
           effect (NewWebSocket sock id);;
           modify (set_socket (Some sock))
     end)
    (fun error =>
       setConnectionState ConnectionState.ERROR;;
       kickError ← createError ErrorType.CONNECTION
                     "Failed to create WebSocket connection" error;
       handleError kickError;;
       settle call (Rejected kickError)).

(** *** The handlers [connect] installs on the socket *)

Definition on_open (call : nat) : M unit :=
  st ← get_state;
  if isDisconnected st then
    logger LDebug "Connection opened but client is disconnected, ignoring"
  else
    logger LInfo "Connected to channel:";;
    setConnectionState ConnectionState.CONNECTED;;
    modify (set_reconnectAttempts 0);;
    startHeartbeat;;
    st ← get_state;
    emit "ready" (ReadyArg (channelInfo st));;
    settle call Resolved.

Definition on_message (frame : string) : M unit :=
  st ← get_state;
  if isDisconnected st then mret tt
  else
    try_catch
      (let '(logs, result) := parseMessage parseJSON frame in
       log_all logs;;
       parsedMessage ← lift result;
       match parsedMessage with
       | None => mret tt
       | Some {| ParsedMessage.type := type; ParsedMessage.data := data |} =>
           if String.eqb type "ChatMessage" then
             messageData ← (if plainEmote options
                            then lift (plainEmote_rewrite data)
                            else mret data);
             emit type (DataArg messageData);; mret tt
           else if String.eqb type "PusherConnectionEstablished" then
             logger LDebug "Pusher WebSocket connection established"
           else if String.eqb type "PusherSubscriptionSucceeded" then
             logger LDebug "Successfully subscribed to chat channel"
           else if String.eqb type "PusherPong" then
             logger LDebug "Received Pusher pong"
           else if String.eqb type "PusherPing" then
             logger LDebug "Received Pusher ping"
           else if String.eqb type "PusherError" then
             logger LError "Pusher error:"
           else
             emit type (DataArg data);; mret tt
       end)
      (fun error =>
         kickError ← createError ErrorType.WEBSOCKET
                       "Failed to parse WebSocket message" error;
         handleError kickError).

Definition on_close : M unit :=
  stopHeartbeat;;
  st ← get_state;
  if isDisconnected st then mret tt
  else
    logger LWarn "Connection closed for channel:";;
    setConnectionState ConnectionState.DISCONNECTED;;
    emit "disconnect" NoArg;;
    scheduleReconnect.

Definition on_error (call : nat) : M unit :=
  stopHeartbeat;;
  setConnectionState ConnectionState.ERROR;;
  kickError ← createError ErrorType.WEBSOCKET
                "WebSocket connection error" TransportError;
  handleError kickError;;
  emit "error" (ErrorArg kickError);;
  settle call (Rejected kickError).

Definition on_pong : M unit := logger LDebug "Received heartbeat pong".

(** The callback of the reconnection timer, up to [await connect()], and its
    [catch] clause, which runs when that call of [connect] has rejected. *)
Definition reconnect : M unit :=
  modify (set_reconnectTimer None);;
  connect ByReconnectTimer.

Definition reconnect_catch : M unit :=
  logger LError "Reconnection attempt failed";;
  modify (fun st => set_reconnectAttempts (S (reconnectAttempts st)) st);;
  scheduleReconnect.

(** *** [disconnect] *)

Definition close_socket (sock : nat) : M unit :=
  st ← get_state;
  match sockets st !! sock with
  | Some ws =>
      (* socket.removeAllListeners() *)
      modify (fun st =>
        set_sockets
          (<[sock := {| WebSocket.readyState := WebSocket.readyState ws;
                        WebSocket.ownListeners := false;
                        WebSocket.call := WebSocket.call ws;
                        WebSocket.chatroomId := WebSocket.chatroomId ws |}]>
             (sockets st)) st);;
      if bool_decide (WebSocket.readyState ws = WebSocket.OPEN) then
        (* socket.close() *)
        modify (fun st =>
          set_sockets
            (<[sock := {| WebSocket.readyState := WebSocket.CLOSING;
                          WebSocket.ownListeners := false;
                          WebSocket.call := WebSocket.call ws;
                          WebSocket.chatroomId := WebSocket.chatroomId ws |}]>
               (sockets st)) st);;
        effect (Close sock)
      else mret tt
  | None => mret tt
  end.

Definition disconnect : M unit :=
  logger LInfo "Disconnecting client...";;
  modify (set_isDisconnected true);;
  setConnectionState ConnectionState.DISCONNECTED;;
  st ← get_state;
  match reconnectTimer st with
  | Some timer => clearTimeout timer;; modify (set_reconnectTimer None)
  | None => mret tt
  end;;
  stopHeartbeat;;
  st ← get_state;
  match socket st with
  | Some sock => close_socket sock;; modify (set_socket None)
  | None => mret tt
  end;;
  removeAllListeners None;;
  modify (set_channelInfo None);;
  modify (set_reconnectAttempts 0);;
  logger LInfo "Client disconnected and cleaned up".

Definition getConnectionState (st : Client) : ConnectionState.t :=
  connectionState st.

Definition getChannel (st : Client) : option (Z * string) := channelInfo st.

(** ** The event loop

    One event is handled at a time: a call of the public interface, the
    completion of a channel lookup, an event of a socket, a timer that fires,
    or the rejection of the [connect] awaited by the reconnection timer. *)
Inductive Event : Type :=
| CallConnect
| CallDisconnect
| CallOn (event : string) (listener : Listener)
| CallOnce (event : string) (listener : Listener)
| CallOff (event : string) (listener : Listener)
| CallRemoveAllListeners (event : option string)
| FetchDone (call : nat) (chatroomId : option Z)
| SocketOpen (sock : nat)
| SocketMessage (sock : nat) (frame : string)
| SocketError (sock : nat)
| SocketClose (sock : nat)
| SocketPong (sock : nat)
| SocketClosing (sock : nat)
| TimeoutFires (timer : nat)
| IntervalFires (timer : nat)
| ReconnectRejected (call : nat).

(** A handler runs to its end or to an exception nobody catches. *)
Definition handle (m : M unit) (st : Client) : Client :=
  match m st with
  | (Normal _, st') => st'
  | (Throw e, st') => set_trace (trace st' ++ [Uncaught e]) st'
  end.

Definition set_readyState (sock : nat) (rs : WebSocket.ReadyState) (st : Client)
  : Client :=
  match sockets st !! sock with
  | Some ws =>
      set_sockets
        (<[sock := {| WebSocket.readyState := rs;
                      WebSocket.ownListeners := WebSocket.ownListeners ws;
                      WebSocket.call := WebSocket.call ws;
                      WebSocket.chatroomId := WebSocket.chatroomId ws |}]>
           (sockets st)) st
  | None => st
  end.

(** An event of the socket [sock], possible in the ready states [from]: the
    transport moves the socket to the ready state [to], then the listeners
    run if the socket still has them. *)
Definition socket_event (sock : nat) (from : WebSocket.ReadyState -> bool)
  (to : WebSocket.ReadyState -> WebSocket.ReadyState)
  (listener : WebSocket.t -> M unit) (st : Client) : option Client :=
  match sockets st !! sock with
  | Some ws =>
      if from (WebSocket.readyState ws) then
        let st' := set_readyState sock (to (WebSocket.readyState ws)) st in
        Some (if WebSocket.ownListeners ws then handle (listener ws) st' else st')
      else None
  | None => None
  end.

Definition is_state (rs : WebSocket.ReadyState) : WebSocket.ReadyState -> bool :=
  fun rs' => bool_decide (rs' = rs).

Definition not_closed (rs : WebSocket.ReadyState) : bool :=
  negb (bool_decide (rs = WebSocket.CLOSED)).

Definition step (ev : Event) (st : Client) : option Client :=
  match ev with
  | CallConnect => Some (handle (connect ByUser) st)
  | CallDisconnect => Some (handle disconnect st)
  | CallOn event listener => Some (handle (addListener event listener false) st)
  | CallOnce event listener => Some (handle (addListener event listener true) st)
  | CallOff event listener => Some (handle (removeListener event listener) st)
  | CallRemoveAllListeners event => Some (handle (removeAllListeners event) st)
  | FetchDone call chatroomId =>
      match promises st !! call with
      | Some p =>
          if fetching p then
            Some (handle (connect_resume call chatroomId)
                    (set_promises
                       (<[call := {| caller := caller p; fetching := false;
                                     settled := settled p;
                                     caught := caught p |}]> (promises st)) st))
          else None
      | None => None
      end
  | SocketOpen sock =>
      (* the listener of createWebSocket sends the subscription first *)
      socket_event sock (is_state WebSocket.CONNECTING) (fun _ => WebSocket.OPEN)
        (fun ws => effect (Send sock);; on_open (WebSocket.call ws)) st
  | SocketMessage sock frame =>
      socket_event sock (is_state WebSocket.OPEN) id (fun _ => on_message frame) st
  | SocketError sock =>
      socket_event sock not_closed (fun _ => WebSocket.CLOSING)
        (fun ws => on_error (WebSocket.call ws)) st
  | SocketClose sock =>
      socket_event sock not_closed (fun _ => WebSocket.CLOSED) (fun _ => on_close) st
  | SocketPong sock =>
      socket_event sock (is_state WebSocket.OPEN) id (fun _ => on_pong) st
  | SocketClosing sock =>
      socket_event sock (is_state WebSocket.OPEN) (fun _ => WebSocket.CLOSING)
        (fun _ => mret tt) st
  | TimeoutFires timer =>
      match timeouts st !! timer with
      | Some (Some _) =>
          Some (handle reconnect
                  (set_timeouts (<[timer := None]> (timeouts st)) st))
      | _ => None
      end
  | IntervalFires timer =>
      match intervals st !! timer with
      | Some true => Some (handle heartbeat st)
      | _ => None
      end
  | ReconnectRejected call =>
      match promises st !! call with
      | Some {| caller := ByReconnectTimer; fetching := f;
                settled := Some (Rejected e); caught := false |} =>
          Some (handle reconnect_catch
                  (set_promises
                     (<[call := {| caller := ByReconnectTimer; fetching := f;
                                   settled := Some (Rejected e);
                                   caught := true |}]> (promises st)) st))
      | _ => None
      end
  end.

(** The client as [createClient] returns it; [readOnly: true] connects at
    once. *)
Definition created : Client :=
  {| socket := None; channelInfo := None;
     connectionState := ConnectionState.DISCONNECTED;
     reconnectAttempts := 0; reconnectTimer := None; heartbeatTimer := None;
     isDisconnected := false; listeners := ∅; onceListeners := ∅;
     emitter := []; sockets := []; timeouts := []; intervals := [];
     promises := []; trace := [] |}.

Definition createClient : Client :=
  if readOnly options
  then handle (logger LInfo "Auto-connecting due to readOnly: true (deprecated)";;
               connect ByUser) created
  else created.

Fixpoint run (events : list Event) (st : Client) : option Client :=
  match events with
  | [] => Some st
  | ev :: rest =>
      match step ev st with
      | Some st' => run rest st'
      | None => None
      end
  end.

Definition reachable (st : Client) : Prop :=
  exists events, run events createClient = Some st.

(** What a step added to the trace. *)
Definition effects_since (st st' : Client) : list Effect :=
  drop (length (trace st)) (trace st').

(** The sockets made so far that are connecting or open. *)
Definition live_sockets (st : Client) : list nat :=
  List.filter
    (fun sock =>
       match sockets st !! sock with
       | Some ws =>
           bool_decide (WebSocket.readyState ws = WebSocket.CONNECTING)
           || bool_decide (WebSocket.readyState ws = WebSocket.OPEN)
       | None => false
       end)
    (seq 0 (length (sockets st))).

(** ** Vocabulary of the properties *)

(** The variables of the lifecycle: whether [disconnect] was called, the
    state of the connection, the heartbeat timer, the channel identity and
    the number of sockets made so far. *)
Definition Lifecycle : Type :=
  bool * ConnectionState.t * option nat * option (Z * string) * nat.

Definition lifecycle (st : Client) : Lifecycle :=
  (isDisconnected st, connectionState st, heartbeatTimer st, channelInfo st,
   length (sockets st)).

(** A statement that leaves them alone. *)
Definition neutral {A : Type} (m : M A) : Prop :=
  forall st, lifecycle (m st).2 = lifecycle st.

(** What holds of the variables of the lifecycle in every reachable state:
    after [disconnect] the client is never [CONNECTED] and has no heartbeat;
    there is no heartbeat when its interval is falsy, and one whenever the
    client is [CONNECTED] otherwise; there is none while the client is
    [DISCONNECTED]; the channel identity is known whenever the client is
    [CONNECTED] and once a socket was made, and it is a room id other than 0
    with the name of the channel. *)
Definition inv (l : Lifecycle) : Prop :=
  let '(disconnected, state, hb, info, nsockets) := l in
  (disconnected = true -> state <> ConnectionState.CONNECTED /\ hb = None)
  /\ (truthy heartbeatInterval = false -> hb = None)
  /\ (truthy heartbeatInterval = true ->
      state = ConnectionState.CONNECTED -> hb <> None)
  /\ (hb <> None -> state <> ConnectionState.DISCONNECTED)
  /\ (state = ConnectionState.CONNECTED -> info <> None)
  /\ (disconnected = false -> nsockets <> 0 -> info <> None)
  /\ (forall id name, info = Some (id, name) -> id <> 0%Z /\ name = channelName).

(** A handler keeps [inv], and does not take back an explicit disconnect. *)
Definition preserved (l l' : Lifecycle) : Prop :=
  (inv l -> inv l') /\ (l.1.1.1.1 = true -> l'.1.1.1.1 = true).

(** A frame that is not a well-formed envelope: not JSON, JSON that is not an
    object, or an object without [event]. *)
Definition malformed_envelope (frame : string) : Prop :=
  match parseJSON (Some (JStr frame)) with
  | Throw _ => True
  | Normal (JObj fields) => lookup_last "event" fields = None
  | Normal _ => True
  end.

(** A frame that is an object whose [event] is the string [tag]. *)
Definition tagged_envelope (frame tag : string) : Prop :=
  exists fields,
    parseJSON (Some (JStr frame)) = Normal (JObj fields)
    /\ lookup_last "event" fields = Some (JStr tag).

(** A well-formed envelope: an object with the string [tag] as [event] and,
    as [data], a string that is the JSON text of [payload]. *)
Definition well_formed_envelope (frame tag : string) (payload : json) : Prop :=
  exists fields text,
    parseJSON (Some (JStr frame)) = Normal (JObj fields)
    /\ lookup_last "event" fields = Some (JStr tag)
    /\ lookup_last "data" fields = Some (JStr text)
    /\ parseJSON (Some (JStr text)) = Normal payload.

(** The timers of the client: whether [disconnect] was called, the heartbeat
    timer and the intervals of the runtime, the reconnection timer and the
    timeouts of the runtime. *)
Definition Timers : Type :=
  bool * option nat * list bool * option nat * list (option Z).

Definition timers (st : Client) : Timers :=
  (isDisconnected st, heartbeatTimer st, intervals st, reconnectTimer st,
   timeouts st).

(** A statement that leaves the timers alone, and a statement that keeps a
    property of them. *)
Definition leaves_timers {A : Type} (m : M A) : Prop :=
  forall st, timers (m st).2 = timers st.

Definition keeps (P : Timers -> Prop) {A : Type} (m : M A) : Prop :=
  forall st, P (timers st) -> P (timers (m st).2).

(** The variables of the client track the timers of the runtime: an interval
    is active exactly when [heartbeatTimer] holds it, and [reconnectTimer]
    holds a timeout that is pending. *)
Definition timers_tracked (t : Timers) : Prop :=
  let '(_, hb, ivs, rt, tos) := t in
  (forall i, ivs !! i = Some true <-> hb = Some i)
  /\ (forall timer, rt = Some timer ->
                    exists delay, tos !! timer = Some (Some delay)).

(** After [disconnect], with [n] timeouts set so far. *)
Definition disarmed (n : nat) (t : Timers) : Prop :=
  let '(disconnected, _, _, _, tos) := t in
  disconnected = true /\ length tos = n.

(** The variables a dispatch leaves alone: all but the listener registry and
    the trace. *)
Definition beyond_listeners (st : Client) :=
  (socket st, channelInfo st, connectionState st, reconnectAttempts st,
   reconnectTimer st, heartbeatTimer st, isDisconnected st, sockets st,
   timeouts st, intervals st, promises st).

(** The error the handler of [message] reports from its [catch] clause. *)
Definition message_error (error : exn) (st : Client) : KickError.t :=
  {| KickError.type := ErrorType.WEBSOCKET;
     KickError.message := "Failed to parse WebSocket message";
     KickError.originalError := error;
     KickError.context := (channelName, connectionState st) |}.

(** The state of the connection and the states announced to
    [onConnectionStateChange] so far. *)
Definition announcements (st : Client)
  : ConnectionState.t * list ConnectionState.t :=
  (connectionState st, state_changes (trace st)).

Definition leaves_announcements {A : Type} (m : M A) : Prop :=
  forall st, announcements (m st).2 = announcements st.

(** Every change of the state was announced, and nothing else was: the
    announced states, after the initial DISCONNECTED, end in the current
    state and never repeat the one before. *)
Definition announced (v : ConnectionState.t * list ConnectionState.t) : Prop :=
  let '(s, changes) := v in
  last (ConnectionState.DISCONNECTED :: changes) = Some s
  /\ forall i a b,
       (ConnectionState.DISCONNECTED :: changes) !! i = Some a ->
       changes !! i = Some b -> a <> b.

(** Without the callback nothing is announced. *)
Definition announcing (v : ConnectionState.t * list ConnectionState.t) : Prop :=
  if onConnectionStateChange options then announced v else v.2 = [].

Definition keeps_announcing {A : Type} (m : M A) : Prop :=
  forall st, announcing (announcements st) ->
             announcing (announcements (m st).2).

(** * Properties *)

(** Running a statement symbolically. *)
Ltac run_m :=
  repeat (progress (cbn -[emit lifecycle];
                    unfold mbind, mret, M_bind, M_ret, get_state, modify,
                      throw, lift, effect, logger)).

(** The conditions a statement branches on, innermost first. *)
Ltac split_cond :=
  match goal with
  | |- context [bool_decide ?P] => destruct (bool_decide_reflect P)
  | |- context [if ?b then _ else _] =>
      lazymatch type of b with bool => destruct b eqn:? end
  | |- context [match ?x with Some _ => _ | None => _ end] => destruct x eqn:?
  end.

Lemma neutral_ret {A : Type} (a : A) : neutral (mret a).
Proof. done. Qed.

Lemma neutral_bind {A B : Type} (m : M A) (f : A -> M B) :
  neutral m -> (forall a, neutral (f a)) -> neutral (m ≫= f).
Proof.
  intros Hm Hf st. unfold mbind, M_bind. specialize (Hm st).
  destruct (m st) as [[a|e] st']; cbn in *; [|done].
  by rewrite Hf.
Qed.

Lemma neutral_try_catch {A : Type} (m : M A) (h : exn -> M A) :
  neutral m -> (forall e, neutral (h e)) -> neutral (try_catch m h).
Proof.
  intros Hm Hh st. unfold try_catch. specialize (Hm st).
  destruct (m st) as [[a|e] st']; cbn in *; [done|].
  by rewrite Hh.
Qed.

Lemma neutral_get_state : neutral get_state.
Proof. done. Qed.

Lemma neutral_throw {A : Type} (e : exn) : neutral (throw (A := A) e).
Proof. done. Qed.

Lemma neutral_lift {A : Type} (c : completion A) : neutral (lift c).
Proof. done. Qed.

Lemma neutral_effect (e : Effect) : neutral (effect e).
Proof. done. Qed.

Lemma neutral_logger level msg : neutral (logger level msg).
Proof. done. Qed.

Lemma neutral_log_all entries : neutral (log_all entries).
Proof.
  induction entries as [|[level msg] rest IH]; [done|].
  apply neutral_bind; [apply neutral_logger | done].
Qed.

Lemma neutral_settle call s : neutral (settle call s).
Proof. intros st. unfold settle. run_m. repeat case_match; by simplify_eq. Qed.

Lemma neutral_removeListener event listener : neutral (removeListener event listener).
Proof. done. Qed.

Lemma neutral_invoke event arg r : neutral (invoke event arg r).
Proof. intros st. unfold invoke, removeListener. run_m. repeat case_match; by simplify_eq. Qed.

Lemma neutral_invoke_all event arg regs : neutral (invoke_all event arg regs).
Proof.
  induction regs as [|r rest IH]; [done|].
  apply neutral_bind; [apply neutral_invoke | done].
Qed.

Lemma neutral_emit event arg : neutral (emit event arg).
Proof.
  unfold emit. apply neutral_bind; [apply neutral_get_state|]. intros st.
  destruct (registrations_of event (emitter st)) as [|r rest].
  - case_match; [apply neutral_throw | apply neutral_ret].
  - apply neutral_bind; [apply neutral_invoke_all | intros; apply neutral_ret].
Qed.

Lemma neutral_scheduleReconnect : neutral scheduleReconnect.
Proof. intros st. unfold scheduleReconnect, setTimeout. run_m. repeat case_match; by simplify_eq. Qed.

Lemma neutral_createError type message e : neutral (createError type message e).
Proof. done. Qed.

Lemma neutral_handleError error : neutral (handleError error).
Proof. intros st. unfold handleError. run_m. repeat case_match; by simplify_eq. Qed.

Create HintDb neutral discriminated.

#[local] Hint Resolve neutral_ret neutral_get_state neutral_throw neutral_lift
  neutral_effect neutral_logger neutral_log_all neutral_settle neutral_createError
  neutral_handleError neutral_removeListener neutral_invoke_all neutral_emit
  neutral_scheduleReconnect : neutral.

(** Statements composed of the above. *)
Ltac solve_neutral :=
  repeat first
    [ solve [auto with neutral]
    | apply neutral_try_catch; [|intros]
    | apply neutral_bind; [|intros]
    | case_match ].

Lemma neutral_on_message text : neutral (on_message text).
Proof.
  unfold on_message. apply neutral_bind; [apply neutral_get_state|]. intros st.
  destruct (parseMessage parseJSON text) as [logs result].
  solve_neutral.
Qed.

Lemma neutral_heartbeat : neutral heartbeat.
Proof. intros st. unfold heartbeat. run_m. repeat case_match; by simplify_eq. Qed.

Lemma neutral_reconnect_catch : neutral reconnect_catch.
Proof.
  unfold reconnect_catch. solve_neutral.
Qed.

Lemma neutral_addListener event listener once : neutral (addListener event listener once).
Proof. intros st. unfold addListener. run_m. by case_match. Qed.

Lemma neutral_removeAllListeners event : neutral (removeAllListeners event).
Proof. intros st. unfold removeAllListeners. run_m. by repeat case_match. Qed.

Ltac neutral_hyps :=
  repeat match goal with
    | H : emit ?e ?a ?s = (_, _) |- _ =>
        let F := fresh "F" in
        pose proof (neutral_emit e a s) as F; rewrite H in F; cbn [snd] in F;
        clear H
    end.

(** Runs a handler on every path, up to the variables of the lifecycle. *)
Ltac run_lifecycle :=
  repeat (run_m; try (case_match; simplify_eq));
  neutral_hyps;
  rewrite ?neutral_settle, ?neutral_scheduleReconnect;
  repeat match goal with F : lifecycle _ = _ |- _ => rewrite F; clear F end.

Ltac bools :=
  repeat match goal with
    | H : bool_decide _ = true |- _ => apply bool_decide_eq_true in H
    | H : bool_decide _ = false |- _ => apply bool_decide_eq_false in H
    | H : _ || _ = true |- _ => apply orb_true_iff in H; destruct H
    | H : _ || _ = false |- _ => apply orb_false_iff in H; destruct H
    | H : negb _ = true |- _ => apply negb_true_iff in H
    | H : negb _ = false |- _ => apply negb_false_iff in H
    | H : is_Some _ |- _ => destruct H
    | H : ~ is_Some _ |- _ => apply eq_None_not_Some in H
    | H : (_ =? _)%Z = false |- _ => apply Z.eqb_neq in H
    end.

Ltac solve_inv :=
  unfold preserved, inv, lifecycle in *; cbn in *;
  rewrite ?length_insert, ?length_app in *; cbn in *; bools;
  repeat match goal with H : _ /\ _ |- _ => destruct H end;
  repeat split; intros; simplify_eq; try congruence; try tauto; try lia;
  try (repeat match goal with H : _ /\ _ |- _ => destruct H end;
       match goal with
       | H : forall id name, _ = Some (id, name) -> _ /\ _ |- _ =>
           solve [eapply proj1, H; eauto | eapply proj2, H; eauto]
       end);
  try naive_solver.

Lemma on_open_preserved call st :
  length (sockets st) <> 0 ->
  preserved (lifecycle st) (lifecycle (on_open call st).2).
Proof.
  unfold on_open, setConnectionState, startHeartbeat, setInterval.
  intros Hn. run_lifecycle; solve_inv.
Qed.

Lemma on_close_preserved st :
  preserved (lifecycle st) (lifecycle (on_close st).2).
Proof.
  unfold on_close, stopHeartbeat, clearInterval, setConnectionState.
  run_lifecycle; solve_inv.
Qed.

Lemma on_error_preserved call st :
  preserved (lifecycle st) (lifecycle (on_error call st).2).
Proof.
  unfold on_error, stopHeartbeat, clearInterval, setConnectionState,
    createError, handleError.
  run_lifecycle; solve_inv.
Qed.

Lemma connect_preserved by_ st :
  preserved (lifecycle st) (lifecycle (connect by_ st).2).
Proof.
  unfold connect, setConnectionState.
  run_lifecycle; solve_inv.
Qed.

Lemma connect_resume_preserved call chatroomId st :
  preserved (lifecycle st) (lifecycle (connect_resume call chatroomId st).2).
Proof.
  unfold connect_resume, try_catch, setConnectionState, createError, handleError.
  run_lifecycle; solve_inv.
Qed.

Lemma disconnect_preserved st :
  preserved (lifecycle st) (lifecycle (disconnect st).2).
Proof.
  unfold disconnect, setConnectionState, clearTimeout, stopHeartbeat,
    clearInterval, close_socket, removeAllListeners.
  run_lifecycle; solve_inv.
Qed.

Lemma neutral_preserved {A : Type} (m : M A) st :
  neutral m -> preserved (lifecycle st) (lifecycle (m st).2).
Proof. intros ->. by split. Qed.

Lemma preserved_trans l1 l2 l3 : preserved l1 l2 -> preserved l2 l3 -> preserved l1 l3.
Proof. intros [H1 H2] [H3 H4]. split; auto. Qed.

Lemma lifecycle_handle m st : lifecycle (handle m st) = lifecycle (m st).2.
Proof. unfold handle. by destruct (m st) as [[[]|e] st']. Qed.

Lemma lifecycle_set_readyState sock rs st :
  lifecycle (set_readyState sock rs st) = lifecycle st.
Proof.
  unfold set_readyState, lifecycle. case_match; [|done]. cbn.
  by rewrite length_insert.
Qed.

Lemma socket_event_preserved sock from to listener st st' :
  (forall ws s, length (sockets s) <> 0 ->
                preserved (lifecycle s) (lifecycle (listener ws s).2)) ->
  socket_event sock from to listener st = Some st' ->
  preserved (lifecycle st) (lifecycle st').
Proof.
  intros Hl. unfold socket_event.
  destruct (sockets st !! sock) as [ws|] eqn:Hws; [|done].
  assert (length (sockets st) <> 0) as Hn.
  { apply lookup_lt_Some in Hws. lia. }
  case_match; [|done]. intros [= <-].
  case_match.
  - rewrite lifecycle_handle.
    rewrite <- (lifecycle_set_readyState sock (to (WebSocket.readyState ws)) st) at 1.
    apply Hl. unfold set_readyState. rewrite Hws. cbn. by rewrite length_insert.
  - rewrite lifecycle_set_readyState. by split.
Qed.

Lemma step_preserved ev st st' :
  step ev st = Some st' -> preserved (lifecycle st) (lifecycle st').
Proof.
  destruct ev; cbn [step].
  - intros [= <-]. rewrite lifecycle_handle. apply connect_preserved.
  - intros [= <-]. rewrite lifecycle_handle. apply disconnect_preserved.
  - intros [= <-]. rewrite lifecycle_handle.
    apply neutral_preserved, neutral_addListener.
  - intros [= <-]. rewrite lifecycle_handle.
    apply neutral_preserved, neutral_addListener.
  - intros [= <-]. rewrite lifecycle_handle.
    apply neutral_preserved, neutral_removeListener.
  - intros [= <-]. rewrite lifecycle_handle.
    apply neutral_preserved, neutral_removeAllListeners.
  - destruct (promises st !! call) as [p|]; [|done].
    case_match; [|done]. intros [= <-]. rewrite lifecycle_handle.
    apply (connect_resume_preserved call chatroomId (set_promises _ st)).
  - apply socket_event_preserved. intros ws s Hs.
    apply (on_open_preserved _ (set_trace _ s)), Hs.
  - apply socket_event_preserved. intros ws s _.
    apply neutral_preserved, neutral_on_message.
  - apply socket_event_preserved. intros ws s _. apply on_error_preserved.
  - apply socket_event_preserved. intros ws s _. apply on_close_preserved.
  - apply socket_event_preserved. intros ws s _.
    apply neutral_preserved, neutral_logger.
  - apply socket_event_preserved. intros ws s _.
    apply neutral_preserved, neutral_ret.
  - repeat case_match; try done. intros [= <-]. rewrite lifecycle_handle.
    apply (connect_preserved ByReconnectTimer
             (set_reconnectTimer None (set_timeouts _ st))).
  - repeat case_match; try done. intros [= <-]. rewrite lifecycle_handle.
    apply neutral_preserved, neutral_heartbeat.
  - repeat case_match; try done. intros [= <-]. rewrite lifecycle_handle.
    apply (neutral_preserved reconnect_catch (set_promises _ st)),
      neutral_reconnect_catch.
Qed.

Lemma run_preserved events st st' :
  run events st = Some st' -> preserved (lifecycle st) (lifecycle st').
Proof.
  revert st. induction events as [|ev rest IH]; intros st; cbn [run].
  - intros [= <-]. by split.
  - destruct (step ev st) as [st1|] eqn:Hstep; [|done]. intros Hrun.
    eapply preserved_trans; [exact (step_preserved _ _ _ Hstep) | by apply IH].
Qed.

Lemma created_inv : inv (lifecycle createClient).
Proof.
  assert (inv (lifecycle created)) as Hc.
  { unfold inv, lifecycle, created. cbn. repeat split; intros; congruence. }
  unfold createClient. case_match; [|done].
  rewrite lifecycle_handle.
  apply (connect_preserved ByUser (set_trace _ created)), Hc.
Qed.

Lemma reachable_inv st : reachable st -> inv (lifecycle st).
Proof.
  intros [events Hrun]. apply run_preserved in Hrun as [Hinv _].
  apply Hinv, created_inv.
Qed.

(** A call of [disconnect] is remembered for good. *)
Lemma disconnect_sets_isDisconnected st :
  isDisconnected (handle disconnect st) = true.
Proof.
  unfold handle, disconnect, setConnectionState, clearTimeout, stopHeartbeat,
    clearInterval, close_socket, removeAllListeners.
  repeat (run_m; try (case_match; simplify_eq)); done.
Qed.

Lemma run_after_disconnect events st st' :
  run events st = Some st' ->
  In CallDisconnect events -> isDisconnected st' = true.
Proof.
  revert st. induction events as [|ev rest IH]; intros st; cbn [run]; [done|].
  destruct (step ev st) as [st1|] eqn:Hstep; [|done]. intros Hrun [->|Hin].
  - cbn in Hstep. injection Hstep as <-.
    apply run_preserved in Hrun as [_ Hd]. apply Hd.
    apply disconnect_sets_isDisconnected.
  - by apply (IH st1).
Qed.

(** ** The decoder *)

Lemma parseMessage_never_throws frame e :
  (parseMessage parseJSON frame).2 <> Throw e.
Proof.
  unfold parseMessage. by destruct (parseMessage_try parseJSON frame) as [logs [r|e']].
Qed.

(** C1, in the form the code satisfies.  For a frame that is not a
    well-formed envelope, [parseMessage] does not fail: it returns [null],
    and so no event, and it logs once.  A frame that is not JSON, or is the
    JSON [null], ends in the [catch] clause, which logs at error level; any
    other value without [event] ends in the default arm of the switch,
    which logs at debug level, and nothing is thrown. *)
Theorem parseMessage_malformed_envelope frame :
  malformed_envelope frame ->
  (parseMessage parseJSON frame).2 = Normal None
  /\ (parseMessage parseJSON frame).1
     = [match parseJSON (Some (JStr frame)) with
        | Throw _ | Normal JNull => (LError, "Error parsing message:")
        | Normal _ => (LDebug, "Unknown event type:")
        end].
Proof.
  unfold malformed_envelope, parseMessage, parseMessage_try.
  destruct (parseJSON (Some (JStr frame))) as [[| | | | |fields]|e]; try done.
  cbn. by intros ->.
Qed.

Lemma is_case_tag tag tag' : is_case (Some (JStr tag)) tag' = String.eqb tag tag'.
Proof. done. Qed.

(** C3.  On a well-formed envelope whose tag is in the table, [parseMessage]
    returns the event of the kind the table gives, with the decoded payload;
    on an envelope whose tag is not in the table it returns [null], the
    unknown result, and does not fail. *)
Theorem parseMessage_event_table :
  (forall tag kind frame payload,
      In (tag, kind) event_table ->
      well_formed_envelope frame tag payload ->
      (parseMessage parseJSON frame).2
      = Normal (Some {| ParsedMessage.type := kind;
                        ParsedMessage.data := payload |}))
  /\ (forall tag frame,
        (forall kind, ~ In (tag, kind) event_table) ->
        tagged_envelope frame tag ->
        (parseMessage parseJSON frame).2 = Normal None).
Proof.
  split.
  - intros tag kind frame payload Hin (fields & text & Hframe & Hevent & Hdata & Htext).
    unfold parseMessage, parseMessage_try. rewrite Hframe. cbn [get_prop].
    rewrite Hevent.
    unfold event_table in Hin. cbn [In] in Hin.
    repeat (destruct Hin as [[= <- <-]|Hin];
            [cbn; unfold decoded; cbn [get_prop]; rewrite Hdata, Htext; done|]).
    destruct Hin.
  - intros tag frame Hout (fields & Hframe & Hevent).
    unfold parseMessage, parseMessage_try. rewrite Hframe. cbn [get_prop].
    rewrite Hevent. rewrite !is_case_tag.
    repeat match goal with
      | |- context [String.eqb tag ?t] =>
          destruct (String.eqb_spec tag t) as [->|_];
          [exfalso; eapply Hout; unfold event_table; cbn [In]; tauto|]
      end.
    done.
Qed.

(** ** [connect] on an open connection *)

Lemma drop_trace {A : Type} (l k : list A) : drop (length l) (l ++ k) = k.
Proof. by rewrite drop_app_length. Qed.

Lemma connect_when_open by_ st :
  isConnected st = true ->
  connect by_ st
  = (Normal tt,
     set_trace
       (trace st ++ [ConnectCalled (length (promises st)) by_;
                     Logged LDebug "Already connected to WebSocket";
                     Resolve (length (promises st))])
       (set_promises
          (promises st ++ [{| caller := by_; fetching := false;
                              settled := Some Resolved; caught := false |}])
          st)).
Proof.
  intros Hopen. unfold connect, settle. run_m. rewrite Hopen. run_m.
  rewrite lookup_app_r by lia. rewrite Nat.sub_diag. run_m.
  unfold set_trace, set_promises. cbn.
  rewrite <- !app_assoc, insert_app_r_alt, Nat.sub_diag by lia. done.
Qed.

Lemma handle_connect_when_open by_ st :
  isConnected st = true ->
  handle (connect by_) st
  = set_trace
      (trace st ++ [ConnectCalled (length (promises st)) by_;
                    Logged LDebug "Already connected to WebSocket";
                    Resolve (length (promises st))])
      (set_promises
         (promises st ++ [{| caller := by_; fetching := false;
                             settled := Some Resolved; caught := false |}])
         st).
Proof. intros Hopen. unfold handle. by rewrite connect_when_open. Qed.

(** C8, in the form the code satisfies.  While the socket is open, two
    calls of [connect] both resolve at once and create no socket: the
    sockets, the handle held by the client and the state of the connection
    stay as they are, and so do the sockets that are connecting or open,
    however many there were. *)
Theorem connect_idempotent st :
  isConnected st = true ->
  exists st1 st2,
    step CallConnect st = Some st1
    /\ step CallConnect st1 = Some st2
    /\ effects_since st st2
       = [ConnectCalled (length (promises st)) ByUser;
          Logged LDebug "Already connected to WebSocket";
          Resolve (length (promises st));
          ConnectCalled (S (length (promises st))) ByUser;
          Logged LDebug "Already connected to WebSocket";
          Resolve (S (length (promises st)))]
    /\ sockets st2 = sockets st
    /\ socket st2 = socket st
    /\ connectionState st2 = connectionState st
    /\ isConnected st2 = true
    /\ live_sockets st2 = live_sockets st.
Proof.
  intros Hopen.
  exists (handle (connect ByUser) st),
         (handle (connect ByUser) (handle (connect ByUser) st)).
  split; [done|]. split; [done|].
  rewrite (handle_connect_when_open ByUser st Hopen).
  rewrite handle_connect_when_open by done.
  unfold effects_since. cbn.
  rewrite <- app_assoc, drop_trace, length_app. cbn. rewrite Nat.add_1_r.
  done.
Qed.

(** ** A stale open after [disconnect] *)

Lemma on_open_ignored call st :
  isDisconnected st = true ->
  on_open call st
  = (Normal tt,
     set_trace
       (trace st ++
          [Logged LDebug "Connection opened but client is disconnected, ignoring"])
       st).
Proof. intros Hd. unfold on_open. run_m. by rewrite Hd. Qed.

(** C10.  Once [disconnect] was called, the client is never [CONNECTED]
    again, and an open event of any socket changes neither the state of the
    connection nor the count of reconnection attempts, starts no heartbeat
    and emits nothing: at most the subscription is sent and the event is
    logged as ignored. *)
Theorem stale_open_ignored events st sock st' :
  run events createClient = Some st ->
  In CallDisconnect events ->
  step (SocketOpen sock) st = Some st' ->
  connectionState st <> ConnectionState.CONNECTED
  /\ connectionState st' = connectionState st
  /\ heartbeatTimer st' = None
  /\ reconnectAttempts st' = reconnectAttempts st
  /\ (effects_since st st' = []
      \/ effects_since st st'
         = [Send sock;
            Logged LDebug
              "Connection opened but client is disconnected, ignoring"]).
Proof.
  intros Hrun Hin Hstep.
  pose proof (run_after_disconnect _ _ _ Hrun Hin) as Hd.
  assert (reachable st) as Hinv by (by exists events).
  apply reachable_inv in Hinv. unfold inv, lifecycle in Hinv.
  destruct Hinv as [Hdisc _]. destruct (Hdisc Hd) as [Hstate Hhb].
  split; [done|].
  cbn [step] in Hstep. unfold socket_event in Hstep.
  destruct (sockets st !! sock) as [ws|] eqn:Hws; [|done].
  destruct (is_state _ _); [|done]. injection Hstep as <-.
  unfold set_readyState. rewrite Hws.
  destruct (WebSocket.ownListeners ws).
  - unfold handle. run_m. rewrite on_open_ignored by done.
    unfold effects_since. cbn. rewrite <- app_assoc, drop_trace. auto.
  - unfold effects_since. cbn. rewrite drop_all. auto.
Qed.

(** ** Heartbeat *)





(** ** Channel identity *)




(** ** Reconnection backoff *)

Lemma pow2_ge_32 (n : nat) : 5 <= n -> (32 <= 2 ^ Z.of_nat n)%Z.
Proof.
  intros Hn. change 32%Z with (2 ^ 5)%Z.
  apply Z.pow_le_mono_r; lia.
Qed.

(** C5, in the form the code satisfies.  With the attempt count [n], and
    with every interval or maximum that is configured as 0 (or [undefined])
    replaced by its default: [scheduleReconnect] arms one timer of delay
    [min (baseInterval * 2^n, maxInterval)] when [autoReconnect] is true,
    [n] is below the maximum and the client was not disconnected, and arms
    nothing otherwise; with 1000 and 30000 the delays are 1000, 2000, 4000,
    8000, 16000 and 30000 from then on. *)
Theorem scheduleReconnect_backoff st :
  let n := reconnectAttempts st in
  let baseInterval := or_else reconnectInterval 1000 in
  let maxInterval := or_else maxReconnectInterval 30000 in
  let maxAttempts := or_else maxReconnectAttempts 10 in
  let st' := (scheduleReconnect st).2 in
  (autoReconnect = Some true ->
   (Z.of_nat n < maxAttempts)%Z ->
   isDisconnected st = false ->
   timeouts st' = timeouts st ++ [Some (Z.min (baseInterval * 2 ^ Z.of_nat n) maxInterval)]
   /\ reconnectTimer st' = Some (length (timeouts st)))
  /\ (autoReconnect <> Some true
      \/ (maxAttempts <= Z.of_nat n)%Z
      \/ isDisconnected st = true ->
      timeouts st' = timeouts st /\ reconnectTimer st' = reconnectTimer st)
  /\ (baseInterval = 1000%Z -> maxInterval = 30000%Z ->
      forall k : nat,
        exponentialDelay k
        = nth k [1000; 2000; 4000; 8000; 16000]%Z 30000%Z).
Proof.
  cbn zeta. split; [|split].
  - intros Hauto Hn Hd. unfold scheduleReconnect, setTimeout. run_m.
    rewrite Hauto, Hd. cbn [default negb orb].
    destruct (Z.leb_spec (or_else maxReconnectAttempts 10)
                (Z.of_nat (reconnectAttempts st))); [lia|].
    by run_m.
  - intros Href. unfold scheduleReconnect, setTimeout. run_m.
    case_match eqn:Hguard; [by run_m|].
    exfalso. apply orb_false_iff in Hguard as [Hguard Hd].
    apply orb_false_iff in Hguard as [Hauto Hn].
    apply negb_false_iff in Hauto. apply Z.leb_gt in Hn.
    destruct Href as [Href|[Href|Href]]; [|lia|congruence].
    apply Href. by destruct autoReconnect as [[]|].
  - intros Hbase Hmax k. unfold exponentialDelay. rewrite Hbase, Hmax.
    destruct (le_lt_dec 5 k) as [Hk|Hk].
    + rewrite nth_overflow by (cbn; lia).
      pose proof (pow2_ge_32 k Hk). lia.
    + do 5 (destruct k as [|k]; [done|]). lia.
Qed.

(** ** Dispatch to listeners *)

Lemma invoke_trace event arg r st :
  trace (invoke event arg r st).2
  = trace st ++ [Invoked (lid (reg_listener r)) event arg]
  /\ (invoke event arg r st).1
     = if raises (reg_listener r)
       then Throw (ListenerRaised (lid (reg_listener r)))
       else Normal tt.
Proof.
  unfold invoke, removeListener. run_m.
  destruct (reg_once r), (raises (reg_listener r)); by run_m.
Qed.

Lemma invoke_all_stops event arg before r after st :
  Forall (fun x => raises (reg_listener x) = false) before ->
  raises (reg_listener r) = true ->
  (invoke_all event arg (before ++ r :: after) st).1
  = Throw (ListenerRaised (lid (reg_listener r)))
  /\ trace (invoke_all event arg (before ++ r :: after) st).2
     = trace st
       ++ map (fun x => Invoked (lid (reg_listener x)) event arg) (before ++ [r]).
Proof.
  intros Hbefore Hr. revert st.
  induction Hbefore as [|x before Hx _ IH]; intros st.
  - cbn [app invoke_all]. unfold mbind, M_bind.
    destruct (invoke_trace event arg r st) as [Htrace Hout].
    rewrite Hr in Hout.
    destruct (invoke event arg r st) as [[[]|e] st1]; cbn in *; [done|].
    by injection Hout as ->.
  - cbn [app invoke_all]. unfold mbind, M_bind.
    destruct (invoke_trace event arg x st) as [Htrace Hout].
    rewrite Hx in Hout.
    destruct (invoke event arg x st) as [[[]|e] st1]; cbn in *; [|done].
    destruct (IH st1) as [IH1 IH2]. split; [done|].
    by rewrite IH2, Htrace, <- app_assoc.
Qed.

(** C9, in the form the code satisfies.  When a callback of the event
    raises, [emit] has called the callbacks registered before it and that
    callback, in order and with the payload; the exception leaves [emit],
    and no callback registered after it is called in that dispatch. *)
Theorem emit_stops_at_raising_listener event arg st before r after :
  registrations_of event (emitter st) = before ++ r :: after ->
  Forall (fun x => raises (reg_listener x) = false) before ->
  raises (reg_listener r) = true ->
  (emit event arg st).1 = Throw (ListenerRaised (lid (reg_listener r)))
  /\ effects_since st (emit event arg st).2
     = map (fun x => Invoked (lid (reg_listener x)) event arg) (before ++ [r]).
Proof.
  intros Hregs Hbefore Hr.
  destruct (invoke_all_stops event arg before r after st Hbefore Hr)
    as [Hout Htrace].
  assert (emit event arg st
          = (invoke_all event arg (before ++ r :: after) ≫= fun _ => mret true) st)
    as ->.
  { unfold emit, mbind, M_bind, get_state. rewrite Hregs. by destruct before. }
  unfold mbind, M_bind.
  destruct (invoke_all event arg (before ++ r :: after) st) as [[[]|e] st1];
    cbn in *; [done|].
  injection Hout as ->.
  split; [done|]. unfold effects_since. by rewrite Htrace, drop_trace.
Qed.

(** ** Frames that fail to decode *)

Lemma log_all_trace entries st :
  log_all entries st
  = (Normal tt,
     set_trace (trace st ++ map (fun e => Logged e.1 e.2) entries) st).
Proof.
  revert st. induction entries as [|[level msg] rest IH]; intros st.
  - destruct st. cbn. unfold mret, M_ret, set_trace. cbn.
    by rewrite app_nil_r.
  - cbn [log_all]. run_m. rewrite IH. unfold set_trace. cbn.
    by rewrite <- app_assoc.
Qed.

(** Whatever fails inside [parseMessage] ends in its [catch] clause: the
    handler of the socket logs, calls no error callback, emits nothing and
    changes no variable of the client. *)
Lemma on_message_decode_failure text logs e st :
  isDisconnected st = false ->
  parseMessage_try parseJSON text = (logs, Throw e) ->
  on_message text st
  = (Normal tt,
     set_trace
       (trace st
        ++ map (fun e => Logged e.1 e.2)
             (logs ++ [(LError, "Error parsing message:")])) st).
Proof.
  intros Hd Htry. unfold on_message, try_catch, parseMessage. run_m.
  rewrite Hd, Htry. run_m. rewrite log_all_trace. by run_m.
Qed.

(** * Further properties of the client *)

(** ** The listener array *)

Lemma filter_rev_list {A : Type} (Q : A -> Prop) `{forall x, Decision (Q x)}
  (l : list A) : filter Q (rev l) = rev (filter Q l).
Proof.
  induction l as [|x l IH]; [done|]. cbn [rev].
  rewrite filter_app, IH, filter_cons.
  destruct (decide (Q x)).
  - by rewrite filter_cons_True, filter_nil.
  - by rewrite filter_cons_False, filter_nil, app_nil_r.
Qed.

(** Removing the first entry that satisfies [P] takes the head off the
    entries that satisfy [Q] when that head satisfies [P] and [P] implies [Q],
    and leaves them alone when [P] excludes [Q]. *)
Lemma filter_remove_first_head (Q : Registration -> Prop)
  `{forall x, Decision (Q x)} (P : Registration -> bool) regs r rest :
  (forall x, P x = true -> Q x) ->
  filter Q regs = r :: rest -> P r = true ->
  filter Q (remove_first P regs) = rest.
Proof.
  intros HPQ. induction regs as [|x regs IH]; intros Hf Hr; [done|].
  rewrite filter_cons in Hf. cbn [remove_first].
  destruct (decide (Q x)) as [Hq|Hq].
  - injection Hf as -> Hrest. by rewrite Hr.
  - destruct (P x) eqn:HP; [by destruct Hq; apply HPQ|].
    rewrite filter_cons_False by done. by apply IH.
Qed.

Lemma filter_remove_first_other (Q : Registration -> Prop)
  `{forall x, Decision (Q x)} (P : Registration -> bool) regs :
  (forall x, P x = true -> ~ Q x) ->
  filter Q (remove_first P regs) = filter Q regs.
Proof.
  intros HPQ. induction regs as [|x regs IH]; [done|]. cbn [remove_first].
  destruct (P x) eqn:HP.
  - by rewrite (filter_cons_False _ x) by by apply HPQ.
  - by rewrite !filter_cons, IH.
Qed.

Lemma filter_emitter_removeListener (Q : Registration -> Prop)
  `{forall x, Decision (Q x)} event listener regs :
  (forall x, Q x -> reg_event x <> event \/ reg_once x = true) ->
  filter Q (emitter_removeListener event listener regs) = filter Q regs.
Proof.
  intros HQ. unfold emitter_removeListener.
  rewrite filter_rev_list, filter_remove_first_other, filter_rev_list.
  - apply rev_involutive.
  - intros x HP Hq.
    apply andb_prop in HP as [HP _]. apply andb_prop in HP as [He Ho].
    apply String.eqb_eq in He. apply negb_true_iff in Ho.
    destruct (HQ x Hq); congruence.
Qed.

Lemma filter_emitter_removeOnce_other (Q : Registration -> Prop)
  `{forall x, Decision (Q x)} event listener regs :
  (forall x, Q x -> reg_event x <> event \/ reg_once x = false) ->
  filter Q (emitter_removeOnce event listener regs) = filter Q regs.
Proof.
  intros HQ. unfold emitter_removeOnce. apply filter_remove_first_other.
  intros x HP Hq.
  apply andb_prop in HP as [HP _]. apply andb_prop in HP as [He Ho].
  apply String.eqb_eq in He. destruct (HQ x Hq); congruence.
Qed.

Lemma same_listener_refl l : same_listener l l = true.
Proof. apply Nat.eqb_refl. Qed.

Lemma invoke_emitter event arg r st :
  emitter (invoke event arg r st).2
  = if reg_once r
    then emitter_removeListener event (reg_listener r)
           (emitter_removeOnce event (reg_listener r) (emitter st))
    else emitter st.
Proof.
  unfold invoke, removeListener. run_m.
  destruct (reg_once r), (raises (reg_listener r)); by run_m.
Qed.

(** A dispatch in which nobody raises: every callback of the copy is called,
    in order. *)
Lemma invoke_all_quiet event arg regs st :
  Forall (fun r => raises (reg_listener r) = false) regs ->
  (invoke_all event arg regs st).1 = Normal tt
  /\ trace (invoke_all event arg regs st).2
     = trace st ++ map (fun r => Invoked (lid (reg_listener r)) event arg) regs.
Proof.
  intros Hquiet. revert st.
  induction Hquiet as [|r regs Hr _ IH]; intros st.
  - cbn. by rewrite app_nil_r.
  - cbn [invoke_all map]. unfold mbind, M_bind.
    destruct (invoke_trace event arg r st) as [Htrace Hout]. rewrite Hr in Hout.
    destruct (invoke event arg r st) as [[[]|e] st1]; cbn in *; [|done].
    destruct (IH st1) as [IH1 IH2]. split; [done|].
    rewrite IH2, Htrace, <- app_assoc. done.
Qed.

Lemma emit_unfold event arg st :
  emit event arg st
  = match registrations_of event (emitter st) with
    | [] => if String.eqb event "error"
            then (Throw UnhandledErrorEvent, st) else (Normal false, st)
    | regs =>
        match invoke_all event arg regs st with
        | (Normal _, st') => (Normal true, st')
        | (Throw e, st') => (Throw e, st')
        end
    end.
Proof.
  unfold emit. run_m.
  destruct (registrations_of event (emitter st)); [by case_match|done].
Qed.

(** X1.  When no callback registered for the event raises, [emit] calls each
    of them once, in the order of registration and with the payload, and
    returns [true]; without any callback it calls nothing and returns
    [false], or throws when the event is [error]. *)
Theorem emit_in_registration_order event arg st :
  Forall (fun r => raises (reg_listener r) = false)
    (registrations_of event (emitter st)) ->
  effects_since st (emit event arg st).2
  = map (fun r => Invoked (lid (reg_listener r)) event arg)
      (registrations_of event (emitter st))
  /\ (emit event arg st).1
     = match registrations_of event (emitter st) with
       | [] => if String.eqb event "error"
               then Throw UnhandledErrorEvent else Normal false
       | _ => Normal true
       end.
Proof.
  intros Hquiet. rewrite emit_unfold. unfold effects_since.
  destruct (registrations_of event (emitter st)) as [|r regs] eqn:Hregs.
  - case_match; cbn; by rewrite drop_all.
  - destruct (invoke_all_quiet event arg (r :: regs) st Hquiet) as [Hout Htrace].
    destruct (invoke_all event arg (r :: regs) st) as [[[]|e] st1];
      cbn in *; [|done].
    by rewrite Htrace, drop_trace.
Qed.

(** The one-shot registrations of an event in the listener array. *)
Lemma once_registrations_step event arg r regs st :
  reg_event r = event ->
  filter (fun x => reg_event x = event /\ reg_once x = true) (emitter st)
  = filter (fun x => reg_once x = true) (r :: regs) ->
  filter (fun x => reg_event x = event /\ reg_once x = true)
    (emitter (invoke event arg r st).2)
  = filter (fun x => reg_once x = true) regs.
Proof.
  intros Hev Hinv. rewrite invoke_emitter. rewrite filter_cons in Hinv.
  destruct (reg_once r) eqn:Honce.
  - rewrite decide_True in Hinv by done.
    rewrite filter_emitter_removeListener by (intros x [_ Hx]; by right).
    unfold emitter_removeOnce.
    apply (filter_remove_first_head _ _ _ r); [|done|].
    + intros x HP. apply andb_prop in HP as [HP _].
      apply andb_prop in HP as [He Ho]. by apply String.eqb_eq in He.
    + rewrite same_listener_refl, Honce, !andb_true_r. by apply String.eqb_eq.
  - rewrite decide_False in Hinv by done. done.
Qed.

Lemma other_registrations_invoke event event' arg r st :
  event' <> event ->
  registrations_of event' (emitter (invoke event arg r st).2)
  = registrations_of event' (emitter st).
Proof.
  intros Hne. rewrite invoke_emitter. unfold registrations_of.
  destruct (reg_once r); [|done].
  rewrite filter_emitter_removeListener by (intros x Hx; left; congruence).
  apply filter_emitter_removeOnce_other. intros x Hx. left. congruence.
Qed.

Lemma invoke_all_consumes_once event arg regs st :
  Forall (fun r => raises (reg_listener r) = false) regs ->
  Forall (fun r => reg_event r = event) regs ->
  filter (fun x => reg_event x = event /\ reg_once x = true) (emitter st)
  = filter (fun x => reg_once x = true) regs ->
  filter (fun x => reg_event x = event /\ reg_once x = true)
    (emitter (invoke_all event arg regs st).2) = [].
Proof.
  intros Hquiet. revert st.
  induction Hquiet as [|r regs Hr _ IH]; intros st Hev Hinv; [done|].
  apply Forall_cons in Hev as [Hev1 Hev].
  cbn [invoke_all]. unfold mbind, M_bind.
  pose proof (once_registrations_step event arg r regs st Hev1 Hinv) as Hstep.
  destruct (invoke_trace event arg r st) as [_ Hout]. rewrite Hr in Hout.
  destruct (invoke event arg r st) as [[[]|e] st1]; cbn in *; [|done].
  by apply IH.
Qed.

Lemma invoke_all_other_events event event' arg regs st :
  event' <> event ->
  registrations_of event' (emitter (invoke_all event arg regs st).2)
  = registrations_of event' (emitter st).
Proof.
  intros Hne. revert st. induction regs as [|r regs IH]; intros st; [done|].
  cbn [invoke_all]. unfold mbind, M_bind.
  pose proof (other_registrations_invoke event event' arg r st Hne) as Hstep.
  destruct (invoke event arg r st) as [[[]|e] st1]; cbn in *; [|done].
  by rewrite IH.
Qed.

Lemma filter_filter_once event (regs : list Registration) :
  filter (fun x => reg_once x = true) (registrations_of event regs)
  = filter (fun x => reg_event x = event /\ reg_once x = true) regs.
Proof.
  unfold registrations_of. induction regs as [|x regs IH]; [done|].
  rewrite !filter_cons. destruct (decide (reg_event x = event)) as [He|He].
  - rewrite filter_cons. destruct (decide (reg_once x = true)) as [Ho|Ho].
    + rewrite decide_True by done. by rewrite IH.
    + rewrite decide_False by tauto. done.
  - rewrite decide_False by tauto. done.
Qed.

(** X2.  After a dispatch in which no callback raises, no one-shot
    registration of the event is left, so the next dispatch reaches
    persistent callbacks only; the registrations of every other event are as
    they were. *)
Theorem emit_consumes_one_shots event arg st :
  Forall (fun r => raises (reg_listener r) = false)
    (registrations_of event (emitter st)) ->
  Forall (fun r => reg_once r = false)
    (registrations_of event (emitter (emit event arg st).2))
  /\ (forall event', event' <> event ->
        registrations_of event' (emitter (emit event arg st).2)
        = registrations_of event' (emitter st)).
Proof.
  intros Hquiet. rewrite emit_unfold.
  destruct (registrations_of event (emitter st)) as [|r regs] eqn:Hregs.
  - split.
    + case_match; cbn; rewrite Hregs; constructor.
    + intros event' _. by case_match.
  - assert (Forall (fun x => reg_event x = event) (r :: regs)) as Hev.
    { rewrite <- Hregs. unfold registrations_of. apply Forall_forall.
      intros x Hx. by apply list_elem_of_filter in Hx as [Hx _]. }
    pose proof (invoke_all_consumes_once event arg (r :: regs) st Hquiet Hev)
      as Hnone.
    rewrite <- Hregs, filter_filter_once in Hnone. specialize (Hnone eq_refl).
    rewrite Hregs in Hnone.
    pose proof (fun e' => invoke_all_other_events event e' arg (r :: regs) st)
      as Hother.
    assert (forall st1,
               filter (fun x => reg_event x = event /\ reg_once x = true)
                 (emitter st1) = [] ->
               Forall (fun r => reg_once r = false)
                 (registrations_of event (emitter st1))) as Hdone.
    { intros st1 H1. rewrite <- filter_filter_once in H1.
      apply Forall_forall. intros x Hx.
      destruct (reg_once x) eqn:Ho; [|done].
      assert (x ∈ filter (fun x => reg_once x = true)
                    (registrations_of event (emitter st1))) as Hin
        by (by apply list_elem_of_filter).
      rewrite H1 in Hin. by apply not_elem_of_nil in Hin. }
    destruct (invoke_all event arg (r :: regs) st) as [[[]|e] st1]; cbn in *;
      (split; [by apply Hdone | done]).
Qed.

(** X3.  [off] undoes [on]: after registering a callback with [on] and
    removing it with [off], the listener array of the emitter is as it was
    before. *)
Theorem on_then_off event listener st :
  emitter ((addListener event listener false;;
            removeListener event listener) st).2
  = emitter st.
Proof.
  unfold addListener, removeListener. run_m. unfold emitter_removeListener.
  rewrite rev_app_distr. cbn [rev app remove_first reg_event reg_once reg_listener].
  rewrite String.eqb_refl, same_listener_refl. cbn. apply rev_involutive.
Qed.

(** X4.  [off] never removes a registration made by [once]: those hold a
    wrapper of the callback, which [removeListener] does not find. *)
Theorem off_keeps_one_shots event listener st :
  filter (fun r => reg_once r = true)
    (emitter (removeListener event listener st).2)
  = filter (fun r => reg_once r = true) (emitter st).
Proof.
  unfold removeListener. run_m.
  apply filter_emitter_removeListener. intros x Hx. by right.
Qed.

(** X5.  [removeAllListeners()] and [removeAllListeners("")] leave no
    registration and no tracked callback for any event;
    [removeAllListeners(event)] with a name leaves none for that event and
    keeps the registrations of every other event. *)
Theorem removeAllListeners_clears st :
  (forall event,
      event = None \/ event = Some EmptyString ->
      emitter (removeAllListeners event st).2 = []
      /\ listeners (removeAllListeners event st).2 = ∅
      /\ onceListeners (removeAllListeners event st).2 = ∅)
  /\ (forall event,
        event <> EmptyString ->
        registrations_of event (emitter (removeAllListeners (Some event) st).2)
        = []
        /\ forall event', event' <> event ->
             registrations_of event'
               (emitter (removeAllListeners (Some event) st).2)
             = registrations_of event' (emitter st)).
Proof.
  split.
  - intros event [->| ->]; by run_m.
  - intros event Hne. destruct event as [|c s]; [done|].
    unfold removeAllListeners. run_m. unfold registrations_of. split.
    + induction (emitter st) as [|x regs IH]; [done|].
      rewrite filter_cons. destruct (decide (reg_event x <> String c s)).
      * rewrite filter_cons_False by done. done.
      * done.
    + intros event' Hne'. induction (emitter st) as [|x regs IH]; [done|].
      rewrite !filter_cons. destruct (decide (reg_event x = event')) as [He|He].
      * rewrite decide_True by congruence. rewrite filter_cons_True by done.
        by rewrite IH.
      * destruct (decide (reg_event x <> String c s)); [|done].
        by rewrite filter_cons_False.
Qed.

Lemma remove_first_app_skip (P : Registration -> bool) regs tail :
  Forall (fun x => P x = false) regs ->
  remove_first P (regs ++ tail) = regs ++ remove_first P tail.
Proof.
  induction 1 as [|x regs Hx _ IH]; [done|]. cbn. by rewrite Hx, IH.
Qed.

Lemma no_registrations_of event regs :
  registrations_of event regs = [] ->
  Forall (fun x => reg_event x <> event) regs.
Proof.
  unfold registrations_of. intros Hnone. apply Forall_forall. intros x Hx He.
  assert (x ∈ filter (fun r => reg_event r = event) regs) as Hin
    by (by apply list_elem_of_filter).
  rewrite Hnone in Hin. by apply not_elem_of_nil in Hin.
Qed.

(** X6.  A callback registered for an event with [on] and then with [once]
    is called twice by the next dispatch, and after it both registrations are
    gone: the wrapper of the one-shot registration calls [removeListener],
    which takes the persistent registration off the emitter. *)
Theorem one_shot_removes_persistent event listener arg st :
  registrations_of event (emitter st) = [] ->
  raises listener = false ->
  let st1 := ((addListener event listener false;;
               addListener event listener true) st).2 in
  effects_since st1 (emit event arg st1).2
  = [Invoked (lid listener) event arg; Invoked (lid listener) event arg]
  /\ emitter (emit event arg st1).2 = emitter st.
Proof.
  intros Hnone Hquiet. cbn zeta.
  pose proof (no_registrations_of _ _ Hnone) as Hother.
  set (rp := {| reg_event := event; reg_listener := listener; reg_once := false |}).
  set (ro := {| reg_event := event; reg_listener := listener; reg_once := true |}).
  assert (exists st1,
             (addListener event listener false;;
              addListener event listener true) st = (Normal tt, st1)
             /\ emitter st1 = emitter st ++ [rp; ro]) as (st1 & -> & Hem).
  { eexists. split; [reflexivity|]. cbn. by rewrite <- app_assoc. }
  cbn [snd].
  assert (registrations_of event (emitter st1) = [rp; ro]) as Hregs.
  { rewrite Hem. unfold registrations_of in *. rewrite filter_app, Hnone.
    rewrite !filter_cons_True by done. done. }
  rewrite emit_unfold, Hregs. cbn [invoke_all]. unfold mbind, M_bind.
  destruct (invoke_trace event arg rp st1) as [Ht1 Ho1].
  pose proof (invoke_emitter event arg rp st1) as He1.
  destruct (invoke event arg rp st1) as [[[]|e] st2]; cbn in Ht1, Ho1, He1;
    [|by rewrite Hquiet in Ho1].
  destruct (invoke_trace event arg ro st2) as [Ht2 Ho2].
  pose proof (invoke_emitter event arg ro st2) as He2.
  destruct (invoke event arg ro st2) as [[[]|e] st3]; cbn in Ht2, Ho2, He2;
    [|by rewrite Hquiet in Ho2].
  cbn. split.
  - unfold effects_since. by rewrite Ht2, Ht1, <- app_assoc, drop_trace.
  - rewrite He2, He1, Hem. unfold emitter_removeOnce, emitter_removeListener.
    rewrite (remove_first_app_skip _ (emitter st) [rp; ro]).
    + cbn. rewrite String.eqb_refl, same_listener_refl. cbn.
      rewrite rev_app_distr. cbn. rewrite String.eqb_refl, same_listener_refl.
      cbn. apply rev_involutive.
    + eapply Forall_impl; [exact Hother|]. intros x Hx. cbn.
      destruct (String.eqb_spec (reg_event x) event); [done|]. done.
Qed.

(** ** Timers *)

Lemma leaves_timers_ret {A : Type} (a : A) : leaves_timers (mret a).
Proof. done. Qed.

Lemma leaves_timers_bind {A B : Type} (m : M A) (f : A -> M B) :
  leaves_timers m -> (forall a, leaves_timers (f a)) -> leaves_timers (m ≫= f).
Proof.
  intros Hm Hf st. unfold mbind, M_bind. specialize (Hm st).
  destruct (m st) as [[a|e] st']; cbn in *; [|done].
  by rewrite Hf.
Qed.

Lemma leaves_timers_try_catch {A : Type} (m : M A) (h : exn -> M A) :
  leaves_timers m -> (forall e, leaves_timers (h e)) ->
  leaves_timers (try_catch m h).
Proof.
  intros Hm Hh st. unfold try_catch. specialize (Hm st).
  destruct (m st) as [[a|e] st']; cbn in *; [done|].
  by rewrite Hh.
Qed.

Lemma leaves_timers_get_state : leaves_timers get_state.
Proof. done. Qed.

Lemma leaves_timers_throw {A : Type} (e : exn) : leaves_timers (throw (A := A) e).
Proof. done. Qed.

Lemma leaves_timers_lift {A : Type} (c : completion A) : leaves_timers (lift c).
Proof. done. Qed.

Lemma leaves_timers_effect (e : Effect) : leaves_timers (effect e).
Proof. done. Qed.

Lemma leaves_timers_logger level msg : leaves_timers (logger level msg).
Proof. done. Qed.

Create HintDb timers discriminated.

#[local] Hint Resolve leaves_timers_ret leaves_timers_get_state
  leaves_timers_throw leaves_timers_lift leaves_timers_effect
  leaves_timers_logger : timers.

(** Statements composed of statements that leave the timers alone. *)
Ltac solve_leaves_timers :=
  repeat first
    [ solve [auto with timers]
    | apply leaves_timers_try_catch; [|intros]
    | apply leaves_timers_bind; [|intros]
    | case_match ].

(** A statement without a loop, run on every path. *)
Ltac leaves_timers_by_running :=
  intros ?; run_m; repeat case_match; by simplify_eq.

Lemma leaves_timers_log_all entries : leaves_timers (log_all entries).
Proof.
  induction entries as [|[level msg] rest IH]; [done|].
  apply leaves_timers_bind; [apply leaves_timers_logger | done].
Qed.

Lemma leaves_timers_settle call s : leaves_timers (settle call s).
Proof. unfold settle. leaves_timers_by_running. Qed.

Lemma leaves_timers_createError type message e :
  leaves_timers (createError type message e).
Proof. done. Qed.

Lemma leaves_timers_handleError error : leaves_timers (handleError error).
Proof. unfold handleError. leaves_timers_by_running. Qed.

Lemma leaves_timers_setConnectionState s : leaves_timers (setConnectionState s).
Proof. unfold setConnectionState. leaves_timers_by_running. Qed.

Lemma leaves_timers_addListener event listener once :
  leaves_timers (addListener event listener once).
Proof. unfold addListener. leaves_timers_by_running. Qed.

Lemma leaves_timers_removeListener event listener :
  leaves_timers (removeListener event listener).
Proof. done. Qed.

Lemma leaves_timers_removeAllListeners event :
  leaves_timers (removeAllListeners event).
Proof. unfold removeAllListeners. leaves_timers_by_running. Qed.

Lemma leaves_timers_invoke event arg r : leaves_timers (invoke event arg r).
Proof. unfold invoke, removeListener. leaves_timers_by_running. Qed.

Lemma leaves_timers_invoke_all event arg regs :
  leaves_timers (invoke_all event arg regs).
Proof.
  induction regs as [|r rest IH]; [done|].
  apply leaves_timers_bind; [apply leaves_timers_invoke | done].
Qed.

#[local] Hint Resolve leaves_timers_log_all leaves_timers_settle
  leaves_timers_createError leaves_timers_handleError
  leaves_timers_setConnectionState leaves_timers_addListener
  leaves_timers_removeListener leaves_timers_removeAllListeners
  leaves_timers_invoke_all : timers.

Lemma leaves_timers_emit event arg : leaves_timers (emit event arg).
Proof.
  unfold emit. apply leaves_timers_bind; [apply leaves_timers_get_state|].
  intros st. destruct (registrations_of event (emitter st)) as [|r rest];
    solve_leaves_timers.
Qed.

#[local] Hint Resolve leaves_timers_emit : timers.

Lemma leaves_timers_on_message text : leaves_timers (on_message text).
Proof.
  unfold on_message. apply leaves_timers_bind; [apply leaves_timers_get_state|].
  intros st. destruct (parseMessage parseJSON text) as [logs result].
  solve_leaves_timers.
Qed.

Lemma leaves_timers_heartbeat : leaves_timers heartbeat.
Proof. unfold heartbeat. leaves_timers_by_running. Qed.

Lemma leaves_timers_connect by_ : leaves_timers (connect by_).
Proof. unfold connect. solve_leaves_timers; done. Qed.

Lemma leaves_timers_connect_resume call chatroomId :
  leaves_timers (connect_resume call chatroomId).
Proof. unfold connect_resume. solve_leaves_timers; done. Qed.

Lemma leaves_timers_close_socket sock : leaves_timers (close_socket sock).
Proof. unfold close_socket. solve_leaves_timers; done. Qed.

#[local] Hint Resolve leaves_timers_on_message leaves_timers_heartbeat
  leaves_timers_connect leaves_timers_connect_resume
  leaves_timers_close_socket : timers.

Lemma leaves_keeps {A : Type} (P : Timers -> Prop) (m : M A) :
  leaves_timers m -> keeps P m.
Proof. intros Hm st HP. by rewrite Hm. Qed.

Lemma keeps_bind {A B : Type} (P : Timers -> Prop) (m : M A) (f : A -> M B) :
  keeps P m -> (forall a, keeps P (f a)) -> keeps P (m ≫= f).
Proof.
  intros Hm Hf st HP. unfold mbind, M_bind. specialize (Hm st HP).
  destruct (m st) as [[a|e] st']; cbn in *; [|done].
  by apply Hf.
Qed.

(** The statements that set or clear a timer, each with the assignment of
    the variable that holds it. *)
Lemma startHeartbeat_tracked : keeps timers_tracked startHeartbeat.
Proof.
  intros st. unfold startHeartbeat, setInterval, timers_tracked. run_m.
  case_match; [done|]. cbn. intros [Hhb Hrt]. split; [|done].
  destruct (heartbeatTimer st) as [timer|] eqn:Htimer.
  { by rewrite orb_true_r in *. }
  intros i. destruct (decide (i = length (intervals st))) as [->|Hi].
  - by rewrite lookup_app_r, Nat.sub_diag by lia.
  - split; [|by intros [= <-]].
    intros Hlook.
    apply lookup_app_Some in Hlook as [Hlook|[Hlen Hlook]].
    + by apply Hhb in Hlook.
    + apply list_lookup_singleton_Some in Hlook as [? _]. lia.
Qed.

Lemma stopHeartbeat_tracked : keeps timers_tracked stopHeartbeat.
Proof.
  intros st. unfold stopHeartbeat, clearInterval, timers_tracked. run_m.
  destruct (heartbeatTimer st) as [timer|] eqn:Htimer;
    [|cbn; by rewrite Htimer].
  cbn. intros [Hhb Hrt]. split; [|done].
  intros i. split; [|done]. intros Hlook.
  apply list_lookup_insert_Some in Hlook as [(_ & [=] & _)|[Hne Hlook]].
  apply Hhb in Hlook. by simplify_eq.
Qed.

Lemma scheduleReconnect_tracked : keeps timers_tracked scheduleReconnect.
Proof.
  intros st. unfold scheduleReconnect, setTimeout, timers_tracked. run_m.
  case_match; [done|]. cbn. intros [Hhb Hrt]. split; [done|].
  intros timer [= <-]. eexists.
  by rewrite lookup_app_r, Nat.sub_diag by lia.
Qed.

Lemma clear_reconnectTimer_tracked timer :
  keeps timers_tracked (clearTimeout timer;; modify (set_reconnectTimer None)).
Proof. intros st. unfold clearTimeout, timers_tracked. run_m. by intros [? _]. Qed.

Lemma set_reconnectTimer_None_tracked :
  keeps timers_tracked (modify (set_reconnectTimer None)).
Proof. intros st. unfold timers_tracked. run_m. by intros [? _]. Qed.

Lemma set_isDisconnected_tracked b :
  keeps timers_tracked (modify (set_isDisconnected b)).
Proof. intros st. by unfold timers_tracked. Qed.

Lemma startHeartbeat_disarmed n : keeps (disarmed n) startHeartbeat.
Proof.
  intros st. unfold startHeartbeat, setInterval, disarmed. run_m.
  by case_match.
Qed.

Lemma stopHeartbeat_disarmed n : keeps (disarmed n) stopHeartbeat.
Proof.
  intros st. unfold stopHeartbeat, clearInterval, disarmed. run_m.
  by case_match.
Qed.

(** After [disconnect], [scheduleReconnect] sets no timeout. *)
Lemma scheduleReconnect_disarmed n : keeps (disarmed n) scheduleReconnect.
Proof.
  intros st. unfold scheduleReconnect, setTimeout, disarmed. run_m.
  intros [Hdisc Hlen]. rewrite Hdisc, orb_true_r. by cbn.
Qed.

Lemma clear_reconnectTimer_disarmed n timer :
  keeps (disarmed n) (clearTimeout timer;; modify (set_reconnectTimer None)).
Proof.
  intros st. unfold clearTimeout, disarmed. run_m.
  by rewrite length_insert.
Qed.

Lemma set_reconnectTimer_None_disarmed n :
  keeps (disarmed n) (modify (set_reconnectTimer None)).
Proof. intros st. by unfold disarmed. Qed.

Lemma set_isDisconnected_disarmed n :
  keeps (disarmed n) (modify (set_isDisconnected true)).
Proof. intros st. unfold disarmed. run_m. by intros [_ ?]. Qed.

Lemma leaves_timers_set_socket v : leaves_timers (modify (set_socket v)).
Proof. done. Qed.

Lemma leaves_timers_set_channelInfo v : leaves_timers (modify (set_channelInfo v)).
Proof. done. Qed.

Lemma leaves_timers_set_reconnectAttempts f :
  leaves_timers (modify (fun st => set_reconnectAttempts (f st) st)).
Proof. done. Qed.

#[local] Hint Resolve leaves_timers_set_socket leaves_timers_set_channelInfo
  leaves_timers_set_reconnectAttempts : timers.

(** The handlers are sequences of the statements above. *)
Ltac solve_keeps :=
  repeat first
    [ solve [auto with timers]
    | solve [apply leaves_keeps; solve_leaves_timers]
    | apply keeps_bind; [|intros]
    | case_match ].

Lemma timers_handle_reconnect st :
  timers (handle reconnect st) = timers (set_reconnectTimer None st).
Proof.
  unfold reconnect, handle, mbind, M_bind, modify.
  pose proof (leaves_timers_connect ByReconnectTimer
                (set_reconnectTimer None st)) as Hc.
  by destruct (connect ByReconnectTimer _) as [[a|e] st1].
Qed.

Section Keeps.

Variable P : Timers -> Prop.
Hypothesis startHeartbeat_keeps : keeps P startHeartbeat.
Hypothesis stopHeartbeat_keeps : keeps P stopHeartbeat.
Hypothesis scheduleReconnect_keeps : keeps P scheduleReconnect.
Hypothesis clear_reconnectTimer_keeps : forall timer,
  keeps P (clearTimeout timer;; modify (set_reconnectTimer None)).
Hypothesis set_reconnectTimer_None_keeps :
  keeps P (modify (set_reconnectTimer None)).
Hypothesis set_isDisconnected_keeps :
  keeps P (modify (set_isDisconnected true)).
Hypothesis timeout_fired_keeps : forall st timer,
  P (timers st) ->
  P (timers (set_reconnectTimer None
               (set_timeouts (<[timer := None]> (timeouts st)) st))).

#[local] Hint Resolve startHeartbeat_keeps stopHeartbeat_keeps
  scheduleReconnect_keeps clear_reconnectTimer_keeps
  set_reconnectTimer_None_keeps set_isDisconnected_keeps : timers.

Lemma on_open_keeps call : keeps P (on_open call).
Proof. unfold on_open. solve_keeps. Qed.

Lemma on_close_keeps : keeps P on_close.
Proof. unfold on_close. solve_keeps. Qed.

Lemma on_error_keeps call : keeps P (on_error call).
Proof. unfold on_error. solve_keeps. Qed.

Lemma disconnect_keeps : keeps P disconnect.
Proof. unfold disconnect. solve_keeps. Qed.

Lemma reconnect_catch_keeps : keeps P reconnect_catch.
Proof. unfold reconnect_catch. solve_keeps. Qed.

Lemma handle_keeps m st : keeps P m -> P (timers st) -> P (timers (handle m st)).
Proof.
  intros Hm HP. specialize (Hm st HP). unfold handle.
  by destruct (m st) as [[a|e] st'].
Qed.

Lemma timers_set_readyState sock rs st :
  timers (set_readyState sock rs st) = timers st.
Proof. unfold set_readyState. by case_match. Qed.

Lemma timers_set_promises v st : timers (set_promises v st) = timers st.
Proof. done. Qed.

Lemma socket_event_keeps sock from to listener st st' :
  (forall ws, keeps P (listener ws)) ->
  socket_event sock from to listener st = Some st' ->
  P (timers st) -> P (timers st').
Proof.
  intros Hl Hev HP. unfold socket_event in Hev.
  repeat case_match; simplify_eq;
    [apply handle_keeps; [done|]|]; by rewrite timers_set_readyState.
Qed.

Lemma step_keeps ev st st' :
  step ev st = Some st' -> P (timers st) -> P (timers st').
Proof.
  intros Hstep HP. destruct ev; cbn in Hstep.
  - simplify_eq. apply handle_keeps; [solve_keeps | done].
  - simplify_eq. apply handle_keeps; [apply disconnect_keeps | done].
  - simplify_eq. apply handle_keeps; [solve_keeps | done].
  - simplify_eq. apply handle_keeps; [solve_keeps | done].
  - simplify_eq. apply handle_keeps; [solve_keeps | done].
  - simplify_eq. apply handle_keeps; [solve_keeps | done].
  - repeat case_match; simplify_eq. apply handle_keeps; [solve_keeps | done].
  - eapply socket_event_keeps; [|done..]. intros ws.
    apply keeps_bind; [solve_keeps | intros; apply on_open_keeps].
  - eapply socket_event_keeps; [|done..]. intros ws. solve_keeps.
  - eapply socket_event_keeps; [|done..]. intros ws. apply on_error_keeps.
  - eapply socket_event_keeps; [|done..]. intros ws. apply on_close_keeps.
  - eapply socket_event_keeps; [|done..]. intros ws. unfold on_pong. solve_keeps.
  - eapply socket_event_keeps; [|done..]. intros ws. solve_keeps.
  - repeat case_match; simplify_eq.
    rewrite timers_handle_reconnect. by apply timeout_fired_keeps.
  - repeat case_match; simplify_eq. apply handle_keeps; [solve_keeps | done].
  - repeat case_match; simplify_eq.
    apply handle_keeps; [apply reconnect_catch_keeps | done].
Qed.

Lemma run_keeps events st st' :
  run events st = Some st' -> P (timers st) -> P (timers st').
Proof.
  revert st. induction events as [|ev rest IH]; intros st Hrun HP; cbn in Hrun.
  - by simplify_eq.
  - destruct (step ev st) as [st1|] eqn:Hstep; [|done].
    eapply IH; [done|]. by eapply step_keeps.
Qed.

End Keeps.

Lemma timers_createClient : timers createClient = (false, None, [], None, []).
Proof.
  unfold createClient. destruct (readOnly options); [|done].
  unfold handle.
  match goal with |- context [match ?m created with _ => _ end] =>
    assert (leaves_timers m) as Hc by solve_leaves_timers;
    specialize (Hc created); by destruct (m created) as [[a|e] st1]
  end.
Qed.

Lemma reachable_timers_tracked st : reachable st -> timers_tracked (timers st).
Proof.
  intros [events Hrun].
  eapply (run_keeps timers_tracked);
    eauto using startHeartbeat_tracked, stopHeartbeat_tracked,
      scheduleReconnect_tracked, clear_reconnectTimer_tracked,
      set_reconnectTimer_None_tracked, set_isDisconnected_tracked.
  - intros st0 timer. unfold timers_tracked. cbn. by intros [? _].
  - rewrite timers_createClient. unfold timers_tracked. split; [|done].
    intros i. by rewrite lookup_nil.
Qed.

(** X7. At any moment of a run at most one interval of the runtime is
    active, and it is the one [heartbeatTimer] holds: [startHeartbeat] never
    sets a second interval and [stopHeartbeat] never leaves one behind. *)
Theorem heartbeat_interval_tracked st i :
  reachable st ->
  intervals st !! i = Some true <-> heartbeatTimer st = Some i.
Proof.
  intros Hst. apply reachable_timers_tracked in Hst.
  unfold timers_tracked, timers in Hst. by destruct Hst as [Hhb _].
Qed.

(** X8. At any moment of a run the timer [reconnectTimer] holds is a
    timeout that is still pending: when it fires or is cleared the variable
    is reset. *)
Theorem reconnectTimer_pending st timer :
  reachable st ->
  reconnectTimer st = Some timer ->
  exists delay, timeouts st !! timer = Some (Some delay).
Proof.
  intros Hst. apply reachable_timers_tracked in Hst.
  unfold timers_tracked, timers in Hst. destruct Hst as [_ Hrt]. apply Hrt.
Qed.

(** X9.  Once [disconnect] has been called no later handler sets a
    timeout, whatever events follow: [scheduleReconnect] refuses, so the
    timeouts of the runtime are the ones that existed before. *)
Theorem no_timeout_after_disconnect events later st st' :
  run events createClient = Some st ->
  In CallDisconnect events ->
  run later st = Some st' ->
  length (timeouts st') = length (timeouts st)
  /\ isDisconnected st' = true.
Proof.
  intros Hrun Hin Hlater.
  pose proof (run_after_disconnect _ _ _ Hrun Hin) as Hd.
  assert (disarmed (length (timeouts st)) (timers st')) as [Hd' Hlen].
  { eapply (run_keeps (disarmed (length (timeouts st))));
      eauto using startHeartbeat_disarmed, stopHeartbeat_disarmed,
        scheduleReconnect_disarmed, clear_reconnectTimer_disarmed,
        set_reconnectTimer_None_disarmed, set_isDisconnected_disarmed.
    - intros st0 timer. unfold disarmed. cbn. by rewrite length_insert.
    - by unfold disarmed. }
  done.
Qed.

(** ** Frames *)

Lemma invoke_beyond_listeners event arg r st :
  beyond_listeners (invoke event arg r st).2 = beyond_listeners st.
Proof.
  unfold invoke, removeListener. run_m.
  destruct (reg_once r), (raises (reg_listener r)); by run_m.
Qed.

Lemma invoke_all_beyond_listeners event arg regs st :
  beyond_listeners (invoke_all event arg regs st).2 = beyond_listeners st.
Proof.
  revert st. induction regs as [|r rest IH]; intros st; [done|].
  cbn [invoke_all]. unfold mbind, M_bind.
  pose proof (invoke_beyond_listeners event arg r st) as Hr.
  destruct (invoke event arg r st) as [[[]|e] st1]; cbn in *; [|done].
  by rewrite IH.
Qed.

Lemma emit_beyond_listeners event arg st :
  beyond_listeners (emit event arg st).2 = beyond_listeners st.
Proof.
  rewrite emit_unfold.
  destruct (registrations_of event (emitter st)) as [|r regs]; [by case_match|].
  pose proof (invoke_all_beyond_listeners event arg (r :: regs) st) as Hregs.
  by destruct (invoke_all event arg (r :: regs) st) as [[[]|e] st1].
Qed.

(** What [emit] does when no callback raises, and when one does. *)
Lemma emit_quiet event arg st :
  Forall (fun r => raises (reg_listener r) = false)
    (registrations_of event (emitter st)) ->
  registrations_of event (emitter st) <> [] \/ event <> "error" ->
  exists b st',
    emit event arg st = (Normal b, st')
    /\ trace st'
       = trace st ++ map (fun r => Invoked (lid (reg_listener r)) event arg)
                       (registrations_of event (emitter st))
    /\ beyond_listeners st' = beyond_listeners st.
Proof.
  intros Hquiet Hsome.
  pose proof (emit_beyond_listeners event arg st) as Hframe.
  rewrite emit_unfold in *.
  destruct (registrations_of event (emitter st)) as [|r regs] eqn:Hregs.
  - destruct Hsome as [|Hev]; [done|].
    apply String.eqb_neq in Hev. rewrite Hev in *.
    eexists _, _. split; [done|]. cbn. by rewrite app_nil_r.
  - destruct (invoke_all_quiet event arg (r :: regs) st Hquiet) as [Hout Htrace].
    destruct (invoke_all event arg (r :: regs) st) as [[[]|e] st1];
      cbn in *; [|done].
    by eexists _, _.
Qed.

Lemma emit_raising event arg st before r after :
  registrations_of event (emitter st) = before ++ r :: after ->
  Forall (fun x => raises (reg_listener x) = false) before ->
  raises (reg_listener r) = true ->
  exists st',
    emit event arg st = (Throw (ListenerRaised (lid (reg_listener r))), st')
    /\ trace st'
       = trace st ++ map (fun x => Invoked (lid (reg_listener x)) event arg)
                       (before ++ [r])
    /\ beyond_listeners st' = beyond_listeners st.
Proof.
  intros Hregs Hbefore Hr.
  pose proof (emit_beyond_listeners event arg st) as Hframe.
  destruct (invoke_all_stops event arg before r after st Hbefore Hr)
    as [Hout Htrace].
  rewrite emit_unfold in *. rewrite Hregs in *.
  destruct (before ++ r :: after) as [|x regs] eqn:Happ.
  { by destruct before. }
  destruct (invoke_all event arg (x :: regs) st) as [[[]|e] st1];
    cbn in *; [done|].
  injection Hout as ->. by eexists.
Qed.

(** ** The handler of [message] *)

Lemma parseMessage_well_formed tag kind frame payload :
  In (tag, kind) event_table ->
  well_formed_envelope frame tag payload ->
  exists logs,
    parseMessage parseJSON frame
    = (logs, Normal (Some {| ParsedMessage.type := kind;
                             ParsedMessage.data := payload |}))
    /\ (is_pusher_kind kind = false -> logs = []).
Proof.
  intros Hin (fields & text & Hframe & Hevent & Hdata & Htext).
  unfold parseMessage, parseMessage_try. rewrite Hframe. cbn [get_prop].
  rewrite Hevent.
  unfold event_table in Hin. cbn [In] in Hin.
  repeat (destruct Hin as [[= <- <-]|Hin];
          [cbn; unfold decoded; cbn [get_prop]; rewrite Hdata, Htext;
           eexists; split; done|]).
  destruct Hin.
Qed.

Lemma is_pusher_kind_false kind :
  is_pusher_kind kind = false ->
  String.eqb kind "PusherConnectionEstablished" = false
  /\ String.eqb kind "PusherSubscriptionSucceeded" = false
  /\ String.eqb kind "PusherPong" = false
  /\ String.eqb kind "PusherPing" = false
  /\ String.eqb kind "PusherError" = false.
Proof.
  unfold is_pusher_kind. intros H.
  repeat (apply orb_false_iff in H as [H ?]). done.
Qed.

(** A decoded event that is dispatched as it is. *)
Lemma on_message_dispatch frame logs kind data st :
  isDisconnected st = false ->
  parseMessage parseJSON frame
  = (logs, Normal (Some {| ParsedMessage.type := kind;
                           ParsedMessage.data := data |})) ->
  is_pusher_kind kind = false ->
  (kind = "ChatMessage" -> plainEmote options = false) ->
  on_message frame st
  = match emit kind (DataArg data)
            (set_trace (trace st ++ map (fun e => Logged e.1 e.2) logs) st) with
    | (Normal _, st') => (Normal tt, st')
    | (Throw e, st') => handleError (message_error e st') st'
    end.
Proof.
  intros Hd Hparse Hkind Hplain.
  apply is_pusher_kind_false in Hkind as (H1 & H2 & H3 & H4 & H5).
  unfold on_message, try_catch. run_m. rewrite Hd, Hparse. run_m.
  rewrite log_all_trace. run_m.
  destruct (String.eqb_spec kind "ChatMessage") as [->|_].
  - rewrite Hplain by done. run_m.
    by destruct (emit _ _ _) as [[b|e] st1].
  - rewrite H1, H2, H3, H4, H5. run_m.
    by destruct (emit _ _ _) as [[b|e] st1].
Qed.

(** A chat message under [plainEmote]. *)
Lemma on_message_plainEmote frame logs data st :
  isDisconnected st = false ->
  parseMessage parseJSON frame
  = (logs, Normal (Some {| ParsedMessage.type := "ChatMessage";
                           ParsedMessage.data := data |})) ->
  plainEmote options = true ->
  on_message frame st
  = let st0 := set_trace (trace st ++ map (fun e => Logged e.1 e.2) logs) st in
    match plainEmote_rewrite data with
    | Normal messageData =>
        match emit "ChatMessage" (DataArg messageData) st0 with
        | (Normal _, st') => (Normal tt, st')
        | (Throw e, st') => handleError (message_error e st') st'
        end
    | Throw e => handleError (message_error e st0) st0
    end.
Proof.
  intros Hd Hparse Hplain.
  unfold on_message, try_catch. run_m. rewrite Hd, Hparse. run_m.
  rewrite log_all_trace. run_m. rewrite Hplain.
  destruct (plainEmote_rewrite data) as [messageData|e]; run_m; [|done].
  by destruct (emit _ _ _) as [[b|e] st1].
Qed.

Lemma handleError_trace error st :
  handleError error st
  = (Normal tt,
     set_trace (trace st ++ Logged LError "KickClient Error"
                              :: (if onError options
                                  then [ErrorCallback error] else [])) st).
Proof.
  unfold handleError. run_m. destruct (onError options); run_m.
  - unfold set_trace. cbn. by rewrite <- app_assoc.
  - done.
Qed.

(** X10.  On a client that was not disconnected, a well-formed frame of an
    application kind calls the callbacks registered for that kind, each
    once, in the order of registration and with the decoded payload, and no
    other callback, when none of them raises and the markup of a chat
    message is kept ([plainEmote] off); the handler returns normally.  When
    no callback is registered for the kind, the frame changes nothing. *)
Theorem application_frame_dispatched tag kind frame payload st :
  In (tag, kind) event_table ->
  is_pusher_kind kind = false ->
  well_formed_envelope frame tag payload ->
  isDisconnected st = false ->
  (kind = "ChatMessage" -> plainEmote options = false) ->
  Forall (fun r => raises (reg_listener r) = false)
    (registrations_of kind (emitter st)) ->
  (on_message frame st).1 = Normal tt
  /\ invocations (effects_since st (on_message frame st).2)
     = map (fun r => Invoked (lid (reg_listener r)) kind (DataArg payload))
         (registrations_of kind (emitter st))
  /\ (registrations_of kind (emitter st) = [] -> (on_message frame st).2 = st).
Proof.
  intros Hin Hkind Hframe Hd Hplain Hquiet.
  destruct (parseMessage_well_formed _ _ _ _ Hin Hframe) as (logs & Hparse & Hlogs).
  rewrite (Hlogs Hkind) in Hparse.
  rewrite (on_message_dispatch _ _ _ _ _ Hd Hparse Hkind Hplain).
  cbn [map]. rewrite app_nil_r.
  assert (set_trace (trace st) st = st) as -> by (by destruct st).
  assert (String.eqb kind "error" = false) as Hkind'.
  { apply String.eqb_neq. intros ->. unfold event_table in Hin. cbn [In] in Hin.
    repeat (destruct Hin as [[=]|Hin]). destruct Hin. }
  split; [|split].
  - destruct (emit_quiet kind (DataArg payload) st Hquiet)
      as (b & st' & -> & _); [|done].
    right. by apply String.eqb_neq.
  - destruct (emit_quiet kind (DataArg payload) st Hquiet)
      as (b & st' & -> & Htrace & _).
    { right. by apply String.eqb_neq. }
    cbn. unfold effects_since. rewrite Htrace, drop_trace.
    unfold invocations. apply forallb_filter_id.
    rewrite forallb_forall. intros e He.
    apply in_map_iff in He as (r & <- & _). done.
  - intros Hnone. by rewrite emit_unfold, Hnone, Hkind'.
Qed.

(** X11.  A well-formed frame of the Pusher protocol is logged and nothing
    else: no callback is called, no error is reported and no variable of the
    client changes. *)
Theorem pusher_frame_only_logged tag kind frame payload st :
  In (tag, kind) event_table ->
  is_pusher_kind kind = true ->
  well_formed_envelope frame tag payload ->
  exists logs,
    on_message frame st
    = (Normal tt, set_trace (trace st ++ map (fun e => Logged e.1 e.2) logs) st).
Proof.
  intros Hin Hkind Hframe.
  destruct (parseMessage_well_formed _ _ _ _ Hin Hframe) as (logs & Hparse & _).
  unfold on_message, try_catch. run_m.
  destruct (isDisconnected st).
  { exists []. cbn. rewrite app_nil_r. by destruct st. }
  rewrite Hparse. run_m. rewrite log_all_trace. run_m.
  unfold event_table in Hin. cbn [In] in Hin.
  repeat (destruct Hin as [[= <- <-]|Hin]; [try done|]); [..|destruct Hin].
  all: cbn; eexists (logs ++ [(_, _)]); rewrite map_app; unfold set_trace; cbn;
    by rewrite <- !app_assoc.
Qed.

(** X12.  With [plainEmote] on, the callbacks of [ChatMessage] receive the
    decoded payload with the emote markup of its [content] replaced by the
    emote names, and every other member as it was. *)
Theorem chat_message_plain_emotes frame fields content st :
  plainEmote options = true ->
  well_formed_envelope frame "App\Events\ChatMessageEvent" (JObj fields) ->
  lookup_last "content" fields = Some (JStr content) ->
  isDisconnected st = false ->
  Forall (fun r => raises (reg_listener r) = false)
    (registrations_of "ChatMessage" (emitter st)) ->
  (on_message frame st).1 = Normal tt
  /\ effects_since st (on_message frame st).2
     = map (fun r =>
              Invoked (lid (reg_listener r)) "ChatMessage"
                (DataArg (JObj (set_prop "content"
                                  (JStr (replace_emotes content)) fields))))
         (registrations_of "ChatMessage" (emitter st)).
Proof.
  intros Hplain Hframe Hcontent Hd Hquiet.
  destruct (parseMessage_well_formed "App\Events\ChatMessageEvent" "ChatMessage"
              _ _ ltac:(by left) Hframe) as (logs & Hparse & Hlogs).
  rewrite (Hlogs eq_refl) in Hparse.
  rewrite (on_message_plainEmote _ _ _ _ Hd Hparse Hplain).
  cbn [map plainEmote_rewrite]. rewrite Hcontent, app_nil_r.
  assert (set_trace (trace st) st = st) as -> by (by destruct st).
  destruct (emit_quiet "ChatMessage"
              (DataArg (JObj (set_prop "content"
                                (JStr (replace_emotes content)) fields)))
              st Hquiet) as (b & st' & -> & Htrace & Hrest); [by right|].
  cbn. split; [done|].
  unfold effects_since. by rewrite Htrace, drop_trace.
Qed.

(** X13.  With [plainEmote] on, a chat message whose payload has no string
    as [content] reaches no callback: the exception of the rewrite is caught
    and reported to [onError] as a WEBSOCKET error, and the handler returns
    normally. *)
Theorem plain_emote_failure_reported frame payload st :
  plainEmote options = true ->
  well_formed_envelope frame "App\Events\ChatMessageEvent" payload ->
  (forall fields content,
      payload = JObj fields -> lookup_last "content" fields <> Some (JStr content)) ->
  isDisconnected st = false ->
  on_message frame st
  = (Normal tt,
     set_trace
       (trace st
        ++ Logged LError "KickClient Error"
           :: (if onError options
               then [ErrorCallback (message_error TypeError st)] else [])) st).
Proof.
  intros Hplain Hframe Hcontent Hd.
  destruct (parseMessage_well_formed "App\Events\ChatMessageEvent" "ChatMessage"
              _ _ ltac:(by left) Hframe) as (logs & Hparse & Hlogs).
  rewrite (Hlogs eq_refl) in Hparse.
  rewrite (on_message_plainEmote _ _ _ _ Hd Hparse Hplain).
  cbn [map]. rewrite app_nil_r.
  assert (set_trace (trace st) st = st) as -> by (by destruct st).
  assert (plainEmote_rewrite payload = Throw TypeError) as ->.
  { destruct payload as [| | | | |fields]; try done. cbn.
    specialize (Hcontent fields).
    destruct (lookup_last "content" fields) as [[]|]; try done.
    by edestruct Hcontent. }
  apply handleError_trace.
Qed.

(** X14.  An exception of a callback of an application kind does not leave
    the handler of [message]: the callbacks registered before it and the
    callback itself have run, the later ones are skipped, and the exception
    is reported to [onError] as a WEBSOCKET error with the message of a parse
    failure. *)
Theorem listener_exception_reported tag kind frame payload st before r after :
  In (tag, kind) event_table ->
  is_pusher_kind kind = false ->
  well_formed_envelope frame tag payload ->
  isDisconnected st = false ->
  (kind = "ChatMessage" -> plainEmote options = false) ->
  registrations_of kind (emitter st) = before ++ r :: after ->
  Forall (fun x => raises (reg_listener x) = false) before ->
  raises (reg_listener r) = true ->
  (on_message frame st).1 = Normal tt
  /\ effects_since st (on_message frame st).2
     = map (fun x => Invoked (lid (reg_listener x)) kind (DataArg payload))
         (before ++ [r])
       ++ Logged LError "KickClient Error"
          :: (if onError options
              then [ErrorCallback
                      (message_error (ListenerRaised (lid (reg_listener r))) st)]
              else []).
Proof.
  intros Hin Hkind Hframe Hd Hplain Hregs Hbefore Hr.
  destruct (parseMessage_well_formed _ _ _ _ Hin Hframe) as (logs & Hparse & Hlogs).
  rewrite (Hlogs Hkind) in Hparse.
  rewrite (on_message_dispatch _ _ _ _ _ Hd Hparse Hkind Hplain).
  cbn [map]. rewrite app_nil_r.
  assert (set_trace (trace st) st = st) as -> by (by destruct st).
  destruct (emit_raising kind (DataArg payload) st before r after Hregs Hbefore Hr)
    as (st' & -> & Htrace & Hrest).
  rewrite handleError_trace. cbn. split; [done|].
  unfold effects_since, set_trace. cbn [trace].
  rewrite Htrace, <- app_assoc, drop_trace.
  unfold message_error. by replace (connectionState st') with (connectionState st)
    by (unfold beyond_listeners in Hrest; congruence).
Qed.

(** X15.  Once [disconnect] has been called, a frame of any socket changes
    nothing: it is not decoded, not logged and not dispatched. *)
Theorem message_after_disconnect events st sock frame st' :
  run events createClient = Some st ->
  In CallDisconnect events ->
  step (SocketMessage sock frame) st = Some st' ->
  st' = st.
Proof.
  intros Hrun Hin Hstep.
  pose proof (run_after_disconnect _ _ _ Hrun Hin) as Hd.
  cbn [step] in Hstep. unfold socket_event in Hstep.
  destruct (sockets st !! sock) as [ws|] eqn:Hws; [|done].
  destruct (is_state _ _); [|done]. unfold id in Hstep.
  assert (set_readyState sock (WebSocket.readyState ws) st = st) as Hsame.
  { unfold set_readyState. rewrite Hws. destruct ws. cbn.
    rewrite list_insert_id by done. by destruct st. }
  rewrite Hsame in Hstep. injection Hstep as <-.
  destruct (WebSocket.ownListeners ws); [|done].
  unfold handle, on_message. run_m. by rewrite Hd.
Qed.

(** ** Connecting and disconnecting *)



Lemma disconnect_when_clean st :
  isDisconnected st = true ->
  connectionState st = ConnectionState.DISCONNECTED ->
  socket st = None -> channelInfo st = None -> reconnectAttempts st = 0 ->
  reconnectTimer st = None -> heartbeatTimer st = None ->
  emitter st = [] -> listeners st = ∅ -> onceListeners st = ∅ ->
  disconnect st
  = (Normal tt,
     set_trace (trace st ++ [Logged LInfo "Disconnecting client...";
                             Logged LInfo "Client disconnected and cleaned up"])
       st).
Proof.
  destruct st. cbn. intros. subst.
  unfold disconnect, stopHeartbeat, setConnectionState, removeAllListeners.
  run_m. rewrite bool_decide_eq_true_2 by done. run_m.
  unfold clearTimeout, set_trace. cbn. by rewrite <- ?app_assoc.
Qed.

Lemma disconnect_result st :
  let st' := (disconnect st).2 in
  (disconnect st).1 = Normal tt
  /\ isDisconnected st' = true
  /\ connectionState st' = ConnectionState.DISCONNECTED
  /\ socket st' = None
  /\ channelInfo st' = None
  /\ reconnectAttempts st' = 0
  /\ reconnectTimer st' = None
  /\ heartbeatTimer st' = None
  /\ timeouts st'
     = match reconnectTimer st with
       | Some timer => <[timer := None]> (timeouts st)
       | None => timeouts st
       end
  /\ intervals st'
     = match heartbeatTimer st with
       | Some timer => <[timer := false]> (intervals st)
       | None => intervals st
       end
  /\ emitter st' = []
  /\ listeners st' = ∅
  /\ onceListeners st' = ∅.
Proof.
  cbn zeta.
  unfold disconnect, stopHeartbeat, clearTimeout, clearInterval, close_socket,
    setConnectionState, removeAllListeners.
  repeat (run_m; try split_cond). all: done.
Qed.

(** X18.  A [disconnect] that announces no change of state to a callback
    (no [onConnectionStateChange], or a client that is DISCONNECTED) calls
    no callback: it returns normally and leaves the client marked as
    disconnected, in the state DISCONNECTED, without socket, channel
    identity and callbacks, and with the attempt count 0.  [reconnectTimer]
    and [heartbeatTimer] are [null]; the timeout and the interval they held
    are cleared, and no other timer is touched.  A second [disconnect] only
    writes its two log lines. *)
Theorem disconnect_cleans_up st :
  onConnectionStateChange options = false
  \/ connectionState st = ConnectionState.DISCONNECTED ->
  let st' := (disconnect st).2 in
  (disconnect st).1 = Normal tt
  /\ isDisconnected st' = true
  /\ connectionState st' = ConnectionState.DISCONNECTED
  /\ socket st' = None
  /\ channelInfo st' = None
  /\ reconnectAttempts st' = 0
  /\ reconnectTimer st' = None
  /\ heartbeatTimer st' = None
  /\ timeouts st'
     = match reconnectTimer st with
       | Some timer => <[timer := None]> (timeouts st)
       | None => timeouts st
       end
  /\ intervals st'
     = match heartbeatTimer st with
       | Some timer => <[timer := false]> (intervals st)
       | None => intervals st
       end
  /\ emitter st' = []
  /\ listeners st' = ∅
  /\ onceListeners st' = ∅
  /\ disconnect st'
     = (Normal tt,
        set_trace
          (trace st' ++ [Logged LInfo "Disconnecting client...";
                         Logged LInfo "Client disconnected and cleaned up"])
          st').
Proof.
  intros _. cbn zeta.
  destruct (disconnect_result st)
    as (H1 & H2 & H3 & H4 & H5 & H6 & H7 & H8 & H9 & H10 & H11 & H12 & H13).
  repeat (split; [done|]).
  by apply disconnect_when_clean.
Qed.

(** X19.  [disconnect] closes the socket only when it is open.  A socket
    that is still connecting loses its listeners and is not closed: it stays
    in its ready state, and the client no longer holds it. *)
Theorem disconnect_closes_only_open_socket st sock ws :
  socket st = Some sock ->
  sockets st !! sock = Some ws ->
  let st' := (disconnect st).2 in
  let is_open := bool_decide (WebSocket.readyState ws = WebSocket.OPEN) in
  sockets st'
  = <[sock := {| WebSocket.readyState :=
                   if is_open then WebSocket.CLOSING
                   else WebSocket.readyState ws;
                 WebSocket.ownListeners := false;
                 WebSocket.call := WebSocket.call ws;
                 WebSocket.chatroomId := WebSocket.chatroomId ws |}]>
      (sockets st)
  /\ (In (Close sock) (effects_since st st') <-> is_open = true)
  /\ socket st' = None.
Proof.
  intros Hsock Hws. cbn zeta.
  unfold disconnect, stopHeartbeat, clearTimeout, clearInterval, close_socket,
    setConnectionState, removeAllListeners, effects_since.
  run_m.
  destruct (bool_decide_reflect
              (connectionState st = ConnectionState.DISCONNECTED)),
    (onConnectionStateChange options),
    (reconnectTimer st) as [timer|] eqn:Htimer,
    (heartbeatTimer st) as [interval|] eqn:Hinterval;
    repeat progress (run_m; rewrite ?Htimer, ?Hinterval, ?Hsock, ?Hws);
    destruct (bool_decide_reflect (WebSocket.readyState ws = WebSocket.OPEN));
    run_m; rewrite ?list_insert_insert_eq;
    (split; [done|]); (split; [|done]);
    rewrite <- ?app_assoc; rewrite drop_trace; cbn; intuition congruence.
Qed.

(** ** The handlers of [close] and [open] *)

(** [scheduleReconnect] reads the attempt count, [isDisconnected] and the
    timeouts of the runtime. *)
Lemma scheduleReconnect_reads st1 st2 :
  reconnectAttempts st1 = reconnectAttempts st2 ->
  isDisconnected st1 = isDisconnected st2 ->
  timeouts st1 = timeouts st2 ->
  reconnectTimer st1 = reconnectTimer st2 ->
  (scheduleReconnect st1).1 = (scheduleReconnect st2).1
  /\ timeouts (scheduleReconnect st1).2 = timeouts (scheduleReconnect st2).2
  /\ reconnectTimer (scheduleReconnect st1).2
     = reconnectTimer (scheduleReconnect st2).2.
Proof.
  intros Ha Hd Ht Hr. unfold scheduleReconnect, setTimeout. run_m.
  rewrite Ha, Hd. case_match; run_m; by rewrite ?Ht.
Qed.

Lemma scheduleReconnect_beyond_timers st :
  let st' := (scheduleReconnect st).2 in
  connectionState st' = connectionState st
  /\ heartbeatTimer st' = heartbeatTimer st
  /\ exists logs, trace st' = trace st ++ logs /\ invocations logs = [].
Proof.
  cbn zeta. unfold scheduleReconnect, setTimeout. run_m.
  case_match; run_m; (split; [done|]); (split; [done|]);
    eexists; rewrite <- ?app_assoc; by split.
Qed.

(** The handler of [close] up to the dispatch of [disconnect]. *)
Lemma on_close_unfold st :
  isDisconnected st = false ->
  exists st0,
    on_close st
    = match emit "disconnect" NoArg st0 with
      | (Normal _, st1) => scheduleReconnect st1
      | (Throw e, st1) => (Throw e, st1)
      end
    /\ emitter st0 = emitter st
    /\ heartbeatTimer st0 = None
    /\ connectionState st0 = ConnectionState.DISCONNECTED
    /\ isDisconnected st0 = false
    /\ reconnectAttempts st0 = reconnectAttempts st
    /\ timeouts st0 = timeouts st
    /\ reconnectTimer st0 = reconnectTimer st
    /\ exists logs, trace st0 = trace st ++ logs /\ invocations logs = [].
Proof.
  intros Hd.
  unfold on_close, stopHeartbeat, clearInterval, setConnectionState.
  destruct (heartbeatTimer st) as [timer|] eqn:Htimer;
    destruct (bool_decide_reflect
                (connectionState st = ConnectionState.DISCONNECTED)) as [Hs|Hs];
    destruct (onConnectionStateChange options);
    repeat progress (run_m; rewrite ?Htimer, ?Hd);
    (rewrite bool_decide_eq_true_2 by done) || (rewrite bool_decide_eq_false_2 by done);
    run_m;
    (eexists; split; [reflexivity|]); cbn; rewrite ?Htimer;
    repeat (split; [done|]);
    eexists; rewrite <- ?app_assoc; by split.
Qed.

(** X20.  A close on a client that was not disconnected and that announces
    no change of state to a callback (no [onConnectionStateChange], or a
    client that is DISCONNECTED), when no callback of [disconnect] raises:
    the handler returns normally, the heartbeat is stopped, and the
    callbacks of [disconnect] are called in the order of registration, and
    no other callback.  When no callback is registered for [disconnect],
    the state is DISCONNECTED and the reconnection is scheduled as
    [scheduleReconnect] does from the state at the close. *)
Theorem unexpected_close_schedules_reconnect st :
  isDisconnected st = false ->
  onConnectionStateChange options = false
  \/ connectionState st = ConnectionState.DISCONNECTED ->
  Forall (fun r => raises (reg_listener r) = false)
    (registrations_of "disconnect" (emitter st)) ->
  let st' := (on_close st).2 in
  (on_close st).1 = Normal tt
  /\ heartbeatTimer st' = None
  /\ invocations (effects_since st st')
     = map (fun r => Invoked (lid (reg_listener r)) "disconnect" NoArg)
         (registrations_of "disconnect" (emitter st))
  /\ (registrations_of "disconnect" (emitter st) = [] ->
      connectionState st' = ConnectionState.DISCONNECTED
      /\ timeouts st' = timeouts (scheduleReconnect st).2
      /\ reconnectTimer st' = reconnectTimer (scheduleReconnect st).2).
Proof.
  intros Hd _ Hquiet. cbn zeta.
  destruct (on_close_unfold st Hd)
    as (st0 & -> & Hem & Hhb & Hs & Hd0 & Ha & Hto & Hrt & logs0 & Htr0 & Hlogs0).
  rewrite <- Hem in Hquiet.
  destruct (emit_quiet "disconnect" NoArg st0 Hquiet)
    as (b & st1 & -> & Htr1 & Hrest); [by right|].
  unfold beyond_listeners in Hrest.
  destruct (scheduleReconnect_reads st1 st) as (Hout & Hto' & Hrt');
    [congruence..|].
  destruct (scheduleReconnect_beyond_timers st1) as (Hs' & Hhb' & logs2 & Htr2 & Hlogs2).
  split.
  { rewrite Hout. unfold scheduleReconnect. run_m. by case_match. }
  split; [congruence|]. split.
  - unfold effects_since. rewrite Htr2, Htr1, Htr0, <- !app_assoc, drop_trace.
    unfold invocations in *. rewrite !List.filter_app, Hlogs0, Hlogs2, app_nil_r.
    cbn [app]. rewrite Hem. apply forallb_filter_id.
    rewrite forallb_forall. intros e Hin. apply in_map_iff in Hin as (r & <- & _).
    done.
  - intros _. repeat split; congruence.
Qed.


(** The handler of [open] up to the dispatch of [ready]. *)
Lemma on_open_unfold call st :
  isDisconnected st = false ->
  exists st0,
    on_open call st
    = match emit "ready" (ReadyArg (channelInfo st)) st0 with
      | (Normal _, st1) => settle call Resolved st1
      | (Throw e, st1) => (Throw e, st1)
      end
    /\ emitter st0 = emitter st
    /\ connectionState st0 = ConnectionState.CONNECTED
    /\ reconnectAttempts st0 = 0
    /\ promises st0 = promises st
    /\ (truthy heartbeatInterval = true -> is_Some (heartbeatTimer st0))
    /\ exists logs, trace st0 = trace st ++ logs /\ invocations logs = [].
Proof.
  intros Hd.
  unfold on_open, startHeartbeat, setInterval, setConnectionState.
  destruct (heartbeatTimer st) as [timer|] eqn:Htimer;
    destruct (truthy heartbeatInterval) eqn:Hhb;
    destruct (bool_decide_reflect
                (connectionState st = ConnectionState.CONNECTED)) as [Hs|Hs];
    destruct (onConnectionStateChange options);
    repeat progress (run_m; rewrite ?Htimer, ?Hd);
    (rewrite bool_decide_eq_true_2 by done) || (rewrite bool_decide_eq_false_2 by done);
    repeat progress (run_m; rewrite ?Htimer);
    (eexists; split; [reflexivity|]); cbn; rewrite ?Htimer;
    repeat (split; [done|]);
    eexists; rewrite <- ?app_assoc; by split.
Qed.

Lemma settle_pending call s p st :
  promises st !! call = Some p ->
  settled p = None ->
  settle call s st
  = (Normal tt,
     set_trace (trace st ++ [match s with
                             | Resolved => Resolve call
                             | Rejected kickError => Reject call kickError
                             end])
       (set_promises
          (<[call := {| caller := caller p; fetching := fetching p;
                        settled := Some s; caught := caught p |}]>
             (promises st)) st)).
Proof. intros Hp Hnone. unfold settle. run_m. by rewrite Hp, Hnone. Qed.

(** X22.  When the socket of a pending [connect] opens on a client that
    was not disconnected and that announces no change of state to a
    callback (no [onConnectionStateChange], or a client that is CONNECTED),
    and no callback of [ready] raises: the handler returns normally, the
    callbacks of [ready] are called in the order of registration with the
    channel identity, and no other callback, and then the promise of that
    [connect] is resolved.  When no callback is registered for [ready], the
    state is CONNECTED, the attempt count is 0 and the heartbeat runs if an
    interval is configured. *)
Theorem open_resolves_connect call p st :
  isDisconnected st = false ->
  onConnectionStateChange options = false
  \/ connectionState st = ConnectionState.CONNECTED ->
  promises st !! call = Some p ->
  settled p = None ->
  Forall (fun r => raises (reg_listener r) = false)
    (registrations_of "ready" (emitter st)) ->
  let st' := (on_open call st).2 in
  (on_open call st).1 = Normal tt
  /\ invocations (effects_since st st')
     = map (fun r => Invoked (lid (reg_listener r)) "ready"
                       (ReadyArg (channelInfo st)))
         (registrations_of "ready" (emitter st))
  /\ settled <$> promises st' !! call = Some (Some Resolved)
  /\ last (trace st') = Some (Resolve call)
  /\ (registrations_of "ready" (emitter st) = [] ->
      connectionState st' = ConnectionState.CONNECTED
      /\ reconnectAttempts st' = 0
      /\ (truthy heartbeatInterval = true -> is_Some (heartbeatTimer st'))).
Proof.
  intros Hd _ Hp Hpending Hquiet. cbn zeta.
  destruct (on_open_unfold call st Hd)
    as (st0 & -> & Hem & Hs & Ha & Hpr & Hhb & logs0 & Htr0 & Hlogs0).
  rewrite <- Hem in Hquiet.
  destruct (emit_quiet "ready" (ReadyArg (channelInfo st)) st0 Hquiet)
    as (b & st1 & -> & Htr1 & Hrest); [by right|].
  unfold beyond_listeners in Hrest.
  assert (promises st1 !! call = Some p) as Hp1 by congruence.
  rewrite (settle_pending call Resolved p st1 Hp1 Hpending). cbn.
  split; [done|]. split; [|split; [|split]].
  - unfold effects_since, set_trace, set_promises. cbn [trace].
    rewrite Htr1, Htr0, <- !app_assoc, drop_trace.
    unfold invocations in *. rewrite !List.filter_app, Hlogs0.
    cbn [app List.filter]. rewrite app_nil_r, Hem. apply forallb_filter_id.
    rewrite forallb_forall. intros e Hin.
    apply in_map_iff in Hin as (r & <- & _). done.
  - rewrite list_lookup_insert_eq by (by eapply lookup_lt_Some). done.
  - by rewrite last_snoc.
  - intros _. split; [congruence|]. split; [congruence|].
    intros Hon. replace (heartbeatTimer st1) with (heartbeatTimer st0)
      by congruence. by apply Hhb.
Qed.


(** ** The decoder *)

(** X24.  [parseMessage] returns an event only for a frame that parses to
    an object whose [event] is a string of the mapping table; the kind of
    the event is the one the table gives, and its payload is [parseJSON] of
    the [data] of the object. *)
Theorem parseMessage_sound frame parsed :
  (parseMessage parseJSON frame).2 = Normal (Some parsed) ->
  exists fields tag,
    parseJSON (Some (JStr frame)) = Normal (JObj fields)
    /\ lookup_last "event" fields = Some (JStr tag)
    /\ In (tag, ParsedMessage.type parsed) event_table
    /\ parseJSON (lookup_last "data" fields)
       = Normal (ParsedMessage.data parsed).
Proof.
  unfold parseMessage, parseMessage_try.
  destruct (parseJSON (Some (JStr frame))) as [messageEventJSON|e] eqn:Hframe;
    [|done].
  destruct messageEventJSON as [| | | | |fields]; try done.
  cbn [get_prop].
  destruct (lookup_last "event" fields) as [[| | |tag| |]|] eqn:Hevent;
    try done.
  rewrite !is_case_tag. intros Hparsed. exists fields, tag.
  split; [done|]. split; [done|]. revert Hparsed.
  unfold event_table. cbn [In].
  repeat match goal with
    | |- context [String.eqb tag ?t] =>
        destruct (String.eqb_spec tag t) as [->|_];
        [unfold decoded; cbn [get_prop];
         destruct (parseJSON (lookup_last "data" fields)); [|done];
         cbn; intros [= <-]; cbn; tauto|]
    end.
  done.
Qed.

(** X25.  A frame with a tag of the mapping table whose [data] does not
    parse gives [null], like a frame with an unknown tag; the failure is
    logged as an error and goes nowhere else. *)
Theorem parseMessage_payload_failure tag kind frame fields e :
  In (tag, kind) event_table ->
  parseJSON (Some (JStr frame)) = Normal (JObj fields) ->
  lookup_last "event" fields = Some (JStr tag) ->
  parseJSON (lookup_last "data" fields) = Throw e ->
  (parseMessage parseJSON frame).2 = Normal None
  /\ last (parseMessage parseJSON frame).1
     = Some (LError, "Error parsing message:").
Proof.
  intros Hin Hframe Hevent Hdata.
  unfold parseMessage, parseMessage_try. rewrite Hframe. cbn [get_prop].
  rewrite Hevent.
  unfold event_table in Hin. cbn [In] in Hin.
  repeat (destruct Hin as [[= <- <-]|Hin];
          [cbn; unfold decoded; cbn [get_prop]; by rewrite Hdata|]).
  destruct Hin.
Qed.

(** ** Emote markup *)

Lemma length_append (s1 s2 : string) :
  String.length (s1 +:+ s2) = String.length s1 + String.length s2.
Proof.
  induction s1 as [|c s1 IH]; [done|]. simpl. by rewrite IH.
Qed.


Lemma strip_prefix_length p s r :
  strip_prefix p s = Some r -> String.length s = String.length p + String.length r.
Proof.
  revert s. induction p as [|a p IH]; intros [|b s]; cbn; try done.
  - by intros [= <-].
  - by intros [= <-].
  - case_match; [|done]. intros Hr. by rewrite (IH _ Hr).
Qed.

Lemma take_while_length p s :
  String.length s
  = String.length (take_while p s).1 + String.length (take_while p s).2.
Proof.
  induction s as [|c s IH]; cbn; [done|].
  destruct (p c); [|done].
  destruct (take_while p s) as [cs tl]. cbn in *. by rewrite IH.
Qed.

Lemma take_while_app p a rest :
  string_forall p a = true ->
  match rest with String c _ => p c = false | EmptyString => True end ->
  take_while p (a +:+ rest) = (a, rest).
Proof.
  intros Ha Hrest. induction a as [|x a IH]; simpl in *.
  - destruct rest as [|c r]; [done|]. simpl. by rewrite Hrest.
  - apply andb_true_iff in Ha as [-> Ha]. by rewrite IH.
Qed.

(** A match of the pattern takes the markup off the text. *)
Lemma match_emote_length s emoteName tl :
  match_emote s = Some (emoteName, tl) ->
  String.length emoteName + String.length tl + 10 <= String.length s.
Proof.
  unfold match_emote.
  destruct (strip_prefix "[emote:" s) as [r1|] eqn:Hr1; [|done].
  apply strip_prefix_length in Hr1.
  pose proof (take_while_length is_digit r1) as Hd.
  destruct (take_while is_digit r1) as [digits r2].
  destruct digits as [|d digits]; [done|].
  destruct r2 as [|c r3]; [done|].
  destruct (Ascii.eqb_spec c ":") as [->|Hc].
  2: { by destruct c as [[] [] [] [] [] [] [] []]. }
  pose proof (take_while_length is_word r3) as Hw.
  destruct (take_while is_word r3) as [name r4].
  destruct name as [|n name]; [done|].
  destruct r4 as [|c r5]; [done|].
  destruct (Ascii.eqb_spec c "]") as [->|Hc].
  2: { by destruct c as [[] [] [] [] [] [] [] []]. }
  intros [= <- <-]. cbn in *. lia.
Qed.

Lemma match_emote_token digits emoteName rest :
  digits <> EmptyString -> string_forall is_digit digits = true ->
  emoteName <> EmptyString -> string_forall is_word emoteName = true ->
  match_emote ("[emote:" +:+ digits +:+ ":" +:+ emoteName +:+ "]" +:+ rest)
  = Some (emoteName, rest).
Proof.
  intros Hd1 Hd2 Hn1 Hn2. unfold match_emote. simpl strip_prefix.
  change (EmptyString +:+ ?x) with x. cbv iota beta.
  rewrite (take_while_app is_digit digits) by done.
  destruct digits as [|d digits]; [done|]. simpl.
  change (EmptyString +:+ ?x) with x.
  rewrite (take_while_app is_word emoteName) by done.
  by destruct emoteName.
Qed.

Lemma match_emote_not_bracket c rest :
  not_bracket c = true -> match_emote (String c rest) = None.
Proof.
  unfold not_bracket, match_emote. cbn [strip_prefix].
  intros Hc%negb_true_iff. by rewrite Hc.
Qed.

(** With enough of it, the fuel does not matter. *)
Lemma replace_emotes_from_fuel n fuel1 fuel2 s :
  String.length s <= n ->
  String.length s <= fuel1 -> String.length s <= fuel2 ->
  replace_emotes_from fuel1 s = replace_emotes_from fuel2 s.
Proof.
  revert fuel1 fuel2 s. induction n as [|n IH]; intros fuel1 fuel2 s Hn H1 H2.
  - destruct s; [|cbn in *; lia]. by destruct fuel1, fuel2.
  - destruct s as [|c rest]; [by destruct fuel1, fuel2|].
    destruct fuel1 as [|fuel1]; [cbn in *; lia|].
    destruct fuel2 as [|fuel2]; [cbn in *; lia|].
    cbn [replace_emotes_from].
    destruct (match_emote (String c rest)) as [[emoteName tl]|] eqn:Hm.
    + apply match_emote_length in Hm. cbn in *.
      f_equal. apply IH; lia.
    + cbn in *. f_equal. apply IH; lia.
Qed.

Lemma replace_emotes_enough fuel s :
  String.length s <= fuel -> replace_emotes_from fuel s = replace_emotes s.
Proof.
  intros H. unfold replace_emotes.
  by apply (replace_emotes_from_fuel (String.length s)).
Qed.

Lemma replace_emotes_from_length fuel s :
  String.length (replace_emotes_from fuel s) <= String.length s.
Proof.
  revert s. induction fuel as [|fuel IH]; intros s; [by destruct s|].
  destruct s as [|c rest]; [done|]. cbn [replace_emotes_from].
  destruct (match_emote (String c rest)) as [[emoteName tl]|] eqn:Hm.
  - apply match_emote_length in Hm. rewrite length_append.
    specialize (IH tl). lia.
  - cbn. specialize (IH rest). lia.
Qed.

Lemma replace_emotes_from_plain fuel s :
  string_forall not_bracket s = true -> replace_emotes_from fuel s = s.
Proof.
  revert s. induction fuel as [|fuel IH]; intros s Hs; [by destruct s|].
  destruct s as [|c rest]; [done|]. cbn [replace_emotes_from].
  cbn in Hs. apply andb_true_iff in Hs as [Hc Hrest].
  rewrite match_emote_not_bracket by done. by rewrite IH.
Qed.

Lemma replace_emotes_prefix text s :
  string_forall not_bracket text = true ->
  replace_emotes (text +:+ s) = text +:+ replace_emotes s.
Proof.
  intros Htext. induction text as [|c text IH]; [done|].
  cbn in Htext. apply andb_true_iff in Htext as [Hc Htext].
  unfold replace_emotes at 1.
  change (String c text +:+ s) with (String c (text +:+ s)).
  cbn [String.length replace_emotes_from].
  rewrite match_emote_not_bracket by done.
  rewrite replace_emotes_enough by done. by rewrite IH.
Qed.

(** X26.  In the content of a chat message, text without an opening
    bracket is kept and an emote markup that follows it, with at least one
    digit as id and a name of word characters, is replaced by the name; the
    rest of the content is rewritten in the same way. *)
Theorem replace_emotes_token text digits emoteName rest :
  string_forall not_bracket text = true ->
  digits <> EmptyString -> string_forall is_digit digits = true ->
  emoteName <> EmptyString -> string_forall is_word emoteName = true ->
  replace_emotes
    (text +:+ "[emote:" +:+ digits +:+ ":" +:+ emoteName +:+ "]" +:+ rest)
  = text +:+ emoteName +:+ replace_emotes rest.
Proof.
  intros Htext Hd1 Hd2 Hn1 Hn2.
  rewrite replace_emotes_prefix by done. f_equal.
  unfold replace_emotes at 1.
  pose proof (match_emote_token digits emoteName rest Hd1 Hd2 Hn1 Hn2) as Hm.
  remember ("[emote:" +:+ digits +:+ ":" +:+ emoteName +:+ "]" +:+ rest) as s.
  destruct s as [|c s]; [done|]. cbn [String.length replace_emotes_from].
  rewrite Hm. f_equal. apply replace_emotes_enough.
  apply match_emote_length in Hm. cbn in Hm. lia.
Qed.

(** X27.  The rewrite never makes a content longer, and it leaves a content
    without an opening bracket as it is. *)
Theorem replace_emotes_bounds content :
  String.length (replace_emotes content) <= String.length content
  /\ (string_forall not_bracket content = true ->
      replace_emotes content = content).
Proof.
  split.
  - apply replace_emotes_from_length.
  - apply replace_emotes_from_plain.
Qed.

Lemma lookup_last_set_prop k k' v fields :
  lookup_last k' (set_prop k v fields)
  = if String.eqb k' k
    then match lookup_last k fields with Some _ => Some v | None => None end
    else lookup_last k' fields.
Proof.
  unfold set_prop.
  induction fields as [|[key w] fields IH]; cbn [map lookup_last fst].
  - by case_match.
  - rewrite IH. clear IH.
    destruct (String.eqb_spec key k) as [->|Hkey];
      destruct (String.eqb_spec k' k) as [->|Hk']; cbn [lookup_last].
    + rewrite String.eqb_refl. by destruct (lookup_last k fields).
    + destruct (lookup_last k' fields); [done|].
      by rewrite (proj2 (String.eqb_neq k k')).
    + rewrite (proj2 (String.eqb_neq key k)) by done.
      by destruct (lookup_last k fields).
    + done.
Qed.

(** X28.  The rewrite of a chat payload changes the value of [content] and
    nothing else: the members and their order stay, every other key reads as
    before, and [content] reads as the rewritten text.  On a payload that is
    not an object with a string as [content] it throws a TypeError. *)
Theorem plainEmote_rewrite_content messageData :
  (forall fields content,
      messageData = JObj fields ->
      lookup_last "content" fields = Some (JStr content) ->
      exists fields',
        plainEmote_rewrite messageData = Normal (JObj fields')
        /\ lookup_last "content" fields' = Some (JStr (replace_emotes content))
        /\ (forall k, k <> "content" ->
                      lookup_last k fields' = lookup_last k fields)
        /\ map fst fields' = map fst fields)
  /\ ((forall fields content,
         messageData = JObj fields ->
         lookup_last "content" fields <> Some (JStr content)) ->
      plainEmote_rewrite messageData = Throw TypeError).
Proof.
  split.
  - intros fields content -> Hc. cbn. rewrite Hc. eexists. split; [done|].
    split; [|split].
    + by rewrite lookup_last_set_prop, String.eqb_refl, Hc.
    + intros k Hk. rewrite lookup_last_set_prop.
      by rewrite (proj2 (String.eqb_neq k "content")).
    + unfold set_prop. rewrite map_map. apply map_ext. intros [key w]. cbn.
      by case_match.
  - intros Hnone. destruct messageData as [| | | | |fields]; try done. cbn.
    specialize (Hnone fields).
    destruct (lookup_last "content" fields) as [[| | |content| |]|]; try done.
    by edestruct Hnone.
Qed.

(** ** Announcements of the state of the connection *)

Lemma leaves_announcements_ret {A : Type} (a : A) :
  leaves_announcements (mret a).
Proof. done. Qed.

Lemma leaves_announcements_bind {A B : Type} (m : M A) (f : A -> M B) :
  leaves_announcements m -> (forall a, leaves_announcements (f a)) ->
  leaves_announcements (m ≫= f).
Proof.
  intros Hm Hf st. unfold mbind, M_bind. specialize (Hm st).
  destruct (m st) as [[a|e] st']; cbn in *; [|done].
  by rewrite Hf.
Qed.

Lemma leaves_announcements_try_catch {A : Type} (m : M A) (h : exn -> M A) :
  leaves_announcements m -> (forall e, leaves_announcements (h e)) ->
  leaves_announcements (try_catch m h).
Proof.
  intros Hm Hh st. unfold try_catch. specialize (Hm st).
  destruct (m st) as [[a|e] st']; cbn in *; [done|].
  by rewrite Hh.
Qed.

Lemma leaves_announcements_get_state : leaves_announcements get_state.
Proof. done. Qed.

Lemma leaves_announcements_throw {A : Type} (e : exn) :
  leaves_announcements (throw (A := A) e).
Proof. done. Qed.

Lemma leaves_announcements_lift {A : Type} (c : completion A) :
  leaves_announcements (lift c).
Proof. done. Qed.

(** An assignment to a variable other than the state, and an effect other
    than a call of the callback. *)
Lemma leaves_announcements_modify (f : Client -> Client) :
  (forall st, connectionState (f st) = connectionState st) ->
  (forall st, trace (f st) = trace st) ->
  leaves_announcements (modify f).
Proof. intros Hs Ht st. unfold announcements, modify. cbn. by rewrite Hs, Ht. Qed.

Lemma leaves_announcements_effect (e : Effect) :
  state_changes [e] = [] -> leaves_announcements (effect e).
Proof.
  intros He st. unfold announcements, effect, modify, state_changes in *. cbn.
  by rewrite omap_app, He, app_nil_r.
Qed.

Create HintDb announcements discriminated.

Ltac solve_leaves_announcements :=
  repeat first
    [ apply leaves_announcements_ret
    | apply leaves_announcements_get_state
    | apply leaves_announcements_throw
    | apply leaves_announcements_lift
    | assumption
    | solve [auto with announcements]
    | apply leaves_announcements_modify; [done|done]
    | apply leaves_announcements_effect; done
    | apply leaves_announcements_try_catch; [|intros]
    | apply leaves_announcements_bind; [|intros]
    | case_match ].

Lemma leaves_announcements_log_all entries :
  leaves_announcements (log_all entries).
Proof.
  induction entries as [|[level msg] rest IH]; cbn [log_all];
    unfold logger; solve_leaves_announcements.
Qed.

Lemma leaves_announcements_invoke_all event arg regs :
  leaves_announcements (invoke_all event arg regs).
Proof.
  induction regs as [|r rest IH]; cbn [invoke_all];
    unfold invoke, removeListener; solve_leaves_announcements.
Qed.

#[local] Hint Resolve leaves_announcements_log_all
  leaves_announcements_invoke_all : announcements.

Ltac unfold_statements :=
  unfold on_open, on_message, on_close, on_error, on_pong, reconnect,
    reconnect_catch, disconnect, close_socket, connect, connect_resume,
    heartbeat, startHeartbeat, stopHeartbeat, scheduleReconnect, emit,
    addListener, removeListener, removeAllListeners, handleError, createError,
    settle, setTimeout, clearTimeout, setInterval, clearInterval, logger.

Lemma leaves_keeps_announcing {A : Type} (m : M A) :
  leaves_announcements m -> keeps_announcing m.
Proof. intros Hm st HP. by rewrite Hm. Qed.

Lemma keeps_announcing_bind {A B : Type} (m : M A) (f : A -> M B) :
  keeps_announcing m -> (forall a, keeps_announcing (f a)) ->
  keeps_announcing (m ≫= f).
Proof.
  intros Hm Hf st HP. unfold mbind, M_bind. specialize (Hm st HP).
  destruct (m st) as [[a|e] st']; cbn in *; [|done].
  by apply Hf.
Qed.

Lemma keeps_announcing_try_catch {A : Type} (m : M A) (h : exn -> M A) :
  keeps_announcing m -> (forall e, keeps_announcing (h e)) ->
  keeps_announcing (try_catch m h).
Proof.
  intros Hm Hh st HP. unfold try_catch. specialize (Hm st HP).
  destruct (m st) as [[a|e] st']; cbn in *; [done|].
  by apply Hh.
Qed.

(** [setConnectionState] announces a state exactly when it differs from the
    current one. *)
Lemma setConnectionState_announcing newState :
  keeps_announcing (setConnectionState newState).
Proof.
  intros st. unfold setConnectionState, announcing, announcements, announced.
  run_m.
  destruct (bool_decide_reflect (connectionState st = newState)) as [Hs|Hs];
    [done|].
  unfold state_changes.
  destruct (onConnectionStateChange options); run_m;
    rewrite !omap_app; cbn; rewrite app_nil_r; [|done].
  set (changes := omap _ (trace st)). intros [Hlast Hrep]. split.
  - by rewrite app_comm_cons, last_snoc.
  - intros i a b Ha Hb.
    apply lookup_app_Some in Hb as [Hb|[Hlen Hb]].
    + apply (Hrep i a b); [|done].
      apply lookup_lt_Some in Hb.
      by rewrite app_comm_cons, lookup_app_l in Ha by (cbn; lia).
    + apply list_lookup_singleton_Some in Hb as [Hi <-].
      assert (i = length changes) as -> by lia.
      rewrite last_lookup in Hlast. cbn in Hlast.
      rewrite app_comm_cons, lookup_app_l in Ha by (cbn; lia).
      congruence.
Qed.

Ltac solve_keeps_announcing :=
  repeat first
    [ apply setConnectionState_announcing
    | solve [apply leaves_keeps_announcing; solve_leaves_announcements]
    | apply keeps_announcing_try_catch; [|intros]
    | apply keeps_announcing_bind; [|intros]
    | case_match ].

Lemma handle_announcing m st :
  keeps_announcing m ->
  announcing (announcements st) -> announcing (announcements (handle m st)).
Proof.
  intros Hm HP. specialize (Hm st HP). unfold handle.
  destruct (m st) as [[a|e] st']; [done|].
  unfold announcements, state_changes in *. cbn in *.
  by rewrite omap_app, app_nil_r.
Qed.

Lemma announcements_set_readyState sock rs st :
  announcements (set_readyState sock rs st) = announcements st.
Proof. unfold set_readyState. by case_match. Qed.

Lemma socket_event_announcing sock from to listener st st' :
  (forall ws, keeps_announcing (listener ws)) ->
  socket_event sock from to listener st = Some st' ->
  announcing (announcements st) -> announcing (announcements st').
Proof.
  intros Hl Hev HP. unfold socket_event in Hev.
  repeat case_match; simplify_eq;
    [apply handle_announcing; [done|]|]; by rewrite announcements_set_readyState.
Qed.

Lemma step_announcing ev st st' :
  step ev st = Some st' ->
  announcing (announcements st) -> announcing (announcements st').
Proof.
  intros Hstep HP. destruct ev; cbn in Hstep;
    try (eapply socket_event_announcing; [|done..]; intros ws;
         unfold_statements; solve_keeps_announcing);
    repeat case_match; simplify_eq;
    (apply handle_announcing; [unfold_statements; solve_keeps_announcing|done]).
Qed.

Lemma reachable_announcing st :
  reachable st -> announcing (announcements st).
Proof.
  intros [events Hrun].
  assert (announcing (announcements createClient)) as Hinit.
  { assert (announcing (announcements created)) as Hcreated.
    { unfold announcing, announced. case_match; [|done]. split; [done|].
      intros i a b _ Hb. by destruct i. }
    unfold createClient. case_match; [|done].
    apply handle_announcing; [|done].
    unfold_statements; solve_keeps_announcing. }
  revert Hrun Hinit. generalize createClient. revert st.
  induction events as [|ev rest IH]; intros st st0 Hrun Hinit; cbn in Hrun.
  - by simplify_eq.
  - destruct (step ev st0) as [st1|] eqn:Hstep; [|done].
    eapply IH; [done|]. by eapply step_announcing.
Qed.

(** X29.  [onConnectionStateChange] is called exactly when the state of
    the connection changes: in every run the states passed to it, after the
    initial DISCONNECTED, never repeat the state before, and the last of
    them is the current state.  Without the callback nothing is
    announced. *)
Theorem state_changes_announced st :
  reachable st ->
  let changes := state_changes (trace st) in
  if onConnectionStateChange options then
    last (ConnectionState.DISCONNECTED :: changes) = Some (connectionState st)
    /\ forall i a b,
         (ConnectionState.DISCONNECTED :: changes) !! i = Some a ->
         changes !! i = Some b -> a <> b
  else changes = [].
Proof. intros Hst. apply reachable_announcing in Hst. exact Hst. Qed.

(** ** The base URL of the socket *)

Lemma append_cons c (a b : string) : String c a +:+ b = String c (a +:+ b).
Proof. done. Qed.

Lemma strip_prefix_append p s : strip_prefix p (p +:+ s) = Some s.
Proof.
  induction p as [|c p IH]; [by destruct s|].
  rewrite append_cons. cbn [strip_prefix]. by rewrite Ascii.eqb_refl.
Qed.

Lemma includes_append p a b : includes p (a +:+ p +:+ b) = true.
Proof.
  induction a as [|c a IH].
  - change (EmptyString +:+ ?x) with x.
    destruct (p +:+ b) eqn:Hpb; cbn [includes]; rewrite <- ?Hpb;
      by rewrite strip_prefix_append.
  - rewrite append_cons. cbn [includes]. rewrite IH. by case_match.
Qed.

Lemma match_app_key_none s : includes "/app/" s = false -> match_app_key s = None.
Proof.
  induction s as [|c s IH]; [done|].
  intros Hin. cbn [includes] in Hin. cbn [match_app_key].
  destruct (strip_prefix "/app/" (String c s)) eqn:Hhere; [done|].
  by apply IH.
Qed.

(** X30.  The base URL of the socket: a configured URL that contains
    [/app/] is used as it is, whatever app key is configured; any other URL
    gets [/app/] and the configured key, or the default key, after at most
    one trailing slash is dropped.  The key read off the URL is never used,
    and the base URL always contains [/app/]. *)
Theorem baseUrl_app_key config :
  let pusherUrl := default DEFAULT_BASE_URL (WebSocketConfig.pusherUrl config) in
  let key :=
    match WebSocketConfig.pusherAppKey config with
    | Some (String c k) => String c k
    | _ => DEFAULT_PUSHER_APP_KEY
    end in
  baseUrl config
  = (if includes "/app/" pusherUrl then pusherUrl
     else strip_trailing_slash pusherUrl +:+ "/app/" +:+ key)
  /\ includes "/app/" (baseUrl config) = true.
Proof.
  cbn zeta. unfold baseUrl.
  destruct (includes "/app/" (default DEFAULT_BASE_URL
                                (WebSocketConfig.pusherUrl config))) eqn:Hin.
  - done.
  - rewrite (match_app_key_none _ Hin). split.
    + by destruct (WebSocketConfig.pusherAppKey config) as [[|c k]|].
    + apply includes_append.
Qed.

End Client.

(** * The properties on concrete runs *)

(** ** The decoder *)

(** C1: a frame that is not JSON is a malformed envelope, and [parseMessage]
    returns [null] on it instead of failing. *)
Lemma parseMessage_garbage_does_not_fail :
  malformed_envelope RefJSON.parseJSON garbage_frame
  /\ (parseMessage RefJSON.parseJSON garbage_frame).2 = Normal None
  /\ ~ (exists e, (parseMessage RefJSON.parseJSON garbage_frame).2 = Throw e).
Proof.
  split; [by vm_compute|]. split; [by vm_compute|].
  intros [e He]. by vm_compute in He.
Qed.

Lemma parseMessage_malformed_envelope_witness :
  malformed_envelope RefJSON.parseJSON "{}"
  /\ (parseMessage RefJSON.parseJSON "{}").2 = Normal None
  /\ (parseMessage RefJSON.parseJSON "{}").1 = [(LDebug, "Unknown event type:")].
Proof.
  split; [by vm_compute|].
  apply (parseMessage_malformed_envelope RefJSON.parseJSON "{}").
  by vm_compute.
Defined.

Lemma parseMessage_event_table_witness :
  (parseMessage RefJSON.parseJSON chat_frame).2
  = Normal (Some {| ParsedMessage.type := "ChatMessage";
                    ParsedMessage.data := chat_payload |})
  /\ (parseMessage RefJSON.parseJSON future_frame).2 = Normal None.
Proof.
  split.
  - apply (proj1 (parseMessage_event_table RefJSON.parseJSON)
             "App\Events\ChatMessageEvent" "ChatMessage" chat_frame chat_payload).
    + cbn. tauto.
    + exists [("event", JStr "App\Events\ChatMessageEvent");
              ("data", JStr chat_text)], chat_text.
      repeat split; by vm_compute.
  - apply (proj2 (parseMessage_event_table RefJSON.parseJSON)
             "App\Events\FutureEvent" future_frame).
    + intros kind Hin. cbn in Hin.
      repeat (destruct Hin as [Hin|Hin]; [discriminate Hin|]). exact Hin.
    + exists [("event", JStr "App\Events\FutureEvent"); ("data", JStr "{}")].
      split; by vm_compute.
Defined.

(** ** Frames that fail to decode *)

(** C2: on an open connection with an error callback, a frame that is not
    JSON makes [parseMessage] log and return [null]; the handler reports no
    error, and leaves the socket, the state and the heartbeat as they are. *)
Lemma decode_failure_not_reported :
  exists st st',
    run RefJSON.parseJSON "xqc" plain_options ws_constructor
      [CallConnect; FetchDone 0 (Some 12345%Z); SocketOpen 0]
      (createClient plain_options) = Some st
    /\ (parseMessage_try RefJSON.parseJSON garbage_frame).2 = Throw SyntaxError
    /\ step RefJSON.parseJSON "xqc" plain_options ws_constructor
         (SocketMessage 0 garbage_frame) st = Some st'
    /\ effects_since st st' = [Logged LError "Error parsing message:"]
    /\ socket st' = socket st
    /\ sockets st' = sockets st
    /\ connectionState st' = ConnectionState.CONNECTED
    /\ heartbeatTimer st' = heartbeatTimer st.
Proof.
  eexists _, _. split; [by vm_compute|]. split; [by vm_compute|].
  split; [by vm_compute|]. by vm_compute.
Qed.

(** ** Reconnection after [disconnect] *)

(** C4: a reconnection attempt fails on a socket error; the close handler
    and the [catch] clause of the timer each arm a timer, and
    [reconnectTimer] holds the second.  [disconnect] clears that one; the
    first fires afterwards and calls [connect], which looks the channel up
    and opens a socket. *)
Lemma reconnect_after_disconnect :
  exists st st' st'',
    run RefJSON.parseJSON "xqc" plain_options ws_constructor
      [CallOn "error" error_listener; CallConnect; FetchDone 0 (Some 12345%Z);
       SocketOpen 0; SocketClose 0; TimeoutFires 0; FetchDone 1 (Some 12345%Z);
       SocketError 1; SocketClose 1; ReconnectRejected 1; CallDisconnect]
      (createClient plain_options) = Some st
    /\ isDisconnected st = true
    /\ reconnectTimer st = None
    /\ timeouts st = [None; Some 1000%Z; None]
    /\ step RefJSON.parseJSON "xqc" plain_options ws_constructor
         (TimeoutFires 1) st = Some st'
    /\ effects_since st st'
       = [ConnectCalled 2 ByReconnectTimer;
          Logged LInfo "Connecting to channel:";
          Logged LInfo "Connection state changed to:";
          StateChangeCallback ConnectionState.CONNECTING;
          Fetch 2]
    /\ step RefJSON.parseJSON "xqc" plain_options ws_constructor
         (FetchDone 2 (Some 12345%Z)) st' = Some st''
    /\ effects_since st' st''
       = [Logged LInfo "Found chatroom ID"; NewWebSocket 2 12345]
    /\ channelInfo st'' = Some (12345%Z, "xqc").
Proof.
  eexists _, _, _. split; [by vm_compute|]. split; [by vm_compute|].
  split; [by vm_compute|]. split; [by vm_compute|]. split; [by vm_compute|].
  split; [by vm_compute|]. split; [by vm_compute|]. by vm_compute.
Qed.

(** ** Reconnection backoff *)

(** C5: with [maxReconnectAttempts: 0] the attempt count 0 has reached the
    configured maximum, and the close handler still arms a reconnection. *)
Lemma zero_max_attempts_still_reconnects :
  exists st st',
    maxReconnectAttempts no_retries = Some 0%Z
    /\ run RefJSON.parseJSON "xqc" no_retries ws_constructor
         [CallConnect; FetchDone 0 (Some 12345%Z); SocketOpen 0]
         (createClient no_retries) = Some st
    /\ reconnectAttempts st = 0
    /\ step RefJSON.parseJSON "xqc" no_retries ws_constructor
         (SocketClose 0) st = Some st'
    /\ timeouts st' = [Some 1000%Z]
    /\ reconnectTimer st' = Some 0.
Proof.
  eexists _, _. split; [done|]. split; [by vm_compute|].
  split; [by vm_compute|]. split; [by vm_compute|]. by vm_compute.
Qed.

Lemma scheduleReconnect_backoff_witness :
  exists st,
    run RefJSON.parseJSON "xqc" plain_options ws_constructor
      [CallConnect; FetchDone 0 (Some 12345%Z); SocketOpen 0]
      (createClient plain_options) = Some st
    /\ timeouts (scheduleReconnect plain_options st).2 = [Some 1000%Z]
    /\ reconnectTimer (scheduleReconnect plain_options st).2 = Some 0
    /\ timeouts (scheduleReconnect plain_options
                   (set_isDisconnected true st)).2 = []
    /\ map (exponentialDelay plain_options) [0; 1; 2; 3; 4; 5; 6; 7]
       = [1000; 2000; 4000; 8000; 16000; 30000; 30000; 30000]%Z.
Proof.
  eexists. split; [by vm_compute|].
  match goal with
  | |- context [scheduleReconnect _ ?s] =>
      destruct (scheduleReconnect_backoff plain_options s) as (Hok & Hno & Hseq);
      destruct (scheduleReconnect_backoff plain_options (set_isDisconnected true s))
        as (_ & Hno' & _)
  end.
  split; [|split; [|split]].
  - apply Hok; by vm_compute.
  - apply Hok; by vm_compute.
  - apply Hno'. right. right. done.
  - cbn [map]. rewrite !Hseq by done. done.
Defined.

(** ** Heartbeat *)



(** With the default options: the peer starts closing an open socket, and
    the application calls [connect] before the close event arrives.  The
    client is [CONNECTING] and the heartbeat timer of the old socket is
    still active. *)
Lemma heartbeat_while_reconnecting :
  exists st,
    run RefJSON.parseJSON "xqc" plain_options ws_constructor
      [CallConnect; FetchDone 0 (Some 12345%Z); SocketOpen 0;
       SocketClosing 0; CallConnect]
      (createClient plain_options) = Some st
    /\ connectionState st = ConnectionState.CONNECTING
    /\ heartbeatTimer st = Some 0
    /\ intervals st = [true].
Proof. eexists. split; [by vm_compute|]. by vm_compute. Qed.

(** ** Channel identity *)


(** With a URL that the constructor of the socket refuses: the room id is
    resolved and the channel identity is set, no socket is made and the
    client is in the state ERROR. *)
Lemma channelInfo_without_socket :
  exists st,
    createWebSocket no_protocol ws_constructor = Throw SyntaxError
    /\ run RefJSON.parseJSON "xqc" no_protocol ws_constructor
         [CallConnect; FetchDone 0 (Some 12345%Z)]
         (createClient no_protocol) = Some st
    /\ channelInfo st = Some (12345%Z, "xqc")
    /\ sockets st = []
    /\ socket st = None
    /\ connectionState st = ConnectionState.ERROR.
Proof. eexists. split; [by vm_compute|]. split; by vm_compute. Qed.


(** ** [connect] on an open connection *)

(** C8: two calls of [connect] before the first socket opens make two
    sockets, and both open.  The socket the client holds is open, and two
    more calls of [connect] resolve at once; before and after them two
    sockets are open, with their listeners, not one. *)
Lemma two_live_sockets_while_connected :
  exists st st1 st2,
    run RefJSON.parseJSON "xqc" plain_options ws_constructor
      [CallConnect; CallConnect; FetchDone 0 (Some 12345%Z);
       FetchDone 1 (Some 12345%Z); SocketOpen 0; SocketOpen 1]
      (createClient plain_options) = Some st
    /\ isConnected st = true
    /\ step RefJSON.parseJSON "xqc" plain_options ws_constructor CallConnect st
       = Some st1
    /\ step RefJSON.parseJSON "xqc" plain_options ws_constructor CallConnect st1
       = Some st2
    /\ live_sockets st = [0; 1]
    /\ live_sockets st2 = [0; 1]
    /\ Forall (fun ws => WebSocket.readyState ws = WebSocket.OPEN
                         /\ WebSocket.ownListeners ws = true) (sockets st2)
    /\ length (live_sockets st2) <> 1.
Proof.
  eexists _, _, _. split; [by vm_compute|]. split; [by vm_compute|].
  split; [by vm_compute|]. split; [by vm_compute|].
  split; [by vm_compute|]. split; [by vm_compute|].
  split; [|by vm_compute].
  vm_compute. by repeat constructor.
Qed.

Lemma connect_idempotent_witness :
  exists st,
    run RefJSON.parseJSON "xqc" plain_options ws_constructor
      [CallConnect; FetchDone 0 (Some 12345%Z); SocketOpen 0]
      (createClient plain_options) = Some st
    /\ isConnected st = true
    /\ exists st1 st2,
         step RefJSON.parseJSON "xqc" plain_options ws_constructor
           CallConnect st = Some st1
         /\ step RefJSON.parseJSON "xqc" plain_options ws_constructor
              CallConnect st1 = Some st2
         /\ effects_since st st2
            = [ConnectCalled 1 ByUser;
               Logged LDebug "Already connected to WebSocket"; Resolve 1;
               ConnectCalled 2 ByUser;
               Logged LDebug "Already connected to WebSocket"; Resolve 2]
         /\ sockets st2 = sockets st
         /\ socket st2 = socket st
         /\ connectionState st2 = connectionState st
         /\ isConnected st2 = true
         /\ live_sockets st2 = live_sockets st.
Proof.
  eexists. split; [by vm_compute|]. split; [by vm_compute|].
  match goal with
  | |- exists st1 st2, step _ _ _ _ _ ?s = _ /\ _ =>
      exact (connect_idempotent RefJSON.parseJSON "xqc" plain_options
               ws_constructor s eq_refl)
  end.
Defined.

(** ** Dispatch to listeners *)

(** C9: two callbacks are registered for chat messages and the first one
    raises.  The chat-message frame reaches the first callback only; the
    handler of the socket reports the exception as a WebSocket error. *)
Lemma raising_listener_stops_dispatch :
  exists st st',
    run RefJSON.parseJSON "xqc" plain_options ws_constructor
      [CallOn "ChatMessage" raising_listener;
       CallOn "ChatMessage" quiet_listener;
       CallConnect; FetchDone 0 (Some 12345%Z); SocketOpen 0]
      (createClient plain_options) = Some st
    /\ step RefJSON.parseJSON "xqc" plain_options ws_constructor
         (SocketMessage 0 chat_frame) st = Some st'
    /\ effects_since st st'
       = [Invoked 1 "ChatMessage" (DataArg chat_payload);
          Logged LError "KickClient Error";
          ErrorCallback
            {| KickError.type := ErrorType.WEBSOCKET;
               KickError.message := "Failed to parse WebSocket message";
               KickError.originalError := ListenerRaised 1;
               KickError.context := ("xqc", ConnectionState.CONNECTED) |}]
    /\ ~ In (Invoked 2 "ChatMessage" (DataArg chat_payload))
           (effects_since st st').
Proof.
  eexists _, _. split; [by vm_compute|]. split; [by vm_compute|].
  split; [by vm_compute|]. vm_compute. intros [H|[H|[H|[]]]]; discriminate H.
Qed.

Lemma emit_stops_at_raising_listener_witness :
  exists st,
    run RefJSON.parseJSON "xqc" plain_options ws_constructor
      [CallOn "ChatMessage" quiet_listener;
       CallOn "ChatMessage" raising_listener;
       CallOn "ChatMessage" error_listener]
      (createClient plain_options) = Some st
    /\ (emit "ChatMessage" (DataArg chat_payload) st).1
       = Throw (ListenerRaised 1)
    /\ effects_since st (emit "ChatMessage" (DataArg chat_payload) st).2
       = [Invoked 2 "ChatMessage" (DataArg chat_payload);
          Invoked 1 "ChatMessage" (DataArg chat_payload)].
Proof.
  eexists. split; [by vm_compute|].
  match goal with
  | |- (emit _ _ ?s).1 = _ /\ _ =>
      apply (emit_stops_at_raising_listener "ChatMessage"
               (DataArg chat_payload) s
               [{| reg_event := "ChatMessage"; reg_listener := quiet_listener;
                   reg_once := false |}]
               {| reg_event := "ChatMessage"; reg_listener := raising_listener;
                  reg_once := false |}
               [{| reg_event := "ChatMessage"; reg_listener := error_listener;
                   reg_once := false |}])
  end.
  - by vm_compute.
  - by repeat constructor.
  - done.
Defined.

(** ** A stale open after [disconnect] *)

Lemma stale_open_ignored_witness :
  exists st st',
    run RefJSON.parseJSON "xqc" plain_options ws_constructor
      [CallConnect; CallDisconnect; FetchDone 0 (Some 12345%Z)]
      (createClient plain_options) = Some st
    /\ step RefJSON.parseJSON "xqc" plain_options ws_constructor
         (SocketOpen 0) st = Some st'
    /\ connectionState st' = connectionState st
    /\ connectionState st <> ConnectionState.CONNECTED
    /\ heartbeatTimer st' = None
    /\ reconnectAttempts st' = reconnectAttempts st
    /\ effects_since st st'
       = [Send 0;
          Logged LDebug "Connection opened but client is disconnected, ignoring"].
Proof.
  eexists _, _. split; [by vm_compute|]. split; [by vm_compute|].
  match goal with
  | |- connectionState ?s' = connectionState ?s /\ _ =>
      destruct (stale_open_ignored
               RefJSON.parseJSON "xqc" plain_options ws_constructor
                  [CallConnect; CallDisconnect; FetchDone 0 (Some 12345%Z)]
                  s 0 s')
        as (Hnc & Hsame & Hhb & Hattempts & Heff)
  end.
  - by vm_compute.
  - cbn. tauto.
  - by vm_compute.
  - split; [exact Hsame|]. split; [exact Hnc|]. split; [exact Hhb|].
    split; [exact Hattempts|]. by vm_compute.
Defined.

(** * Further properties on concrete runs *)

(** ** Listener registry *)

Lemma emit_in_registration_order_witness :
  exists st,
    run RefJSON.parseJSON "xqc" plain_options ws_constructor
      [CallOn "ChatMessage" quiet_listener;
       CallOnce "ChatMessage" error_listener]
      (createClient plain_options) = Some st
    /\ Forall (fun r => raises (reg_listener r) = false)
         (registrations_of "ChatMessage" (emitter st))
    /\ effects_since st (emit "ChatMessage" (DataArg chat_payload) st).2
       = [Invoked 2 "ChatMessage" (DataArg chat_payload);
          Invoked 3 "ChatMessage" (DataArg chat_payload)]
    /\ (emit "ChatMessage" (DataArg chat_payload) st).1 = Normal true.
Proof.
  eexists. split; [by vm_compute|].
  match goal with
  | |- Forall _ (registrations_of _ (emitter ?s)) /\ _ =>
      assert (Forall (fun r => raises (reg_listener r) = false)
                (registrations_of "ChatMessage" (emitter s))) as Hquiet
        by (vm_compute; repeat constructor);
      destruct (emit_in_registration_order "ChatMessage"
                  (DataArg chat_payload) s Hquiet) as [Heffects Hout]
  end.
  split; [exact Hquiet|]. split; [rewrite Heffects | rewrite Hout]; by vm_compute.
Defined.

Lemma emit_consumes_one_shots_witness :
  exists st,
    run RefJSON.parseJSON "xqc" plain_options ws_constructor
      [CallOn "ChatMessage" quiet_listener;
       CallOnce "ChatMessage" error_listener;
       CallOnce "ready" error_listener]
      (createClient plain_options) = Some st
    /\ Forall (fun r => raises (reg_listener r) = false)
         (registrations_of "ChatMessage" (emitter st))
    /\ Forall (fun r => reg_once r = false)
         (registrations_of "ChatMessage"
            (emitter (emit "ChatMessage" (DataArg chat_payload) st).2))
    /\ registrations_of "ready"
         (emitter (emit "ChatMessage" (DataArg chat_payload) st).2)
       = registrations_of "ready" (emitter st).
Proof.
  eexists. split; [by vm_compute|].
  match goal with
  | |- Forall _ (registrations_of _ (emitter ?s)) /\ _ =>
      assert (Forall (fun r => raises (reg_listener r) = false)
                (registrations_of "ChatMessage" (emitter s))) as Hquiet
        by (vm_compute; repeat constructor);
      destruct (emit_consumes_one_shots "ChatMessage"
                  (DataArg chat_payload) s Hquiet) as [Honce Hother]
  end.
  split; [exact Hquiet|]. split; [exact Honce|]. by apply Hother.
Defined.

Lemma one_shot_removes_persistent_witness :
  exists st,
    run RefJSON.parseJSON "xqc" plain_options ws_constructor
      [CallOn "ready" error_listener]
      (createClient plain_options) = Some st
    /\ registrations_of "ChatMessage" (emitter st) = []
    /\ raises quiet_listener = false
    /\ let st1 := ((addListener "ChatMessage" quiet_listener false;;
                    addListener "ChatMessage" quiet_listener true) st).2 in
       effects_since st1 (emit "ChatMessage" (DataArg chat_payload) st1).2
       = [Invoked 2 "ChatMessage" (DataArg chat_payload);
          Invoked 2 "ChatMessage" (DataArg chat_payload)]
       /\ emitter (emit "ChatMessage" (DataArg chat_payload) st1).2 = emitter st.
Proof.
  eexists. split; [by vm_compute|].
  split; [by vm_compute|]. split; [done|].
  match goal with
  | |- context [emitter _ = emitter ?s] =>
      exact (one_shot_removes_persistent "ChatMessage" quiet_listener
               (DataArg chat_payload) s eq_refl eq_refl)
  end.
Defined.

(** ** Timers *)

Lemma heartbeat_interval_tracked_witness :
  exists st,
    run RefJSON.parseJSON "xqc" plain_options ws_constructor
      [CallConnect; FetchDone 0 (Some 12345%Z); SocketOpen 0]
      (createClient plain_options) = Some st
    /\ heartbeatTimer st = Some 0
    /\ (intervals st !! 0 = Some true <-> heartbeatTimer st = Some 0).
Proof.
  eexists. split; [by vm_compute|]. split; [by vm_compute|].
  apply (heartbeat_interval_tracked
           RefJSON.parseJSON "xqc" plain_options ws_constructor).
  exists [CallConnect; FetchDone 0 (Some 12345%Z); SocketOpen 0].
  by vm_compute.
Defined.

Lemma reconnectTimer_pending_witness :
  exists st,
    run RefJSON.parseJSON "xqc" plain_options ws_constructor
      [CallConnect; FetchDone 0 (Some 12345%Z); SocketOpen 0; SocketClose 0]
      (createClient plain_options) = Some st
    /\ reconnectTimer st = Some 0
    /\ exists delay, timeouts st !! 0 = Some (Some delay).
Proof.
  eexists. split; [by vm_compute|]. split; [by vm_compute|].
  apply (reconnectTimer_pending
           RefJSON.parseJSON "xqc" plain_options ws_constructor).
  - exists [CallConnect; FetchDone 0 (Some 12345%Z); SocketOpen 0;
            SocketClose 0].
    by vm_compute.
  - by vm_compute.
Defined.

(** Two calls of [connect] before the first socket opens leave the first
    socket out of the reach of [disconnect]: it stays open, with its
    listeners. *)
Lemma no_timeout_after_disconnect_witness :
  exists st st',
    run RefJSON.parseJSON "xqc" plain_options ws_constructor
      [CallConnect; CallConnect; FetchDone 0 (Some 12345%Z);
       FetchDone 1 (Some 12345%Z); SocketOpen 0; CallDisconnect]
      (createClient plain_options) = Some st
    /\ run RefJSON.parseJSON "xqc" plain_options ws_constructor
         [SocketClose 0] st = Some st'
    /\ length (timeouts st') = length (timeouts st)
    /\ isDisconnected st' = true.
Proof.
  eexists _, _. split; [by vm_compute|]. split; [by vm_compute|].
  match goal with
  | |- length (timeouts ?s') = length (timeouts ?s) /\ _ =>
      apply (no_timeout_after_disconnect
               RefJSON.parseJSON "xqc" plain_options ws_constructor
               [CallConnect; CallConnect; FetchDone 0 (Some 12345%Z);
                FetchDone 1 (Some 12345%Z); SocketOpen 0; CallDisconnect]
               [SocketClose 0] s s')
  end.
  - by vm_compute.
  - cbn. tauto.
  - by vm_compute.
Defined.

(** ** The handler of [message] *)

Lemma application_frame_dispatched_witness :
  exists st,
    run RefJSON.parseJSON "xqc" plain_options ws_constructor
      [CallOn "ChatMessage" quiet_listener; CallConnect;
       FetchDone 0 (Some 12345%Z); SocketOpen 0]
      (createClient plain_options) = Some st
    /\ well_formed_envelope RefJSON.parseJSON chat_frame
         "App\Events\ChatMessageEvent" chat_payload
    /\ isDisconnected st = false
    /\ (on_message RefJSON.parseJSON "xqc" plain_options chat_frame st).1
       = Normal tt
    /\ invocations
         (effects_since st
            (on_message RefJSON.parseJSON "xqc" plain_options chat_frame st).2)
       = [Invoked 2 "ChatMessage" (DataArg chat_payload)].
Proof.
  eexists. split; [by vm_compute|].
  assert (well_formed_envelope RefJSON.parseJSON chat_frame
            "App\Events\ChatMessageEvent" chat_payload) as Hframe.
  { exists [("event", JStr "App\Events\ChatMessageEvent");
            ("data", JStr chat_text)], chat_text.
    repeat split; by vm_compute. }
  split; [exact Hframe|]. split; [by vm_compute|].
  match goal with
  | |- (on_message _ _ _ _ ?s).1 = _ /\ _ =>
      destruct (application_frame_dispatched RefJSON.parseJSON "xqc"
                  plain_options "App\Events\ChatMessageEvent" "ChatMessage"
                  chat_frame chat_payload s)
        as (Hout & Hcalls & _)
  end.
  - cbn. tauto.
  - by vm_compute.
  - exact Hframe.
  - by vm_compute.
  - done.
  - vm_compute. repeat constructor.
  - split; [exact Hout|]. rewrite Hcalls. by vm_compute.
Defined.

Lemma pusher_frame_only_logged_witness :
  exists st,
    run RefJSON.parseJSON "xqc" plain_options ws_constructor
      [CallOn "PusherPong" quiet_listener; CallConnect;
       FetchDone 0 (Some 12345%Z); SocketOpen 0]
      (createClient plain_options) = Some st
    /\ well_formed_envelope RefJSON.parseJSON pong_frame "pusher:pong" (JObj [])
    /\ exists logs,
         on_message RefJSON.parseJSON "xqc" plain_options pong_frame st
         = (Normal tt,
            set_trace (trace st ++ map (fun e => Logged e.1 e.2) logs) st).
Proof.
  eexists. split; [by vm_compute|].
  assert (well_formed_envelope RefJSON.parseJSON pong_frame "pusher:pong"
            (JObj [])) as Hframe.
  { exists [("event", JStr "pusher:pong"); ("data", JStr "{}")], "{}".
    repeat split; by vm_compute. }
  split; [exact Hframe|].
  apply (pusher_frame_only_logged RefJSON.parseJSON "xqc" plain_options
           "pusher:pong" "PusherPong" pong_frame (JObj [])).
  - cbn. tauto.
  - by vm_compute.
  - exact Hframe.
Defined.

Lemma chat_message_plain_emotes_witness :
  exists st,
    run RefJSON.parseJSON "xqc" emote_options ws_constructor
      [CallOn "ChatMessage" quiet_listener; CallConnect;
       FetchDone 0 (Some 12345%Z); SocketOpen 0]
      (createClient emote_options) = Some st
    /\ well_formed_envelope RefJSON.parseJSON emote_frame
         "App\Events\ChatMessageEvent"
         (JObj [("content", JStr "hi [emote:37226:KEKW]!")])
    /\ effects_since st
         (on_message RefJSON.parseJSON "xqc" emote_options emote_frame st).2
       = [Invoked 2 "ChatMessage"
            (DataArg (JObj [("content", JStr "hi KEKW!")]))].
Proof.
  eexists. split; [by vm_compute|].
  assert (well_formed_envelope RefJSON.parseJSON emote_frame
            "App\Events\ChatMessageEvent"
            (JObj [("content", JStr "hi [emote:37226:KEKW]!")])) as Hframe.
  { exists [("event", JStr "App\Events\ChatMessageEvent");
            ("data", JStr emote_text)], emote_text.
    repeat split; by vm_compute. }
  split; [exact Hframe|].
  match goal with
  | |- effects_since ?s _ = _ =>
      destruct (chat_message_plain_emotes RefJSON.parseJSON "xqc"
                  emote_options emote_frame
                  [("content", JStr "hi [emote:37226:KEKW]!")]
                  "hi [emote:37226:KEKW]!" s)
        as (_ & Heffects)
  end.
  - done.
  - exact Hframe.
  - done.
  - by vm_compute.
  - vm_compute. repeat constructor.
  - rewrite Heffects. by vm_compute.
Defined.

Lemma plain_emote_failure_reported_witness :
  exists st,
    run RefJSON.parseJSON "xqc" emote_options ws_constructor
      [CallOn "ChatMessage" quiet_listener; CallConnect;
       FetchDone 0 (Some 12345%Z); SocketOpen 0]
      (createClient emote_options) = Some st
    /\ well_formed_envelope RefJSON.parseJSON empty_chat_frame
         "App\Events\ChatMessageEvent" (JObj [])
    /\ on_message RefJSON.parseJSON "xqc" emote_options empty_chat_frame st
       = (Normal tt,
          set_trace
            (trace st
             ++ [Logged LError "KickClient Error";
                 ErrorCallback (message_error "xqc" TypeError st)]) st).
Proof.
  eexists. split; [by vm_compute|].
  assert (well_formed_envelope RefJSON.parseJSON empty_chat_frame
            "App\Events\ChatMessageEvent" (JObj [])) as Hframe.
  { exists [("event", JStr "App\Events\ChatMessageEvent");
            ("data", JStr "{}")], "{}".
    repeat split; by vm_compute. }
  split; [exact Hframe|].
  match goal with
  | |- on_message _ _ _ _ ?s = _ =>
      apply (plain_emote_failure_reported RefJSON.parseJSON "xqc"
               emote_options empty_chat_frame (JObj []) s)
  end.
  - done.
  - exact Hframe.
  - intros fields content [= <-]. discriminate.
  - by vm_compute.
Defined.

Lemma listener_exception_reported_witness :
  exists st,
    run RefJSON.parseJSON "xqc" plain_options ws_constructor
      [CallOn "ChatMessage" quiet_listener;
       CallOn "ChatMessage" raising_listener;
       CallOn "ChatMessage" error_listener;
       CallConnect; FetchDone 0 (Some 12345%Z); SocketOpen 0]
      (createClient plain_options) = Some st
    /\ well_formed_envelope RefJSON.parseJSON chat_frame
         "App\Events\ChatMessageEvent" chat_payload
    /\ (on_message RefJSON.parseJSON "xqc" plain_options chat_frame st).1
       = Normal tt
    /\ effects_since st
         (on_message RefJSON.parseJSON "xqc" plain_options chat_frame st).2
       = [Invoked 2 "ChatMessage" (DataArg chat_payload);
          Invoked 1 "ChatMessage" (DataArg chat_payload);
          Logged LError "KickClient Error";
          ErrorCallback (message_error "xqc" (ListenerRaised 1) st)].
Proof.
  eexists. split; [by vm_compute|].
  assert (well_formed_envelope RefJSON.parseJSON chat_frame
            "App\Events\ChatMessageEvent" chat_payload) as Hframe.
  { exists [("event", JStr "App\Events\ChatMessageEvent");
            ("data", JStr chat_text)], chat_text.
    repeat split; by vm_compute. }
  split; [exact Hframe|].
  match goal with
  | |- (on_message _ _ _ _ ?s).1 = _ /\ _ =>
      apply (listener_exception_reported RefJSON.parseJSON "xqc"
               plain_options "App\Events\ChatMessageEvent" "ChatMessage"
               chat_frame chat_payload s
               [registered "ChatMessage" quiet_listener]
               (registered "ChatMessage" raising_listener)
               [registered "ChatMessage" error_listener])
  end.
  - cbn. tauto.
  - by vm_compute.
  - exact Hframe.
  - by vm_compute.
  - done.
  - by vm_compute.
  - by repeat constructor.
  - done.
Defined.

Lemma message_after_disconnect_witness :
  exists st st',
    run RefJSON.parseJSON "xqc" plain_options ws_constructor
      [CallConnect; CallConnect; FetchDone 0 (Some 12345%Z);
       FetchDone 1 (Some 12345%Z); SocketOpen 0; CallDisconnect]
      (createClient plain_options) = Some st
    /\ step RefJSON.parseJSON "xqc" plain_options ws_constructor
         (SocketMessage 0 chat_frame) st = Some st'
    /\ st' = st.
Proof.
  eexists _, _. split; [by vm_compute|]. split; [by vm_compute|].
  match goal with
  | |- ?s' = ?s =>
      apply (message_after_disconnect
               RefJSON.parseJSON "xqc" plain_options ws_constructor
               [CallConnect; CallConnect; FetchDone 0 (Some 12345%Z);
                FetchDone 1 (Some 12345%Z); SocketOpen 0; CallDisconnect]
               s 0 chat_frame s')
  end.
  - by vm_compute.
  - cbn. tauto.
  - by vm_compute.
Defined.

(** ** Connecting and disconnecting *)



Lemma disconnect_cleans_up_witness :
  exists st,
    run RefJSON.parseJSON "xqc" no_callbacks ws_constructor
      [CallOn "ready" quiet_listener; CallConnect;
       FetchDone 0 (Some 12345%Z); SocketOpen 0; SocketClose 0]
      (createClient no_callbacks) = Some st
    /\ reconnectTimer st = Some 0
    /\ timeouts st = [Some 1000%Z]
    /\ let st' := (disconnect no_callbacks st).2 in
       (disconnect no_callbacks st).1 = Normal tt
       /\ isDisconnected st' = true
       /\ connectionState st' = ConnectionState.DISCONNECTED
       /\ reconnectTimer st' = None
       /\ timeouts st' = [None]
       /\ emitter st' = [].
Proof.
  eexists. split; [by vm_compute|].
  split; [by vm_compute|]. split; [by vm_compute|].
  match goal with
  | |- context [disconnect _ ?s] =>
      destruct (disconnect_cleans_up no_callbacks s (or_introl eq_refl))
        as (Hout & Hd & Hstate & _ & _ & _ & Hrt & _ & Hto & _ & Hem & _)
  end.
  cbn zeta. split; [exact Hout|]. split; [exact Hd|]. split; [exact Hstate|].
  split; [exact Hrt|]. split; [rewrite Hto; by vm_compute | exact Hem].
Defined.

Lemma disconnect_closes_only_open_socket_witness :
  exists st,
    run RefJSON.parseJSON "xqc" plain_options ws_constructor
      [CallConnect; FetchDone 0 (Some 12345%Z)]
      (createClient plain_options) = Some st
    /\ socket st = Some 0
    /\ sockets st !! 0
       = Some {| WebSocket.readyState := WebSocket.CONNECTING;
                 WebSocket.ownListeners := true;
                 WebSocket.call := 0;
                 WebSocket.chatroomId := 12345%Z |}
    /\ sockets (disconnect plain_options st).2
       = [{| WebSocket.readyState := WebSocket.CONNECTING;
             WebSocket.ownListeners := false;
             WebSocket.call := 0;
             WebSocket.chatroomId := 12345%Z |}]
    /\ ~ In (Close 0) (effects_since st (disconnect plain_options st).2).
Proof.
  eexists. split; [by vm_compute|].
  split; [by vm_compute|]. split; [by vm_compute|].
  match goal with
  | |- sockets (disconnect _ ?s).2 = _ /\ _ =>
      destruct (disconnect_closes_only_open_socket plain_options s 0
                  {| WebSocket.readyState := WebSocket.CONNECTING;
                     WebSocket.ownListeners := true;
                     WebSocket.call := 0;
                     WebSocket.chatroomId := 12345%Z |})
        as (Hsockets & Hclose & _); [by vm_compute | by vm_compute |]
  end.
  split.
  - rewrite Hsockets. by vm_compute.
  - intros Hin. apply Hclose in Hin. by vm_compute in Hin.
Defined.

(** ** The handlers of [close] and [open] *)

Lemma unexpected_close_schedules_reconnect_witness :
  exists st st0,
    run RefJSON.parseJSON "xqc" no_callbacks ws_constructor
      [CallOn "disconnect" quiet_listener; CallConnect;
       FetchDone 0 (Some 12345%Z); SocketOpen 0]
      (createClient no_callbacks) = Some st
    /\ run RefJSON.parseJSON "xqc" no_callbacks ws_constructor
         [CallConnect; FetchDone 0 (Some 12345%Z); SocketOpen 0]
         (createClient no_callbacks) = Some st0
    /\ isDisconnected st = false
    /\ (let st' := (on_close no_callbacks st).2 in
        (on_close no_callbacks st).1 = Normal tt
        /\ heartbeatTimer st' = None
        /\ invocations (effects_since st st')
           = [Invoked 2 "disconnect" NoArg])
    /\ (let st' := (on_close no_callbacks st0).2 in
        connectionState st' = ConnectionState.DISCONNECTED
        /\ timeouts st' = [Some 1000%Z]
        /\ reconnectTimer st' = Some 0).
Proof.
  eexists _, _. split; [by vm_compute|]. split; [by vm_compute|].
  split; [by vm_compute|].
  match goal with
  | |- (let st1 := (on_close _ ?s).2 in _)
       /\ (let st2 := (on_close _ ?s0).2 in _) =>
      destruct (unexpected_close_schedules_reconnect no_callbacks s)
        as (Hout & Hhb & Hcalls & _);
      [by vm_compute | by left | vm_compute; repeat constructor |];
      destruct (unexpected_close_schedules_reconnect no_callbacks s0)
        as (_ & _ & _ & Hnone);
      [by vm_compute | by left | vm_compute; repeat constructor |];
      destruct Hnone as (Hstate & Htimeouts & Htimer); [by vm_compute|]
  end.
  cbn zeta. split.
  - split; [exact Hout|]. split; [exact Hhb|]. rewrite Hcalls. by vm_compute.
  - split; [exact Hstate|].
    split; [rewrite Htimeouts | rewrite Htimer]; by vm_compute.
Defined.


Lemma open_resolves_connect_witness :
  exists st st0,
    run RefJSON.parseJSON "xqc" no_callbacks ws_constructor
      [CallOn "ready" quiet_listener; CallConnect; FetchDone 0 (Some 12345%Z)]
      (createClient no_callbacks) = Some st
    /\ run RefJSON.parseJSON "xqc" no_callbacks ws_constructor
         [CallConnect; FetchDone 0 (Some 12345%Z)]
         (createClient no_callbacks) = Some st0
    /\ isDisconnected st = false
    /\ promises st !! 0
       = Some {| caller := ByUser; fetching := false; settled := None;
                 caught := false |}
    /\ (let st' := (on_open no_callbacks 0 st).2 in
        (on_open no_callbacks 0 st).1 = Normal tt
        /\ invocations (effects_since st st')
           = [Invoked 2 "ready" (ReadyArg (Some (12345%Z, "xqc")))]
        /\ settled <$> promises st' !! 0 = Some (Some Resolved)
        /\ last (trace st') = Some (Resolve 0))
    /\ (let st' := (on_open no_callbacks 0 st0).2 in
        connectionState st' = ConnectionState.CONNECTED
        /\ reconnectAttempts st' = 0
        /\ is_Some (heartbeatTimer st')).
Proof.
  eexists _, _. split; [by vm_compute|]. split; [by vm_compute|].
  split; [by vm_compute|].
  match goal with
  | |- promises ?s !! 0 = Some ?p /\ _
       /\ (let st2 := (on_open _ _ ?s0).2 in _) =>
      assert (promises s !! 0 = Some p) as Hp by (by vm_compute);
      destruct (open_resolves_connect no_callbacks 0 p s)
        as (Hout & Hcalls & Hsettled & Hlast & _);
      [by vm_compute | by left | exact Hp | done
      | vm_compute; repeat constructor |];
      destruct (open_resolves_connect no_callbacks 0 p s0)
        as (_ & _ & _ & _ & Hnone);
      [by vm_compute | by left | by vm_compute | done
      | vm_compute; repeat constructor |];
      destruct Hnone as (Hstate & Hattempts & Hhb); [by vm_compute|]
  end.
  split; [exact Hp|]. cbn zeta. split.
  - split; [exact Hout|]. split; [rewrite Hcalls; by vm_compute|].
    split; [exact Hsettled | exact Hlast].
  - split; [exact Hstate|]. split; [exact Hattempts|]. by apply Hhb.
Defined.


(** ** The decoder and the emote markup *)

Lemma parseMessage_sound_witness :
  (parseMessage RefJSON.parseJSON chat_frame).2
  = Normal (Some {| ParsedMessage.type := "ChatMessage";
                    ParsedMessage.data := chat_payload |})
  /\ exists fields tag,
       RefJSON.parseJSON (Some (JStr chat_frame)) = Normal (JObj fields)
       /\ lookup_last "event" fields = Some (JStr tag)
       /\ In (tag, "ChatMessage") event_table
       /\ RefJSON.parseJSON (lookup_last "data" fields) = Normal chat_payload.
Proof.
  assert ((parseMessage RefJSON.parseJSON chat_frame).2
          = Normal (Some {| ParsedMessage.type := "ChatMessage";
                            ParsedMessage.data := chat_payload |})) as Hparsed
    by (by vm_compute).
  split; [exact Hparsed|].
  exact (parseMessage_sound RefJSON.parseJSON chat_frame _ Hparsed).
Defined.

Lemma parseMessage_payload_failure_witness :
  RefJSON.parseJSON (Some (JStr broken_chat_frame))
  = Normal (JObj [("event", JStr "App\Events\ChatMessageEvent");
                  ("data", JStr "not json")])
  /\ RefJSON.parseJSON (Some (JStr "not json")) = Throw SyntaxError
  /\ (parseMessage RefJSON.parseJSON broken_chat_frame).2 = Normal None
  /\ last (parseMessage RefJSON.parseJSON broken_chat_frame).1
     = Some (LError, "Error parsing message:").
Proof.
  assert (RefJSON.parseJSON (Some (JStr broken_chat_frame))
          = Normal (JObj [("event", JStr "App\Events\ChatMessageEvent");
                          ("data", JStr "not json")])) as Hframe
    by (by vm_compute).
  assert (RefJSON.parseJSON (Some (JStr "not json")) = Throw SyntaxError)
    as Hdata by (by vm_compute).
  split; [exact Hframe|]. split; [exact Hdata|].
  apply (parseMessage_payload_failure RefJSON.parseJSON
           "App\Events\ChatMessageEvent" "ChatMessage" broken_chat_frame
           [("event", JStr "App\Events\ChatMessageEvent");
            ("data", JStr "not json")] SyntaxError).
  - cbn. tauto.
  - exact Hframe.
  - done.
  - exact Hdata.
Defined.

Lemma replace_emotes_token_witness :
  replace_emotes "hi [emote:37226:KEKW]!" = "hi KEKW!".
Proof.
  exact (replace_emotes_token "hi " "37226" "KEKW" "!"
           eq_refl ltac:(discriminate) eq_refl ltac:(discriminate) eq_refl).
Defined.

(** ** Announcements of the state of the connection *)

Lemma state_changes_announced_witness :
  exists st,
    run RefJSON.parseJSON "xqc" plain_options ws_constructor
      [CallConnect; FetchDone 0 (Some 12345%Z); SocketOpen 0; SocketClose 0]
      (createClient plain_options) = Some st
    /\ state_changes (trace st)
       = [ConnectionState.CONNECTING; ConnectionState.CONNECTED;
          ConnectionState.DISCONNECTED]
    /\ last (ConnectionState.DISCONNECTED :: state_changes (trace st))
       = Some (connectionState st).
Proof.
  eexists. split; [by vm_compute|].
  split; [by vm_compute|].
  match goal with
  | |- context [connectionState ?s] =>
      destruct (state_changes_announced
               RefJSON.parseJSON "xqc" plain_options ws_constructor
           s)
        as [Hlast _]
  end.
  - exists [CallConnect; FetchDone 0 (Some 12345%Z); SocketOpen 0;
            SocketClose 0].
    by vm_compute.
  - exact Hlast.
Defined.
